(** * Heap-file record manager (heapfile.C): shallow embedding and properties

    The development follows the layering of the program:
    - machine integers, bytes and single-precision floats;
    - the collaborators that heapfile.C calls but does not define (slotted
      page, file device, buffer pool), modelled from their documented
      contracts;
    - the functions of heapfile.C, one definition per C++ function, with
      explicit passing of the global state ([World]) and of the object
      ([HeapFile], [HeapFileScan]);
    - the definitions in which the properties are stated (page chain,
      dirty-flag rule, scans) and the files of the examples;
    - the properties: stores and pointers, [matchRec], [deleteRecord],
      [scanNext], insertion, dirty flags and pins, complete scans, mark and
      reset. *)

From Stdlib Require Import ZArith List Bool Lia.
From Stdlib Require Import Floats.SpecFloat.
From Stdlib Require Import Strings.Byte.
From stdpp Require Import base option list gmap strings.

Local Open Scope Z_scope.

(** ** Outcomes

    A C++ call either returns, or has no defined behaviour (null or dangling
    page pointer, read past a buffer, page viewed at the wrong type), or, for
    the recursive [scanNext], exceeds the recursion budget of the model. *)

Inductive Outcome (A : Type) : Type :=
  | Done (a : A)
  | Undefined
  | OutOfFuel.
Arguments Done {A} a.
Arguments Undefined {A}.
Arguments OutOfFuel {A}.

#[global] Instance Outcome_ret : MRet Outcome := fun _ a => Done a.
#[global] Instance Outcome_bind : MBind Outcome := fun _ _ k m =>
  match m with
  | Done a => k a
  | Undefined => Undefined
  | OutOfFuel => OutOfFuel
  end.

Definition of_option {A} (o : option A) : Outcome A :=
  match o with Some a => Done a | None => Undefined end.

(** ** Status codes

    Modelled from the spec: the status codes of the error taxonomy (error.h
    is not part of the sources). The last five stand for the errors of the
    buffer pool and of the file device, which heapfile.C passes on
    verbatim. *)

Inductive Status : Set :=
  | OK | FILEEXISTS | BADPAGENO | BADSCANPARM | NORECORDS | ENDOFPAGE
  | FILEEOF | NOSPACE | INVALIDSLOT
  (* buffer pool and file device *)
  | BUFFEREXCEEDED | PAGENOTPINNED | BADFILE | FILENOTOPEN | FILEOPEN.

#[global] Instance Status_eq_dec : EqDecision Status.
Proof. solve_decision. Defined.

(** ** Machine integers: [int] is 32 bits, two's complement *)

Definition INT_MIN : Z := - 2 ^ 31.
Definition INT_MAX : Z := 2 ^ 31 - 1.

(** Result of an [int] operation whose mathematical value is [z]. *)
Definition wrap (z : Z) : Z := (z + 2 ^ 31) mod 2 ^ 32 - 2 ^ 31.

Definition int_add (a b : Z) : Z := wrap (a + b).
Definition int_sub (a b : Z) : Z := wrap (a - b).

(** Conversion of an [int] to [size_t] (64 bits). *)
Definition size_t_of_int (z : Z) : Z := z mod 2 ^ 64.

(** ** Bytes and buffers *)

Definition byte_val (b : byte) : Z := Z.of_N (Byte.to_N b).

(** [p + off] for a pointer [p] to the start of buffer [buf]. *)
Definition ptr_add (buf : list byte) (off : Z) : Outcome (list byte) :=
  if (0 <=? off) && (off <=? Z.of_nat (length buf))
  then Done (drop (Z.to_nat off) buf) else Undefined.

(** The [n] bytes that [memcpy(dst, src, n)] reads from [src]. *)
Definition memcpy_src (src : list byte) (n : Z) : Outcome (list byte) :=
  if (0 <=? n) && (n <=? Z.of_nat (length src))
  then Done (take (Z.to_nat n) src) else Undefined.

(** Little-endian value of a byte sequence. *)
Fixpoint le_value (bs : list byte) : Z :=
  match bs with
  | [] => 0
  | b :: bs' => byte_val b + 256 * le_value bs'
  end.

(** [memcpy(&i, src, n)] into a local [int i]: exactly [sizeof(int)] bytes
    must be copied for [i] to hold a value. *)
Definition memcpy_int (src : list byte) (n : Z) : Outcome Z :=
  if n =? 4 then bs ← memcpy_src src n; Done (wrap (le_value bs))
  else Undefined.

(** ** Single-precision floats (IEEE 754 binary32) *)

Definition float : Set := spec_float.

Definition float_prec : Z := 24.
Definition float_emax : Z := 128.

Definition float_of_int (z : Z) : float :=
  binary_normalize float_prec float_emax z 0 false.

Definition float_sub (x y : float) : float := SFsub float_prec float_emax x y.

Definition float_zero : float := S754_zero false.

(** Decoding of the 32 bits of a [float] object. *)
Definition float_of_bits (w : Z) : float :=
  let s := Z.testbit w 31 in
  let e := Z.land (Z.shiftr w 23) 255 in
  let m := Z.land w (2 ^ 23 - 1) in
  if e =? 255 then (if m =? 0 then S754_infinity s else S754_nan)
  else if e =? 0 then
    match m with
    | Zpos p => S754_finite s p (-149)
    | _ => S754_zero s
    end
  else
    match m + 2 ^ 23 with
    | Zpos p => S754_finite s p (e - 150)
    | _ => S754_zero s
    end.

Definition memcpy_float (src : list byte) (n : Z) : Outcome float :=
  if n =? 4 then bs ← memcpy_src src n; Done (float_of_bits (le_value bs))
  else Undefined.

(** [strncmp(s1, s2, n)]: bytes are compared as [unsigned char], the
    comparison stops at the first difference, at a NUL, or after [n] bytes. *)
Fixpoint strncmp (s1 s2 : list byte) (n : Z) : Outcome Z :=
  if n =? 0 then Done 0 else
  match s1, s2 with
  | c1 :: t1, c2 :: t2 =>
      if byte_val c1 =? byte_val c2
      then (if byte_val c1 =? 0 then Done 0 else strncmp t1 t2 (n - 1))
      else Done (byte_val c1 - byte_val c2)
  | _, _ => Undefined
  end.

(** ** Records and record identifiers

    Modelled from the spec: [RID], [NULLRID] and [Record] are declared in
    page.h, which is not part of the sources. A record identifier is the
    pair [(pageNo, slotNo)]; [NULLRID] is the identifier of no record, with
    [-1], the sentinel of the data model, in both members. *)

Record RID : Set := mkRID { pageNo : Z; slotNo : Z }.

#[global] Instance RID_eq_dec : EqDecision RID.
Proof. solve_decision. Defined.

Definition NULLRID : RID := mkRID (-1) (-1).

(** Modelled from the spec: a record is a byte buffer with a length
    ([rec.data], [rec.length] in heapfile.C); [rec_data] is the buffer that
    [data] points to. *)
Record RecordT : Set := mkRecord { rec_data : list byte; rec_length : Z }.

(** ** The slotted page *)

(** Modelled from the spec: class [Page] (page.h, page.C) is not part of the
    sources. A data page carries its own number, the forward link and a slot
    directory; a slot is either occupied by a record or vacant. *)
Record Page : Set := mkPage {
  pg_curPage : Z;
  pg_nextPage : Z;
  pg_slots : list (option RecordT)
}.

(** Modelled from the spec: [init(pageNo)] sets the page's own number, an
    empty slot array and the next pointer to [-1]. *)
Definition Page_init (pageNo_ : Z) (pg : Page) : Page :=
  mkPage pageNo_ (-1) [].

Definition slot_at (pg : Page) (slot : Z) : option RecordT :=
  if 0 <=? slot then mjoin (pg_slots pg !! Z.to_nat slot) else None.

(** Index of the first occupied slot at position [i] or later. *)
Fixpoint first_live (i : nat) (sl : list (option RecordT)) : option nat :=
  match sl with
  | [] => None
  | Some _ :: sl' => Some i
  | None :: sl' => first_live (S i) sl'
  end.

Definition live_from (from : nat) (pg : Page) : option nat :=
  first_live from (drop from (pg_slots pg)).

(** Modelled from the spec: [getRecord(rid, &rec)] yields the record in slot
    [rid.slotNo], [INVALIDSLOT] when that slot is not occupied. *)
Definition Page_getRecord (rid : RID) (rec : RecordT) (pg : Page)
  : Status * RecordT :=
  match slot_at pg (slotNo rid) with
  | Some r => (OK, r)
  | None => (INVALIDSLOT, rec)
  end.

(** Modelled from the spec: [firstRecord(&rid)] yields the first occupied
    slot, [NORECORDS] on a page without records. *)
Definition Page_firstRecord (firstRid : RID) (pg : Page) : Status * RID :=
  match live_from 0 pg with
  | Some i => (OK, mkRID (pg_curPage pg) (Z.of_nat i))
  | None => (NORECORDS, firstRid)
  end.

(** Modelled from the spec: [nextRecord(rid, &next)] yields the first
    occupied slot after slot [rid.slotNo], [ENDOFPAGE] when there is none.
    After [NULLRID], whose slot is [-1], that is the first occupied slot of
    the page: a scan whose cursor is [NULLRID] stands before the first
    record. *)
Definition Page_nextRecord (curRid nextRid : RID) (pg : Page) : Status * RID :=
  match live_from (Z.to_nat (slotNo curRid + 1)) pg with
  | Some i => (OK, mkRID (pg_curPage pg) (Z.of_nat i))
  | None => (ENDOFPAGE, nextRid)
  end.

(** Modelled from the spec: [getNextPage(&pageNo)] and [setNextPage(pageNo)]
    read and write the forward link. *)
Definition Page_getNextPage (pg : Page) : Status * Z := (OK, pg_nextPage pg).

Definition Page_setNextPage (pageNo_ : Z) (pg : Page) : Status * Page :=
  (OK, mkPage (pg_curPage pg) pageNo_ (pg_slots pg)).

(** Modelled from the spec: [deleteRecord(rid)] vacates the slot,
    [INVALIDSLOT] when it is not occupied. *)
Definition Page_deleteRecord (rid : RID) (pg : Page) : Status * Page :=
  match slot_at pg (slotNo rid) with
  | Some _ =>
      (OK, mkPage (pg_curPage pg) (pg_nextPage pg)
             (<[Z.to_nat (slotNo rid) := None]> (pg_slots pg)))
  | None => (INVALIDSLOT, pg)
  end.

(** Modelled from the spec: the bytes taken on the page by a slot are its
    directory entry (offset and length of the record) and, when occupied,
    the record. *)
Definition SLOTSIZE : Z := 4.

Definition slot_bytes (s : option RecordT) : Z :=
  match s with
  | Some r => SLOTSIZE + rec_length r
  | None => SLOTSIZE
  end.

Definition page_used (pg : Page) : Z :=
  fold_right (fun s acc => slot_bytes s + acc) 0 (pg_slots pg).

Fixpoint first_vacant (i : nat) (sl : list (option RecordT)) : option nat :=
  match sl with
  | [] => None
  | None :: _ => Some i
  | Some _ :: sl' => first_vacant (S i) sl'
  end.

(** Modelled from the spec: [insertRecord(rec, &rid)] stores the record in a
    vacant slot, or in a new slot at the end of the directory, and yields
    [NOSPACE] when the record does not fit. [space] is the number of bytes of
    a page available to slots and records (a constant of page.h). *)
Definition Page_insertRecord (space : Z) (rec : RecordT) (rid : RID) (pg : Page)
  : Status * RID * Page :=
  let stored := mkRecord (take (Z.to_nat (rec_length rec)) (rec_data rec))
                         (rec_length rec) in
  match first_vacant 0 (pg_slots pg) with
  | Some i =>
      if page_used pg + rec_length rec <=? space
      then (OK, mkRID (pg_curPage pg) (Z.of_nat i),
            mkPage (pg_curPage pg) (pg_nextPage pg)
                   (<[i := Some stored]> (pg_slots pg)))
      else (NOSPACE, rid, pg)
  | None =>
      if page_used pg + SLOTSIZE + rec_length rec <=? space
      then (OK, mkRID (pg_curPage pg) (Z.of_nat (length (pg_slots pg))),
            mkPage (pg_curPage pg) (pg_nextPage pg)
                   (pg_slots pg ++ [Some stored]))
      else (NOSPACE, rid, pg)
  end.

(** The occupied slots of a page, in slot order, with their identifiers. *)
Fixpoint live_slots (pno : Z) (i : nat) (sl : list (option RecordT))
  : list (RID * RecordT) :=
  match sl with
  | [] => []
  | Some r :: sl' => (mkRID pno (Z.of_nat i), r) :: live_slots pno (S i) sl'
  | None :: sl' => live_slots pno (S i) sl'
  end.

Definition live_records (pg : Page) : list (RID * RecordT) :=
  live_slots (pg_curPage pg) 0 (pg_slots pg).

(** Occupied slots strictly after slot [slot]. *)
Definition live_after (slot : Z) (pg : Page) : list (RID * RecordT) :=
  let from := Z.to_nat (slot + 1) in
  live_slots (pg_curPage pg) from (drop from (pg_slots pg)).

(** ** The header page *)

(** Modelled from the spec: the payload [FileHdrPage] of the header page
    (heapfile.h is not part of the sources): the file name, then the four
    integers [firstPage], [lastPage], [pageCnt], [recCnt]. *)
Record FileHdrPage : Set := mkHdr {
  fileName : string;
  firstPage : Z;
  lastPage : Z;
  pageCnt : Z;
  recCnt : Z
}.

(** ** Page frames

    A frame holds the bytes of a page; the program views them either as a
    [Page] or, through the cast [(FileHdrPage* )], as a header. A freshly
    allocated page is zero-filled. *)

Inductive PageData : Set :=
  | RawPage
  | HdrPage (h : FileHdrPage)
  | DataPage (p : Page).

Definition zeroPage : Page := mkPage 0 0 [].
Definition zeroHdr : FileHdrPage := mkHdr "" 0 0 0 0.

Definition asPage (d : PageData) : option Page :=
  match d with
  | RawPage => Some zeroPage
  | DataPage p => Some p
  | HdrPage _ => None
  end.

Definition asHdr (d : PageData) : option FileHdrPage :=
  match d with
  | RawPage => Some zeroHdr
  | HdrPage h => Some h
  | DataPage _ => None
  end.

(** ** The file device and the buffer pool

    The file device ([db], class [File]) and the buffer pool ([bufMgr]) are
    not part of the sources; they are modelled from their contracts. A file
    is a set of numbered pages, handed out in increasing order from page
    [1]; an open file is identified by its name. The pool has a fixed number
    of frames, shared with all other clients, and a pin occupies a frame
    until it is released. The pool and the file hold one image of each page:
    a store through a page pointer is seen by every later read of that
    page. *)

(** The calls of the buffer pool that succeeded, and the stores made
    through page pointers, in the order in which they happened. *)
Inductive Event : Set :=
  | EvPin (file : string) (p : Z)                  (* readPage or allocPage *)
  | EvUnpin (file : string) (p : Z) (dirty : bool) (* unPinPage *)
  | EvWrite (file : string) (p : Z).               (* store through a page pointer *)

#[global] Instance Event_eq_dec : EqDecision Event.
Proof. solve_decision. Defined.

(** Modelled from the spec: a file of the file device. *)
Record File : Type := mkFile {
  f_firstPage : Z;               (* first allocated page, [-1] when none *)
  f_nextNo : Z;                  (* number of the next page to allocate *)
  f_pages : gmap Z PageData;
  f_openCnt : nat
}.

(** Modelled from the spec: the global objects [db] and [bufMgr]. *)
Record World : Type := mkWorld {
  db : gmap string File;
  freeFrames : nat;              (* frames of the pool that hold no pin *)
  pins : list (string * Z);      (* one entry per outstanding pin *)
  trace : list Event             (* calls and stores so far, oldest first *)
}.

Definition with_db (d : gmap string File) (w : World) : World :=
  mkWorld d (freeFrames w) (pins w) (trace w).

(** Modelled from the spec: [createFile(name)], [destroyFile(name)],
    [openFile(name, &file)] and [closeFile(file)] of the file device. A file
    that exists cannot be created, a file that does not exist cannot be
    opened, an open file cannot be destroyed. *)
Definition db_createFile (name : string) (w : World) : Status * World :=
  match db w !! name with
  | Some _ => (FILEEXISTS, w)
  | None => (OK, with_db (<[name := mkFile (-1) 1 ∅ 0]> (db w)) w)
  end.

Definition db_destroyFile (name : string) (w : World) : Status * World :=
  match db w !! name with
  | Some f =>
      match f_openCnt f with
      | O => (OK, with_db (delete name (db w)) w)
      | S _ => (FILEOPEN, w)
      end
  | None => (BADFILE, w)
  end.

Definition db_openFile (name : string) (w : World) : Status * World :=
  match db w !! name with
  | Some f =>
      (OK, with_db (<[name := mkFile (f_firstPage f) (f_nextNo f) (f_pages f)
                                     (S (f_openCnt f))]> (db w)) w)
  | None => (BADFILE, w)
  end.

Definition db_closeFile (file : string) (w : World) : Status * World :=
  match db w !! file with
  | Some f =>
      match f_openCnt f with
      | O => (FILENOTOPEN, w)
      | S n =>
          (OK, with_db (<[file := mkFile (f_firstPage f) (f_nextNo f)
                                         (f_pages f) n]> (db w)) w)
      end
  | None => (BADFILE, w)
  end.

(** Modelled from the spec: [getFirstPage(&pageNo)] returns the number of
    the first page allocated in the file. *)
Definition File_getFirstPage (file : string) (w : World) : Status * Z :=
  match db w !! file with
  | Some f => (OK, f_firstPage f)
  | None => (BADFILE, 0)
  end.

Definition pageAt (w : World) (file : string) (p : Z) : option PageData :=
  f ← db w !! file; f_pages f !! p.

(** Modelled from the spec: [allocPage(file, &pageNo, &page)] allocates a
    new page of the file and returns it pinned; it fails when no frame is
    free. The page pointer returned is the frame of page [pageNo]. *)
Definition bufMgr_allocPage (file : string) (w : World) : Status * Z * World :=
  match db w !! file with
  | None => (BADFILE, 0, w)
  | Some f =>
      match freeFrames w with
      | O => (BUFFEREXCEEDED, 0, w)
      | S n =>
          let p := f_nextNo f in
          let f' := mkFile (if f_firstPage f =? -1 then p else f_firstPage f)
                           (p + 1) (<[p := RawPage]> (f_pages f)) (f_openCnt f) in
          (OK, p, mkWorld (<[file := f']> (db w)) n ((file, p) :: pins w)
                          (trace w ++ [EvPin file p]))
      end
  end.

(** Modelled from the spec: [readPage(file, pageNo, &page)] pins page
    [pageNo]; it fails when the file has no such page or no frame is
    free. *)
Definition bufMgr_readPage (file : string) (p : Z) (w : World) : Status * World :=
  match pageAt w file p with
  | None => (BADPAGENO, w)
  | Some _ =>
      match freeFrames w with
      | O => (BUFFEREXCEEDED, w)
      | S n => (OK, mkWorld (db w) n ((file, p) :: pins w)
                            (trace w ++ [EvPin file p]))
      end
  end.

Fixpoint remove_pin (x : string * Z) (l : list (string * Z)) : list (string * Z) :=
  match l with
  | [] => []
  | y :: l' => if decide (x = y) then l' else y :: remove_pin x l'
  end.

(** Modelled from the spec: [unPinPage(file, pageNo, dirty)] releases one
    pin of the page; it fails when the page is not pinned. *)
Definition bufMgr_unPinPage (file : string) (p : Z) (dirty : bool) (w : World)
  : Status * World :=
  if decide ((file, p) ∈ pins w)
  then (OK, mkWorld (db w) (S (freeFrames w)) (remove_pin (file, p) (pins w))
                    (trace w ++ [EvUnpin file p dirty]))
  else (PAGENOTPINNED, w).

(** *** Page pointers

    A [Page*] or [FileHdrPage*] obtained from the pool is the frame of a page
    of the file: [None] is the null pointer, [Some p] the frame of page [p]. *)

Definition deref_page (w : World) (file : string) (ptr : option Z) : Outcome Page :=
  of_option (p ← ptr; d ← pageAt w file p; asPage d).

Definition deref_hdr (w : World) (file : string) (ptr : option Z)
  : Outcome FileHdrPage :=
  of_option (p ← ptr; d ← pageAt w file p; asHdr d).

Definition store (file : string) (p : Z) (d : PageData) (w : World) : World :=
  mkWorld
    (alter (fun f => mkFile (f_firstPage f) (f_nextNo f) (<[p := d]> (f_pages f))
                            (f_openCnt f)) file (db w))
    (freeFrames w) (pins w) (trace w ++ [EvWrite file p]).

Definition store_page (file : string) (ptr : option Z) (pg : Page) (w : World)
  : Outcome World :=
  p ← of_option ptr; Done (store file p (DataPage pg) w).

Definition store_hdr (file : string) (ptr : option Z) (h : FileHdrPage) (w : World)
  : Outcome World :=
  p ← of_option ptr; Done (store file p (HdrPage h) w).

(** Field assignments through [FileHdrPage*]. *)
Definition set_fileName (s : string) (h : FileHdrPage) : FileHdrPage :=
  mkHdr s (firstPage h) (lastPage h) (pageCnt h) (recCnt h).
Definition set_firstPage (v : Z) (h : FileHdrPage) : FileHdrPage :=
  mkHdr (fileName h) v (lastPage h) (pageCnt h) (recCnt h).
Definition set_lastPage (v : Z) (h : FileHdrPage) : FileHdrPage :=
  mkHdr (fileName h) (firstPage h) v (pageCnt h) (recCnt h).
Definition set_pageCnt (v : Z) (h : FileHdrPage) : FileHdrPage :=
  mkHdr (fileName h) (firstPage h) (lastPage h) v (recCnt h).
Definition set_recCnt (v : Z) (h : FileHdrPage) : FileHdrPage :=
  mkHdr (fileName h) (firstPage h) (lastPage h) (pageCnt h) v.

(** [hdr->field = v]: load the header through the pointer, change it, store. *)
Definition update_hdr (file : string) (ptr : option Z)
    (f : FileHdrPage -> FileHdrPage) (w : World) : Outcome World :=
  h ← deref_hdr w file ptr; store_hdr file ptr (f h) w.

(** * heapfile.C *)

(** ** Creation and destruction of heap files *)

Definition createHeapFile (fileName_ : string) (w : World) : Outcome (Status * World) :=
  let file := fileName_ in
  (* try to open the file. This should return an error *)
  let '(status, w) := db_openFile fileName_ w in
  if decide (status ≠ OK) then
    let '(status, w) := db_createFile fileName_ w in
    if decide (status ≠ OK) then Done (status, w) else
    let '(status, w) := db_openFile fileName_ w in
    if decide (status ≠ OK) then Done (status, w) else
    (* allocate header page *)
    let '(status, hdrPageNo, w) := bufMgr_allocPage file w in
    if decide (status ≠ OK) then Done (status, w) else
    let hdrPage := Some hdrPageNo in
    w ← update_hdr file hdrPage (set_fileName fileName_) w;
    (* allocate first data page *)
    let '(status, newPageNo, w) := bufMgr_allocPage file w in
    if decide (status ≠ OK) then Done (status, w) else
    let newPage := Some newPageNo in
    pg ← deref_page w file newPage;
    w ← store_page file newPage (Page_init newPageNo pg) w;
    w ← update_hdr file hdrPage (set_firstPage newPageNo) w;
    w ← update_hdr file hdrPage (set_lastPage newPageNo) w;
    w ← update_hdr file hdrPage (set_pageCnt 1) w;
    w ← update_hdr file hdrPage (set_recCnt 0) w;
    (* unpin pages *)
    let '(status, w) := bufMgr_unPinPage file hdrPageNo true w in
    if decide (status ≠ OK) then Done (status, w) else
    let '(status, w) := bufMgr_unPinPage file newPageNo true w in
    if decide (status ≠ OK) then Done (status, w) else
    let '(status, w) := db_closeFile file w in
    if decide (status ≠ OK) then Done (status, w) else
    Done (OK, w)
  else Done (FILEEXISTS, w).

Definition destroyHeapFile (fileName_ : string) (w : World) : Status * World :=
  db_destroyFile fileName_ w.

(** ** class HeapFile *)

(** The members of the class, as heapfile.C uses them (the class is declared
    in heapfile.h). [filePtr] names the open file; [headerPage] and
    [curPage] are page pointers. *)
Record HeapFile : Set := mkHeapFile {
  filePtr : string;
  headerPage : option Z;
  headerPageNo : Z;
  hdrDirtyFlag : bool;
  curPage : option Z;
  curPageNo : Z;
  curDirtyFlag : bool;
  curRec : RID
}.

Definition set_filePtr (v : string) (o : HeapFile) : HeapFile :=
  mkHeapFile v (headerPage o) (headerPageNo o) (hdrDirtyFlag o)
             (curPage o) (curPageNo o) (curDirtyFlag o) (curRec o).
Definition set_headerPage (v : option Z) (o : HeapFile) : HeapFile :=
  mkHeapFile (filePtr o) v (headerPageNo o) (hdrDirtyFlag o)
             (curPage o) (curPageNo o) (curDirtyFlag o) (curRec o).
Definition set_headerPageNo (v : Z) (o : HeapFile) : HeapFile :=
  mkHeapFile (filePtr o) (headerPage o) v (hdrDirtyFlag o)
             (curPage o) (curPageNo o) (curDirtyFlag o) (curRec o).
Definition set_hdrDirtyFlag (v : bool) (o : HeapFile) : HeapFile :=
  mkHeapFile (filePtr o) (headerPage o) (headerPageNo o) v
             (curPage o) (curPageNo o) (curDirtyFlag o) (curRec o).
Definition set_curPage (v : option Z) (o : HeapFile) : HeapFile :=
  mkHeapFile (filePtr o) (headerPage o) (headerPageNo o) (hdrDirtyFlag o)
             v (curPageNo o) (curDirtyFlag o) (curRec o).
Definition set_curPageNo (v : Z) (o : HeapFile) : HeapFile :=
  mkHeapFile (filePtr o) (headerPage o) (headerPageNo o) (hdrDirtyFlag o)
             (curPage o) v (curDirtyFlag o) (curRec o).
Definition set_curDirtyFlag (v : bool) (o : HeapFile) : HeapFile :=
  mkHeapFile (filePtr o) (headerPage o) (headerPageNo o) (hdrDirtyFlag o)
             (curPage o) (curPageNo o) v (curRec o).
Definition set_curRec (v : RID) (o : HeapFile) : HeapFile :=
  mkHeapFile (filePtr o) (headerPage o) (headerPageNo o) (hdrDirtyFlag o)
             (curPage o) (curPageNo o) (curDirtyFlag o) v.

(** [curPage = ptr; curPageNo = no; curDirtyFlag = d;] *)
Definition set_cur (ptr : option Z) (no : Z) (d : bool) (o : HeapFile) : HeapFile :=
  set_curDirtyFlag d (set_curPageNo no (set_curPage ptr o)).

(** The constructor: [this] is the object before construction; the members
    that the constructor does not assign keep their value. The result
    carries [returnStatus]. *)
Definition HeapFile_ctor (fileName_ : string) (w : World) (this : HeapFile)
  : Outcome (Status * World * HeapFile) :=
  let '(status, w) := db_openFile fileName_ w in
  if decide (status = OK) then
    let this := set_filePtr fileName_ this in
    let '(status, no) := File_getFirstPage (filePtr this) w in
    if decide (status ≠ OK) then Done (status, w, this) else
    let this := set_headerPageNo no this in
    let '(status, w) := bufMgr_readPage (filePtr this) (headerPageNo this) w in
    if decide (status ≠ OK) then Done (status, w, this) else
    let pagePtr := Some (headerPageNo this) in
    let this := set_hdrDirtyFlag false (set_headerPage pagePtr this) in
    hdr ← deref_hdr w (filePtr this) (headerPage this);
    if decide (firstPage hdr ≠ -1) then
      let '(status, w) := bufMgr_readPage (filePtr this) (firstPage hdr) w in
      if decide (status ≠ OK) then
        let '(_, w) := bufMgr_unPinPage (filePtr this) (headerPageNo this) false w in
        Done (status, w, this)
      else
        let this := set_cur (Some (firstPage hdr)) (firstPage hdr) false this in
        Done (OK, w, set_curRec NULLRID this)
    else
      let this := set_cur None (-1) false this in
      Done (OK, w, set_curRec NULLRID this)
  else Done (status, w, this).

(** The destructor. Its first statement prints [headerPage->fileName]. *)
Definition HeapFile_dtor (w : World) (this : HeapFile) : Outcome (World * HeapFile) :=
  _ ← deref_hdr w (filePtr this) (headerPage this);
  (* see if there is a pinned data page. If so, unpin it *)
  let '(w, this) :=
    match curPage this with
    | Some _ =>
        let '(_, w) :=
          bufMgr_unPinPage (filePtr this) (curPageNo this) (curDirtyFlag this) w in
        (w, set_cur None 0 false this)
    | None => (w, this)
    end in
  (* unpin header *)
  let '(_, w) :=
    bufMgr_unPinPage (filePtr this) (headerPageNo this) (hdrDirtyFlag this) w in
  let '(_, w) := db_closeFile (filePtr this) w in
  Done (w, this).

Definition HeapFile_getRecCnt (w : World) (this : HeapFile) : Outcome Z :=
  hdr ← deref_hdr w (filePtr this) (headerPage this); Done (recCnt hdr).

(** [HeapFile::getRecord(rid, rec)] *)
Definition HeapFile_getRecord (rid : RID) (rec : RecordT) (w : World) (this : HeapFile)
  : Outcome (Status * RecordT * World * HeapFile) :=
  (* check if page is valid *)
  if pageNo rid <? 0 then Done (BADPAGENO, rec, w, this) else
  (* read in page if record is not on current page *)
  let reread :=
    if bool_decide (curPage this = None) || bool_decide (pageNo rid ≠ curPageNo this)
    then
      (* unpin current page if it exists *)
      let unpinned :=
        match curPage this with
        | Some _ =>
            let '(status, w) :=
              bufMgr_unPinPage (filePtr this) (curPageNo this) (curDirtyFlag this) w in
            if decide (status ≠ OK) then (status, w, this)
            else (OK, w, set_curPage None this)
        | None => (OK, w, this)
        end in
      let '(status, w, this) := unpinned in
      if decide (status ≠ OK) then (status, w, this) else
      (* read in page *)
      let '(status, w) := bufMgr_readPage (filePtr this) (pageNo rid) w in
      if decide (status ≠ OK) then (status, w, this) else
      (OK, w, set_cur (Some (pageNo rid)) (pageNo rid) false this)
    else (OK, w, this) in
  let '(status, w, this) := reread in
  if decide (status ≠ OK) then Done (status, rec, w, this) else
  (* obtain record *)
  pg ← deref_page w (filePtr this) (curPage this);
  let '(status, rec) := Page_getRecord rid rec pg in
  if decide (status ≠ OK) then Done (status, rec, w, this) else
  Done (OK, rec, w, set_curRec rid this).

(** ** class HeapFileScan *)

(** Modelled from the spec: the types and operators of a filter (enums of
    heapfile.h). *)
Inductive Datatype : Set := STRING | INTEGER | FLOAT.
Inductive Operator : Set := LT | LTE | EQ | GTE | GT | NE.

#[global] Instance Datatype_eq_dec : EqDecision Datatype.
Proof. solve_decision. Defined.
#[global] Instance Operator_eq_dec : EqDecision Operator.
Proof. solve_decision. Defined.

(** The members of the base class, then those of the scan. [s_filter] is the
    buffer that [filter] points to, [None] for the null pointer. *)
Record HeapFileScan : Set := mkScan {
  base : HeapFile;
  s_offset : Z;
  s_length : Z;
  s_type : Datatype;
  s_filter : option (list byte);
  s_op : Operator;
  markedPageNo : Z;
  markedRec : RID
}.

Definition set_base (b : HeapFile) (s : HeapFileScan) : HeapFileScan :=
  mkScan b (s_offset s) (s_length s) (s_type s) (s_filter s) (s_op s)
         (markedPageNo s) (markedRec s).
Definition set_filter (f : option (list byte)) (s : HeapFileScan) : HeapFileScan :=
  mkScan (base s) (s_offset s) (s_length s) (s_type s) f (s_op s)
         (markedPageNo s) (markedRec s).
Definition set_marked (no : Z) (r : RID) (s : HeapFileScan) : HeapFileScan :=
  mkScan (base s) (s_offset s) (s_length s) (s_type s) (s_filter s) (s_op s) no r.

Definition HeapFileScan_ctor (name : string) (w : World) (this : HeapFileScan)
  : Outcome (Status * World * HeapFileScan) :=
  '(status, w, b) ← HeapFile_ctor name w (base this);
  Done (status, w, set_filter None (set_base b this)).

Definition sizeof_int : Z := 4.
Definition sizeof_float : Z := 4.

Definition HeapFileScan_startScan (offset_ length_ : Z) (type_ : Datatype)
    (filter_ : option (list byte)) (op_ : Operator) (this : HeapFileScan)
  : Status * HeapFileScan :=
  match filter_ with
  | None => (OK, set_filter None this)        (* no filtering requested *)
  | Some _ =>
      if ((offset_ <? 0) || (length_ <? 1))
         || (bool_decide (type_ ≠ STRING) && bool_decide (type_ ≠ INTEGER)
             && bool_decide (type_ ≠ FLOAT))
         || ((bool_decide (type_ = INTEGER) && negb (length_ =? sizeof_int))
             || (bool_decide (type_ = FLOAT) && negb (length_ =? sizeof_float)))
         || (bool_decide (op_ ≠ LT) && bool_decide (op_ ≠ LTE)
             && bool_decide (op_ ≠ EQ) && bool_decide (op_ ≠ GTE)
             && bool_decide (op_ ≠ GT) && bool_decide (op_ ≠ NE))
      then (BADSCANPARM, this)
      else (OK, mkScan (base this) offset_ length_ type_ filter_ op_
                       (markedPageNo this) (markedRec this))
  end.

Definition HeapFileScan_endScan (w : World) (this : HeapFileScan)
  : Status * World * HeapFileScan :=
  let b := base this in
  (* generally must unpin last page of the scan *)
  match curPage b with
  | Some _ =>
      let '(status, w) :=
        bufMgr_unPinPage (filePtr b) (curPageNo b) (curDirtyFlag b) w in
      (status, w, set_base (set_cur None 0 false b) this)
  | None => (OK, w, this)
  end.

Definition HeapFileScan_dtor (w : World) (this : HeapFileScan)
  : Outcome (World * HeapFileScan) :=
  let '(_, w, this) := HeapFileScan_endScan w this in
  '(w, b) ← HeapFile_dtor w (base this);
  Done (w, set_base b this).

Definition HeapFileScan_markScan (this : HeapFileScan) : Status * HeapFileScan :=
  (* make a snapshot of the state of the scan *)
  (OK, set_marked (curPageNo (base this)) (curRec (base this)) this).

Definition HeapFileScan_resetScan (w : World) (this : HeapFileScan)
  : Status * World * HeapFileScan :=
  let b := base this in
  if decide (markedPageNo this ≠ curPageNo b) then
    let '(status, w) :=
      match curPage b with
      | Some _ => bufMgr_unPinPage (filePtr b) (curPageNo b) (curDirtyFlag b) w
      | None => (OK, w)
      end in
    if decide (status ≠ OK) then (status, w, this) else
    (* restore curPageNo and curRec values *)
    let b := set_curRec (markedRec this) (set_curPageNo (markedPageNo this) b) in
    (* then read the page *)
    let '(status, w) := bufMgr_readPage (filePtr b) (curPageNo b) w in
    if decide (status ≠ OK) then (status, w, set_base b this) else
    let b := set_curPage (Some (curPageNo b)) b in
    (OK, w, set_base (set_curDirtyFlag false b) this)   (* it will be clean *)
  else (OK, w, set_base (set_curRec (markedRec this) b) this).

(** [HeapFileScan::matchRec(rec)] *)
Definition HeapFileScan_matchRec (rec : RecordT) (this : HeapFileScan) : Outcome bool :=
  match s_filter this with
  | None => Done true                       (* no filtering requested *)
  | Some filter_ =>
      (* see if offset + length is beyond end of record *)
      if rec_length rec <=? int_sub (int_add (s_offset this) (s_length this)) 1
      then Done false else
      diff ←
        match s_type this with
        | INTEGER =>
            src ← ptr_add (rec_data rec) (s_offset this);
            iattr ← memcpy_int src (s_length this);
            ifltr ← memcpy_int filter_ (s_length this);
            Done (float_of_int (int_sub iattr ifltr))
        | FLOAT =>
            src ← ptr_add (rec_data rec) (s_offset this);
            fattr ← memcpy_float src (s_length this);
            ffltr ← memcpy_float filter_ (s_length this);
            Done (float_sub fattr ffltr)
        | STRING =>
            src ← ptr_add (rec_data rec) (s_offset this);
            r ← strncmp src filter_ (size_t_of_int (s_length this));
            Done (float_of_int r)
        end;
      Done
        match s_op this with
        | LT => SFltb diff float_zero
        | LTE => SFleb diff float_zero
        | EQ => SFeqb diff float_zero
        | GTE => SFleb float_zero diff
        | GT => SFltb float_zero diff
        | NE => negb (SFeqb diff float_zero)
        end
  end.

Definition junkRecord : RecordT := mkRecord [] 0.

(** The end of [scanNext], from "return if no filter"; [self] is the
    recursive call [scanNext(outRid)]. *)
Definition scanNext_check
    (self : RID -> World -> HeapFileScan -> Outcome (Status * RID * World * HeapFileScan))
    (outRid : RID) (w : World) (this : HeapFileScan)
  : Outcome (Status * RID * World * HeapFileScan) :=
  let b := base this in
  (* return if no filter *)
  if bool_decide (s_filter this = None) then Done (OK, curRec b, w, this) else
  (* if filter, check if record matches filter *)
  pg ← deref_page w (filePtr b) (curPage b);
  let '(status, rec) := Page_getRecord (curRec b) junkRecord pg in
  if decide (status ≠ OK) then Done (status, outRid, w, this) else
  m ← HeapFileScan_matchRec rec this;
  if (m : bool) then Done (OK, curRec b, w, this)
  else self outRid w this                 (* try next if not matching *).

(** The part of [scanNext] from "try to obtain next record". *)
Definition scanNext_advance
    (self : RID -> World -> HeapFileScan -> Outcome (Status * RID * World * HeapFileScan))
    (outRid : RID) (w : World) (this : HeapFileScan)
  : Outcome (Status * RID * World * HeapFileScan) :=
  let b := base this in
  pg ← deref_page w (filePtr b) (curPage b);
  let '(status, nextRid) := Page_nextRecord (curRec b) NULLRID pg in
  if decide (status = OK) then
    scanNext_check self outRid w (set_base (set_curRec nextRid b) this)
  else if decide (status = ENDOFPAGE) then
    (* need to move to next page *)
    let '(status, nextPageNo) := Page_getNextPage pg in
    if decide (status ≠ OK) then Done (status, outRid, w, this) else
    if decide (nextPageNo = -1) then Done (FILEEOF, outRid, w, this) else
    (* unpin current page *)
    let '(status, w) :=
      bufMgr_unPinPage (filePtr b) (curPageNo b) (curDirtyFlag b) w in
    if decide (status ≠ OK) then Done (status, outRid, w, this) else
    (* read next page *)
    let '(status, w) := bufMgr_readPage (filePtr b) nextPageNo w in
    if decide (status ≠ OK) then Done (status, outRid, w, this) else
    let b := set_cur (Some nextPageNo) nextPageNo false b in
    let this := set_base b this in
    (* get first record on new page *)
    pg ← deref_page w (filePtr b) (curPage b);
    let '(status, tmpRid) := Page_firstRecord NULLRID pg in
    if decide (status ≠ OK) then
      if decide (status = NORECORDS) then self outRid w this
      else Done (status, outRid, w, this)
    else scanNext_check self outRid w (set_base (set_curRec tmpRid b) this)
  else Done (status, outRid, w, this).

(** [HeapFileScan::scanNext(outRid)]; [fuel] bounds the depth of the
    recursion. *)
Fixpoint HeapFileScan_scanNext (fuel : nat) (outRid : RID) (w : World)
    (this : HeapFileScan) : Outcome (Status * RID * World * HeapFileScan) :=
  match fuel with
  | O => OutOfFuel
  | S fuel' =>
      let b := base this in
      (* start from beginning if no curr page *)
      match curPage b with
      | None =>
          hdr ← deref_hdr w (filePtr b) (headerPage b);
          if decide (firstPage hdr = -1) then Done (NORECORDS, outRid, w, this) else
          let '(status, w) := bufMgr_readPage (filePtr b) (firstPage hdr) w in
          if decide (status ≠ OK) then Done (status, outRid, w, this) else
          let b := set_cur (Some (firstPage hdr)) (firstPage hdr) false b in
          let this := set_base b this in
          (* get first record *)
          pg ← deref_page w (filePtr b) (curPage b);
          let '(status, tmpRid) := Page_firstRecord NULLRID pg in
          if decide (status ≠ OK) then
            if decide (status = NORECORDS)
            then HeapFileScan_scanNext fuel' outRid w this
            else Done (status, outRid, w, this)
          else
            scanNext_advance (HeapFileScan_scanNext fuel') outRid w
                             (set_base (set_curRec tmpRid b) this)
      | Some _ =>
          scanNext_advance (HeapFileScan_scanNext fuel') outRid w this
      end
  end.

(** [HeapFileScan::getRecord(rec)] *)
Definition HeapFileScan_getRecord (rec : RecordT) (w : World) (this : HeapFileScan)
  : Outcome (Status * RecordT) :=
  pg ← deref_page w (filePtr (base this)) (curPage (base this));
  Done (Page_getRecord (curRec (base this)) rec pg).

(** [HeapFileScan::deleteRecord()] *)
Definition HeapFileScan_deleteRecord (w : World) (this : HeapFileScan)
  : Outcome (Status * World * HeapFileScan) :=
  let b := base this in
  (* delete the "current" record from the page *)
  pg ← deref_page w (filePtr b) (curPage b);
  let '(status, pg') := Page_deleteRecord (curRec b) pg in
  w ← (if decide (status = OK) then store_page (filePtr b) (curPage b) pg' w
       else Done w);
  let b := set_curDirtyFlag true b in
  (* reduce count of number of records in the file *)
  w ← update_hdr (filePtr b) (headerPage b)
        (fun h => set_recCnt (int_sub (recCnt h) 1) h) w;
  let b := set_hdrDirtyFlag true b in
  Done (status, w, set_base b this).

Definition HeapFileScan_markDirty (this : HeapFileScan) : Status * HeapFileScan :=
  (OK, set_base (set_curDirtyFlag true (base this)) this).

(** ** class InsertFileScan

    The class adds no member to [HeapFile]; its constructor is the
    constructor of the base class. *)

Definition InsertFileScan_ctor (name : string) (w : World) (this : HeapFile)
  : Outcome (Status * World * HeapFile) :=
  HeapFile_ctor name w this.

Definition InsertFileScan_dtor (w : World) (this : HeapFile)
  : Outcome (World * HeapFile) :=
  (* unpin last page of the scan *)
  let '(w, this) :=
    match curPage this with
    | Some _ =>
        let '(_, w) := bufMgr_unPinPage (filePtr this) (curPageNo this) true w in
        (w, set_curPageNo 0 (set_curPage None this))
    | None => (w, this)
    end in
  HeapFile_dtor w this.

(** [InsertFileScan::insertRecord(rec, outRid)]; [space] is the capacity of a
    page (see [Page_insertRecord]). *)
Definition InsertFileScan_insertRecord (space : Z) (rec : RecordT) (outRid : RID)
    (w : World) (this : HeapFile) : Outcome (Status * RID * World * HeapFile) :=
  let file := filePtr this in
  (* If no current page, start with the last page *)
  started ←
    match curPage this with
    | Some _ => Done (OK, w, this)
    | None =>
        hdr ← deref_hdr w file (headerPage this);
        if decide (lastPage hdr = -1) then
          (* File is empty, allocate first page *)
          let '(status, newPageNo, w) := bufMgr_allocPage file w in
          if decide (status ≠ OK) then Done (status, w, this) else
          let newPage := Some newPageNo in
          pg ← deref_page w file newPage;
          w ← store_page file newPage (Page_init newPageNo pg) w;
          w ← update_hdr file (headerPage this) (set_firstPage newPageNo) w;
          w ← update_hdr file (headerPage this) (set_lastPage newPageNo) w;
          w ← update_hdr file (headerPage this) (set_pageCnt 1) w;
          Done (OK, w, set_hdrDirtyFlag true (set_cur newPage newPageNo true this))
        else
          (* Read the last page *)
          let '(status, w) := bufMgr_readPage file (lastPage hdr) w in
          if decide (status ≠ OK) then Done (status, w, this) else
          Done (OK, w, set_cur (Some (lastPage hdr)) (lastPage hdr) false this)
    end;
  let '(status, w, this) := started in
  if decide (status ≠ OK) then Done (status, outRid, w, this) else
  (* Try to insert the record on the current page *)
  pg ← deref_page w file (curPage this);
  let '(status, rid, pg') := Page_insertRecord space rec NULLRID pg in
  if decide (status = OK) then
    (* Record inserted successfully *)
    w ← store_page file (curPage this) pg' w;
    w ← update_hdr file (headerPage this)
          (fun h => set_recCnt (int_add (recCnt h) 1) h) w;
    Done (OK, rid, w, set_curDirtyFlag true (set_hdrDirtyFlag true this))
  else
  if decide (status ≠ NOSPACE) then Done (status, outRid, w, this) else
  (* Current page is full, allocate a new page *)
  let '(status, newPageNo, w) := bufMgr_allocPage file w in
  if decide (status ≠ OK) then Done (status, outRid, w, this) else
  let newPage := Some newPageNo in
  (* Initialize the new page *)
  npg ← deref_page w file newPage;
  w ← store_page file newPage (Page_init newPageNo npg) w;
  (* Link the new page to the last page *)
  pg ← deref_page w file (curPage this);
  let '(status, pg') := Page_setNextPage newPageNo pg in
  w ← store_page file (curPage this) pg' w;
  if decide (status ≠ OK) then
    let '(_, w) := bufMgr_unPinPage file newPageNo false w in
    Done (status, outRid, w, this)
  else
  (* Update header page *)
  w ← update_hdr file (headerPage this) (set_lastPage newPageNo) w;
  w ← update_hdr file (headerPage this)
        (fun h => set_pageCnt (int_add (pageCnt h) 1) h) w;
  let this := set_hdrDirtyFlag true this in
  (* Unpin the old page *)
  let '(unpinstatus, w) :=
    bufMgr_unPinPage file (curPageNo this) (curDirtyFlag this) w in
  if decide (unpinstatus ≠ OK) then Done (unpinstatus, outRid, w, this) else
  (* Make the new page the current page *)
  let this := set_cur newPage newPageNo true this in
  (* Try to insert the record on the new page *)
  pg ← deref_page w file (curPage this);
  let '(status, rid, pg') := Page_insertRecord space rec NULLRID pg in
  if decide (status ≠ OK) then Done (status, outRid, w, this) else
  w ← store_page file (curPage this) pg' w;
  (* Record inserted successfully *)
  w ← update_hdr file (headerPage this)
        (fun h => set_recCnt (int_add (recCnt h) 1) h) w;
  Done (OK, rid, w, set_hdrDirtyFlag true this).

(** * Specification-level definitions *)

(** ** The page chain and the header counters *)

(** [Chain w file p pages]: following the next pointers from page [p]
    visits exactly [pages], every one a data page of the file, and ends at
    the link [-1]. *)
Inductive Chain (w : World) (file : string) : Z -> list Page -> Prop :=
  | Chain_end : Chain w file (-1) []
  | Chain_next (p : Z) (pg : Page) (rest : list Page) :
      p ≠ -1 ->
      deref_page w file (Some p) = Done pg ->
      Chain w file (pg_nextPage pg) rest ->
      Chain w file p (pg :: rest).

(** The same walk as a function; [n] bounds the number of pages visited. *)
Fixpoint walk (n : nat) (w : World) (file : string) (p : Z) : option (list (Z * Page)) :=
  if decide (p = -1) then Some [] else
  match n with
  | O => None
  | S n' =>
      match deref_page w file (Some p) with
      | Done pg => rest ← walk n' w file (pg_nextPage pg); Some ((p, pg) :: rest)
      | _ => None
      end
  end.

(** The records of a chain, in page-chain order. *)
Definition chain_records (pages : list Page) : list (RID * RecordT) :=
  concat (map live_records pages).

Definition file_size (w : World) (file : string) : nat :=
  match db w !! file with
  | Some f => size (f_pages f)
  | None => O
  end.

(** The header describes the chain: [pageCnt] nodes are reachable from
    [firstPage], the last one is [lastPage], and [recCnt] is the number of
    live records on them. A chain without repetition has at most
    [file_size] nodes. *)
Definition header_consistent (w : World) (file : string) (hdr : FileHdrPage) : bool :=
  match walk (S (file_size w file)) w file (firstPage hdr) with
  | Some nodes =>
      bool_decide (pageCnt hdr = Z.of_nat (length nodes))
      && bool_decide (lastPage hdr = default (-1) (last (map fst nodes)))
      && bool_decide (recCnt hdr = Z.of_nat (length (chain_records (map snd nodes))))
  | None => false
  end.

(** ** The dirty-flag rule on a trace

    [written] lists the pages stored to since they were pinned; the flag of
    an unpin must be set when the page is in that list. *)
Fixpoint dirty_rule (written : list (string * Z)) (tr : list Event) : bool :=
  match tr with
  | [] => true
  | EvPin f p :: tr' =>
      dirty_rule (filter (fun x => x ≠ (f, p)) written) tr'
  | EvWrite f p :: tr' => dirty_rule ((f, p) :: written) tr'
  | EvUnpin f p d :: tr' =>
      implb (bool_decide ((f, p) ∈ written)) d && dirty_rule written tr'
  end.

(** ** Scans *)

(** Does the scan's predicate hold of the record? *)
Definition matches (this : HeapFileScan) (rec : RecordT) : bool :=
  match HeapFileScan_matchRec rec this with
  | Done true => true
  | _ => false
  end.

Definition defined {A} (o : Outcome A) : bool :=
  match o with Done _ => true | _ => false end.

(** Repeated [scanNext] until a status other than [OK]: the identifiers
    returned and the final status. [n] bounds the number of calls. *)
Fixpoint scan_all (n fuel : nat) (w : World) (this : HeapFileScan)
  : Outcome (list RID * Status * World * HeapFileScan) :=
  match n with
  | O => OutOfFuel
  | S n' =>
      '(status, rid, w, this) ← HeapFileScan_scanNext fuel NULLRID w this;
      if decide (status = OK) then
        '(rids, final, w, this) ← scan_all n' fuel w this;
        Done (rid :: rids, final, w, this)
      else Done ([], status, w, this)
  end.

(** [k] calls of [scanNext], whatever they return. *)
Fixpoint scan_steps (k fuel : nat) (w : World) (this : HeapFileScan)
  : Outcome (World * HeapFileScan) :=
  match k with
  | O => Done (w, this)
  | S k' =>
      '(_, _, w, this) ← HeapFileScan_scanNext fuel NULLRID w this;
      scan_steps k' fuel w this
  end.

(** The scan is positioned on page [p] of the chain: [p] is pinned as the
    current page, holds [pg], and the chain continues with [rest]. *)
Record Positioned (w : World) (this : HeapFileScan) (p : Z) (pg : Page)
    (rest : list Page) : Prop := mkPositioned {
  pos_curPage : curPage (base this) = Some p;
  pos_curPageNo : curPageNo (base this) = p;
  pos_pinned : (filePtr (base this), p) ∈ pins w;
  pos_page : deref_page w (filePtr (base this)) (Some p) = Done pg;
  pos_chain : Chain w (filePtr (base this)) (pg_nextPage pg) rest
}.

(** The records that the scan has still to visit. *)
Definition remaining (this : HeapFileScan) (pg : Page) (rest : list Page)
  : list (RID * RecordT) :=
  live_after (slotNo (curRec (base this))) pg ++ chain_records rest.

(** ** Objects and worlds of the examples *)

Definition emptyWorld (frames : nat) : World := mkWorld ∅ frames [] [].

(** Object memory before construction. *)
Definition rawHeapFile : HeapFile := mkHeapFile "" None 0 false None 0 false NULLRID.
Definition rawScan : HeapFileScan := mkScan rawHeapFile 0 0 STRING None LT 0 NULLRID.

Definition bytesRecord (n : nat) (b : byte) : RecordT :=
  mkRecord (replicate n b) (Z.of_nat n).

(** The four bytes of an [int], least significant first. *)
Definition int_bytes (z : Z) : list byte :=
  map (fun i => default "000"%byte
                  (Byte.of_N (Z.to_N ((z mod 2 ^ 32) / 2 ^ (8 * i) mod 256))))
      [0; 1; 2; 3].

Definition intRecord (z : Z) : RecordT := mkRecord (int_bytes z) 4.


(** ** Scenarios

    The example files use pages of 64 bytes. *)

(** A heap file with one data page: page 1 is the header, page 2 holds two
    records of 20 bytes and has 16 bytes left. *)
Definition onePageFile : Outcome World :=
  '(_, w) ← createHeapFile "t" (emptyWorld 8);
  '(_, w, a) ← InsertFileScan_ctor "t" w rawHeapFile;
  '(_, _, w, a) ← InsertFileScan_insertRecord 64 (bytesRecord 20 "a") NULLRID w a;
  '(_, _, w, a) ← InsertFileScan_insertRecord 64 (bytesRecord 20 "b") NULLRID w a;
  '(w, _) ← InsertFileScan_dtor w a;
  Done w.

(** A heap file with two data pages: a third record, of 30 bytes, did not fit
    on page 2 and went to the new page 3. *)
Definition twoPageFile : Outcome World :=
  '(_, w) ← createHeapFile "t" (emptyWorld 8);
  '(_, w, a) ← InsertFileScan_ctor "t" w rawHeapFile;
  '(_, _, w, a) ← InsertFileScan_insertRecord 64 (bytesRecord 20 "a") NULLRID w a;
  '(_, _, w, a) ← InsertFileScan_insertRecord 64 (bytesRecord 20 "b") NULLRID w a;
  '(_, _, w, a) ← InsertFileScan_insertRecord 64 (bytesRecord 30 "c") NULLRID w a;
  '(w, _) ← InsertFileScan_dtor w a;
  Done w.

(** The numbers of the pages reachable from [firstPage]. *)
Definition reachable (w : World) (hdr : FileHdrPage) : option (list Z) :=
  map fst <$> walk (S (file_size w "t")) w "t" (firstPage hdr).

Definition reachable_records (w : World) (hdr : FileHdrPage) : option nat :=
  (fun nodes => length (chain_records (map snd nodes)))
    <$> walk (S (file_size w "t")) w "t" (firstPage hdr).

(** A new insert scan on the two-page file inserts a record of [n] bytes. *)
Definition insert_on_two_pages (n : nat)
  : Outcome (World * HeapFile * FileHdrPage * Status * RID * World * FileHdrPage) :=
  w ← twoPageFile;
  '(_, w, scan) ← InsertFileScan_ctor "t" w rawHeapFile;
  hdr ← deref_hdr w "t" (headerPage scan);
  '(status, rid, w', scan') ←
    InsertFileScan_insertRecord 64 (bytesRecord n "d") NULLRID w scan;
  hdr' ← deref_hdr w' "t" (headerPage scan');
  Done (w, scan, hdr, status, rid, w', hdr').

(** A new insert scan on the one-page file inserts a record of 30 bytes,
    which does not fit on page 2. *)
Definition extend_one_page
  : Outcome (World * HeapFile * FileHdrPage * Status * World) :=
  w ← onePageFile;
  '(_, w, scan) ← InsertFileScan_ctor "t" w rawHeapFile;
  hdr ← deref_hdr w "t" (headerPage scan);
  '(status, _, w', _) ←
    InsertFileScan_insertRecord 64 (bytesRecord 30 "c") NULLRID w scan;
  Done (w, scan, hdr, status, w').

(** The first record of [todo] that satisfies the scan's predicate, with
    the records after it. *)
Fixpoint first_match (this : HeapFileScan) (todo : list (RID * RecordT))
  : option (RID * list (RID * RecordT)) :=
  match todo with
  | [] => None
  | (rid, rec) :: todo' =>
      if matches this rec then Some (rid, todo') else first_match this todo'
  end.

(** [matchRec] returns on every record of [todo]. *)
Definition all_defined (this : HeapFileScan) (todo : list (RID * RecordT)) : Prop :=
  Forall (fun rr => defined (HeapFileScan_matchRec rr.2 this) = true) todo.

(** The value of a computation of the examples that is known to return. *)
Definition run {A} (d : A) (o : Outcome A) : A :=
  match o with Done a => a | _ => d end.

(** [this'] is [this] with another cursor on the same file. *)
Definition same_scan (this this' : HeapFileScan) : Prop :=
  exists b', this' = set_base b' this /\ filePtr b' = filePtr (base this).

(** What a call of [scanNext] with [todo] left to visit comes to: it
    returns, positioned on a page of the chain with at most [nrest] pages
    after it; with the first matching record of [todo] and the status [OK],
    or, when no record of [todo] matches, with [FILEEOF]. *)
Definition scanNext_post (this : HeapFileScan) (todo : list (RID * RecordT))
    (nrest : nat) (outRid : RID) (w : World)
    (res : Outcome (Status * RID * World * HeapFileScan)) : Prop :=
  exists status rid w' this' p' pg' rest',
    res = Done (status, rid, w', this')
    /\ Positioned w' this' p' pg' rest'
    /\ db w' = db w
    /\ same_scan this this'
    /\ (length rest' <= nrest)%nat
    /\ match first_match this todo with
       | Some (rid', todo') =>
           status = OK /\ rid = rid' /\ remaining this' pg' rest' = todo'
       | None =>
           status = FILEEOF /\ rid = outRid /\ remaining this' pg' rest' = []
       end.

(** [scanNext] with recursion budget [fuel] meets [scanNext_post] from every
    position whose remaining records and pages are fewer than [fuel]. *)
Definition scanNext_correct (fuel : nat) : Prop :=
  forall (outRid : RID) (w : World) (this : HeapFileScan) (p : Z) (pg : Page)
         (rest : list Page),
    Positioned w this p pg rest ->
    all_defined this (remaining this pg rest) ->
    (length (remaining this pg rest) + length rest < fuel)%nat ->
    scanNext_post this (remaining this pg rest) (length rest) outRid w
      (HeapFileScan_scanNext fuel outRid w this).

(** A heap file of integers: ten records of four bytes on two data pages
    (eight on page 2, two on page 3). *)
Fixpoint insert_all (space : Z) (recs : list RecordT) (w : World) (this : HeapFile)
  : Outcome (World * HeapFile) :=
  match recs with
  | [] => Done (w, this)
  | r :: recs' =>
      '(_, _, w, this) ← InsertFileScan_insertRecord space r NULLRID w this;
      insert_all space recs' w this
  end.

Definition intFile : World :=
  run (emptyWorld 0)
    ('(_, w) ← createHeapFile "t" (emptyWorld 8);
     '(_, w, a) ← InsertFileScan_ctor "t" w rawHeapFile;
     '(w, a) ← insert_all 64 (map intRecord [7; 42; 9; 13; 42; 1; 2; 3; 4; 42]) w a;
     '(w, _) ← InsertFileScan_dtor w a;
     Done w).

(** A newly constructed scan on it, and the scan for the value 42. *)
Definition intScan : World * HeapFileScan :=
  run (emptyWorld 0, rawScan)
    ('(_, w, s) ← HeapFileScan_ctor "t" intFile rawScan; Done (w, s)).

Definition intScan42 : HeapFileScan :=
  (HeapFileScan_startScan 0 4 INTEGER (Some (int_bytes 42)) EQ intScan.2).2.

Definition intHdr : FileHdrPage := run zeroHdr (deref_hdr intScan.1 "t" (Some 1)).

Definition intNodes : list (Z * Page) :=
  default [] (walk 5 intScan.1 "t" (firstPage intHdr)).

Definition intPage (p : Z) : Page := run zeroPage (deref_page intScan.1 "t" (Some p)).

(** The scan for 42 after four calls of [scanNext]: the three matching
    records have been returned and the fourth call met the end of the file. *)
Definition intScanEnd : World * HeapFileScan :=
  run (emptyWorld 0, rawScan) (scan_steps 4 20 intScan.1 intScan42).

(** A heap file without data pages, and a newly constructed scan on it. *)
Definition noDataFile : World :=
  mkWorld {["e" := mkFile 1 2 {[1 := HdrPage (mkHdr "e" (-1) (-1) 0 0)]} 0]} 8 [] [].

Definition noDataScan : World * HeapFileScan :=
  run (emptyWorld 0, rawScan)
    ('(_, w, s) ← HeapFileScan_ctor "e" noDataFile rawScan; Done (w, s)).

(** ** End-to-end scenarios *)

(** Insert the five bytes of "hello", close, reopen, read the record back. *)
Definition scenario_round_trip : Outcome (Status * RecordT * Z) :=
  '(_, w) ← createHeapFile "t2" (emptyWorld 8);
  '(_, w, a) ← InsertFileScan_ctor "t2" w rawHeapFile;
  '(_, rid, w, a) ←
    InsertFileScan_insertRecord 64
      (mkRecord ["h"; "e"; "l"; "l"; "o"]%byte 5) NULLRID w a;
  '(w, _) ← InsertFileScan_dtor w a;
  '(_, w, h) ← HeapFile_ctor "t2" w rawHeapFile;
  '(status, rec, w, h) ← HeapFile_getRecord rid junkRecord w h;
  n ← HeapFile_getRecCnt w h;
  Done (status, rec, n).

(** During a scan of the ten records: advance to the 4th, mark, advance to
    the 8th, reset, and ask for the next record. *)
Definition scenario_mark_reset : Outcome (RID * RID * Status * Status * RID) :=
  '(w, s) ← scan_steps 4 20 intScan.1 intScan.2;
  let r4 := curRec (base s) in
  let '(_, s) := HeapFileScan_markScan s in
  '(w, s) ← scan_steps 4 20 w s;
  let r8 := curRec (base s) in
  let '(reset, w, s) := HeapFileScan_resetScan w s in
  '(status, rid, w, s) ← HeapFileScan_scanNext 20 NULLRID w s;
  Done (r4, r8, reset, status, rid).

(** Insert three records, delete the second through a scan, close, reopen:
    the record count and the records of a full scan. *)
Definition scenario_delete : Outcome (Status * Z * list RID * Status) :=
  '(_, w) ← createHeapFile "d" (emptyWorld 8);
  '(_, w, a) ← InsertFileScan_ctor "d" w rawHeapFile;
  '(w, a) ← insert_all 64 (map intRecord [1; 2; 3]) w a;
  '(w, _) ← InsertFileScan_dtor w a;
  '(_, w, s) ← HeapFileScan_ctor "d" w rawScan;
  '(w, s) ← scan_steps 2 20 w s;
  '(status, w, s) ← HeapFileScan_deleteRecord w s;
  '(w, _) ← HeapFileScan_dtor w s;
  '(_, w, s) ← HeapFileScan_ctor "d" w rawScan;
  n ← HeapFile_getRecCnt w (base s);
  '(rids, final, w, s) ← scan_all 20 20 w s;
  Done (status, n, rids, final).

(** A scan of the ten records that is ended by [endScan] before its first
    [scanNext]: the records that repeated [scanNext] then returns. *)
Definition scenario_restart : Outcome (list RID * Status) :=
  let '(_, w, s) := HeapFileScan_endScan intScan.1 intScan.2 in
  '(rids, final, w, s) ← scan_all 20 20 w s;
  Done (rids, final).

(** [markScan] on an ended scan, one [scanNext], then [resetScan]. *)
Definition scenario_reset_ended : Outcome (Status * option Z * Z) :=
  let '(_, w, s) := HeapFileScan_endScan intScan.1 intScan.2 in
  let '(_, s) := HeapFileScan_markScan s in
  '(w, s) ← scan_steps 1 20 w s;
  let '(status, w, s) := HeapFileScan_resetScan w s in
  Done (status, curPage (base s), curPageNo (base s)).

(** ** Filters and records on which [matchRec] is defined *)

(** The record carries as many bytes as its length says. *)
Definition well_formed_record (r : RecordT) : Prop :=
  rec_length r = Z.of_nat (length (rec_data r)).

(** The filter is one that [startScan] accepts, [offset + length] does not
    overflow, and the filter value has [length] bytes. *)
Definition sound_filter (this : HeapFileScan) : Prop :=
  match s_filter this with
  | None => True
  | Some flt =>
      0 <= s_offset this /\ 1 <= s_length this
      /\ s_offset this + s_length this <= INT_MAX
      /\ s_length this <= Z.of_nat (length flt)
      /\ (s_type this ≠ STRING -> s_length this = 4)
  end.

(** ** Positions of a scan *)


(** * Definitions of the further properties *)

(** The file that [createHeapFile] builds: the header on page 1 and one
    empty data page, page 2; the file is closed. *)
Definition newHeapFile (name : string) : File :=
  mkFile 1 3
    (<[1 := HdrPage (mkHdr name 2 2 1 0)]>
       (<[2 := DataPage (mkPage 2 (-1) [])]> ∅))
    0.

(** The file of integers with a single free frame in the pool, and the
    outcome of opening it: the header page is read, the first data page
    cannot be. *)
Definition crowdedWorld : World := mkWorld (db intFile) 1 [] [].

Definition crowdedOpen : Status * World * HeapFile :=
  run (OK, emptyWorld 0, rawHeapFile) (HeapFile_ctor "t" crowdedWorld rawHeapFile).

(** A handle on the file of integers fetches the record in slot 1 of
    page 3. *)
Definition intGet : Status * RecordT * World * HeapFile :=
  run (OK, junkRecord, emptyWorld 0, rawHeapFile)
    (HeapFile_getRecord (mkRID 3 1) junkRecord intScan.1 (base intScan.2)).

(** The number of data-page frames that a handle holds. *)
Definition held (b : HeapFile) : nat :=
  match curPage b with Some _ => 1%nat | None => O end.

(** The pin that a handle holds on its current page. *)
Definition held_pins (b : HeapFile) : list (string * Z) :=
  match curPage b with Some _ => [(filePtr b, curPageNo b)] | None => [] end.

(** What a call of [scanNext] that started in [(w, this)] has done when it
    returns [res]: no page is changed, the scan is the same scan on the same
    header, it holds as many frames as before and its pin is the pin of its
    current page (unless a page read failed with [BADPAGENO]), and with
    [OK] the identifier returned is the current record, which [getRecord]
    yields and which satisfies the predicate; with another status the
    identifier is the caller's [outRid]. *)
Definition scanNext_effect (outRid : RID) (w : World) (this : HeapFileScan)
    (res : Status * RID * World * HeapFileScan) : Prop :=
  let '(st, rid, w', this') := res in
  db w' = db w
  /\ same_scan this this'
  /\ (headerPage (base this') = headerPage (base this)
      /\ headerPageNo (base this') = headerPageNo (base this)
      /\ hdrDirtyFlag (base this') = hdrDirtyFlag (base this))
  /\ (st ≠ BADPAGENO ->
      (freeFrames w' + held (base this') = freeFrames w + held (base this))%nat)
  /\ (st ≠ BADPAGENO ->
      forall tl, pins w = held_pins (base this) ++ tl ->
                 pins w' = held_pins (base this') ++ tl)
  /\ (st = OK ->
      curRec (base this') = rid
      /\ exists rec,
           HeapFileScan_getRecord junkRecord w' this' = Done (OK, rec)
           /\ HeapFileScan_matchRec rec this' = Done true)
  /\ (st ≠ OK -> rid = outRid).

(** The first call of [scanNext] of the scan for 42 on the file of
    integers. *)
Definition intNext : Status * RID * World * HeapFileScan :=
  run (OK, NULLRID, emptyWorld 0, rawScan)
    (HeapFileScan_scanNext 20 NULLRID intScan.1 intScan42).

(** The copy of a record that a page keeps: [length] bytes of its data. *)
Definition stored (rec : RecordT) : RecordT :=
  mkRecord (take (Z.to_nat (rec_length rec)) (rec_data rec)) (rec_length rec).

(** The number that the file device gives to the next page of the file. *)
Definition file_nextNo (w : World) (file : string) : option Z :=
  f_nextNo <$> db w !! file.

(** A page that can be read as a data page carries its own number, which is
    not negative. *)
Definition page_numbered (p : Z) (d : PageData) : Prop :=
  match asPage d with
  | Some pg => pg_curPage pg = p /\ 0 <= p
  | None => True
  end.

#[global] Instance page_numbered_dec (p : Z) (d : PageData) :
  Decision (page_numbered p d).
Proof. unfold page_numbered. destruct (asPage d); apply _. Defined.

(** The pages of the file are numbered as the file device numbers them:
    from a number that is not negative, below the number of the next page,
    and a data page carries its own number. *)
Definition numbered (w : World) (file : string) : Prop :=
  match db w !! file with
  | Some f =>
      0 <= f_nextNo f
      /\ map_Forall (fun p d => p < f_nextNo f /\ page_numbered p d) (f_pages f)
  | None => True
  end.

#[global] Instance numbered_dec (w : World) (file : string) :
  Decision (numbered w file).
Proof. unfold numbered. destruct (db w !! file); apply _. Defined.

(** An insert scan on the one-page file, and its insertion of an integer,
    which fits on page 2. *)
Definition oneOpen : World * HeapFile :=
  run (emptyWorld 0, rawHeapFile)
    (w ← onePageFile;
     '(_, w, a) ← InsertFileScan_ctor "t" w rawHeapFile;
     Done (w, a)).

Definition oneInsert : Status * RID * World * HeapFile :=
  run (OK, NULLRID, emptyWorld 0, rawHeapFile)
    (InsertFileScan_insertRecord 64 (intRecord 5) NULLRID oneOpen.1 oneOpen.2).

(** Every record that can be read in [w] can be read in [w'], under the same
    identifier and with the same content. *)
Definition records_kept (w w' : World) (file : string) : Prop :=
  forall (x : Z) (pg : Page) (s : Z) (r : RecordT),
    deref_page w file (Some x) = Done pg -> slot_at pg s = Some r ->
    exists pg', deref_page w' file (Some x) = Done pg' /\ slot_at pg' s = Some r.

(** The comparison of [matchRec] on a difference that is an integer. *)
Definition op_holds (op : Operator) (d : Z) : bool :=
  match op with
  | LT => d <? 0
  | LTE => d <=? 0
  | EQ => d =? 0
  | GTE => 0 <=? d
  | GT => 0 <? d
  | NE => negb (d =? 0)
  end.

(** A scan for the records whose first two bytes are below "ab". *)
Definition strScan : HeapFileScan :=
  (HeapFileScan_startScan 0 2 STRING (Some ["a"; "b"]%byte) LT rawScan).2.



(** * Properties *)

(** ** Page pointers and stores *)

Lemma pageAt_store_same (w : World) (file : string) (p : Z) (d : PageData) :
  is_Some (db w !! file) -> pageAt (store file p d w) file p = Some d.
Proof.
  intros [f Hf]. unfold pageAt, store. simpl.
  rewrite lookup_alter_eq, Hf. simpl. apply lookup_insert_eq.
Qed.

Lemma pageAt_store_other (w : World) (file : string) (p q : Z) (d : PageData) :
  p ≠ q -> pageAt (store file p d w) file q = pageAt w file q.
Proof.
  intros Hne. unfold pageAt, store. simpl.
  rewrite lookup_alter_eq. destruct (db w !! file) as [f|]; simpl; [|done].
  by apply lookup_insert_ne.
Qed.

Lemma pageAt_file (w : World) (file : string) (p : Z) (d : PageData) :
  pageAt w file p = Some d -> is_Some (db w !! file).
Proof.
  unfold pageAt. destruct (db w !! file); simpl; [eauto | discriminate].
Qed.

Lemma store_file (w : World) (file : string) (p : Z) (d : PageData) :
  is_Some (db w !! file) -> is_Some (db (store file p d w) !! file).
Proof.
  intros [f Hf]. unfold store. simpl. rewrite lookup_alter_eq, Hf. simpl. eauto.
Qed.

Lemma deref_page_inv (w : World) (file : string) (ptr : option Z) (pg : Page) :
  deref_page w file ptr = Done pg ->
  exists p d, ptr = Some p /\ pageAt w file p = Some d /\ asPage d = Some pg.
Proof.
  unfold deref_page. destruct ptr as [p|]; simpl; [|discriminate].
  destruct (pageAt w file p) as [d|] eqn:Ed; simpl; [|discriminate].
  destruct (asPage d) as [pg'|] eqn:E; simpl; [|discriminate].
  intros [= <-]. exists p, d. auto.
Qed.

Lemma deref_hdr_inv (w : World) (file : string) (ptr : option Z) (h : FileHdrPage) :
  deref_hdr w file ptr = Done h ->
  exists p d, ptr = Some p /\ pageAt w file p = Some d /\ asHdr d = Some h.
Proof.
  unfold deref_hdr. destruct ptr as [p|]; simpl; [|discriminate].
  destruct (pageAt w file p) as [d|] eqn:Ed; simpl; [|discriminate].
  destruct (asHdr d) as [h'|] eqn:E; simpl; [|discriminate].
  intros [= <-]. exists p, d. auto.
Qed.

Lemma deref_hdr_store_same (w : World) (file : string) (p : Z) (h : FileHdrPage) :
  is_Some (db w !! file) ->
  deref_hdr (store file p (HdrPage h) w) file (Some p) = Done h.
Proof.
  intros Hf. unfold deref_hdr. simpl. by rewrite pageAt_store_same.
Qed.

Lemma deref_hdr_store_other (w : World) (file : string) (p q : Z) (d : PageData) :
  p ≠ q -> deref_hdr (store file p d w) file (Some q) = deref_hdr w file (Some q).
Proof.
  intros Hne. unfold deref_hdr. simpl. by rewrite pageAt_store_other.
Qed.

Lemma deref_page_store_other (w : World) (file : string) (p q : Z) (d : PageData) :
  p ≠ q -> deref_page (store file p d w) file (Some q) = deref_page w file (Some q).
Proof.
  intros Hne. unfold deref_page. simpl. by rewrite pageAt_store_other.
Qed.

(** Pages are read through the file only: pins and the trace do not matter. *)
Lemma deref_page_db (w w' : World) (file : string) (ptr : option Z) :
  db w' = db w -> deref_page w' file ptr = deref_page w file ptr.
Proof. intros H. unfold deref_page, pageAt. by rewrite H. Qed.

Lemma deref_hdr_db (w w' : World) (file : string) (ptr : option Z) :
  db w' = db w -> deref_hdr w' file ptr = deref_hdr w file ptr.
Proof. intros H. unfold deref_hdr, pageAt. by rewrite H. Qed.

(** ** Machine integers *)

Lemma wrap_small (z : Z) : INT_MIN <= z <= INT_MAX -> wrap z = z.
Proof.
  unfold wrap, INT_MIN, INT_MAX. intros H.
  rewrite Z.mod_small by lia. lia.
Qed.

(** ** matchRec *)

(** Without overflow of [offset + length - 1], a record shorter than
    [offset + length] does not match, and nothing is read. *)
Lemma matchRec_short_record (rec : RecordT) (this : HeapFileScan) (flt : list byte) :
  s_filter this = Some flt ->
  INT_MIN < s_offset this + s_length this <= INT_MAX ->
  rec_length rec < s_offset this + s_length this ->
  HeapFileScan_matchRec rec this = Done false.
Proof.
  intros Hf Hrange Hshort. unfold HeapFileScan_matchRec. rewrite Hf.
  unfold int_sub, int_add.
  rewrite (wrap_small (s_offset this + s_length this)) by lia.
  rewrite wrap_small by (unfold INT_MIN, INT_MAX in *; lia).
  destruct (Z.leb_spec (rec_length rec) (s_offset this + s_length this - 1));
    [done | lia].
Qed.

Lemma strncmp_defined (s1 s2 : list byte) (n : Z) :
  0 <= n -> n <= Z.of_nat (length s1) -> n <= Z.of_nat (length s2) ->
  defined (strncmp s1 s2 n) = true.
Proof.
  revert s2 n. induction s1 as [|c1 t1 IH]; intros s2 n Hn H1 H2.
  - simpl in H1. assert (n = 0) as -> by lia. reflexivity.
  - simpl. destruct (Z.eqb_spec n 0) as [->|Hn0]; [reflexivity|].
    destruct s2 as [|c2 t2]; [simpl in H2; lia|].
    destruct (byte_val c1 =? byte_val c2); [|reflexivity].
    destruct (byte_val c1 =? 0); [reflexivity|].
    apply IH; simpl in H1, H2; lia.
Qed.

Lemma ptr_add_in_range (buf : list byte) (off : Z) :
  0 <= off <= Z.of_nat (length buf) ->
  ptr_add buf off = Done (drop (Z.to_nat off) buf).
Proof.
  intros H. unfold ptr_add.
  rewrite (proj2 (Z.leb_le 0 off)), (proj2 (Z.leb_le off _)) by lia. reflexivity.
Qed.

Lemma memcpy_src_in_range (src : list byte) (n : Z) :
  0 <= n <= Z.of_nat (length src) ->
  memcpy_src src n = Done (take (Z.to_nat n) src).
Proof.
  intros H. unfold memcpy_src.
  rewrite (proj2 (Z.leb_le 0 n)), (proj2 (Z.leb_le n _)) by lia. reflexivity.
Qed.

(** [matchRec] returns, without reading out of bounds, for every sound
    filter and well-formed record. *)
Lemma matchRec_defined (this : HeapFileScan) (rec : RecordT) :
  sound_filter this -> well_formed_record rec ->
  defined (HeapFileScan_matchRec rec this) = true.
Proof.
  unfold sound_filter, well_formed_record, HeapFileScan_matchRec.
  destruct (s_filter this) as [flt|]; [|reflexivity].
  intros (Hoff & Hlen & Hsum & Hflt & Hty) Hrec.
  unfold int_sub, int_add.
  rewrite (wrap_small (s_offset this + s_length this))
    by (unfold INT_MIN, INT_MAX in *; lia).
  rewrite wrap_small by (unfold INT_MIN, INT_MAX in *; lia).
  destruct (Z.leb_spec (rec_length rec) (s_offset this + s_length this - 1));
    [reflexivity|].
  rewrite ptr_add_in_range by lia. simpl.
  assert (Hsrc : s_length this
                 <= Z.of_nat (length (drop (Z.to_nat (s_offset this)) (rec_data rec)))).
  { rewrite length_drop. lia. }
  destruct (s_type this) eqn:Ety.
  - (* STRING *)
    unfold size_t_of_int. rewrite Z.mod_small by (unfold INT_MAX in *; lia).
    pose proof (strncmp_defined _ flt (s_length this) ltac:(lia) Hsrc Hflt) as Hd.
    destruct (strncmp _ flt (s_length this)); try discriminate. reflexivity.
  - (* INTEGER *)
    rewrite (Hty ltac:(discriminate)) in *. unfold memcpy_int. simpl.
    rewrite !memcpy_src_in_range by lia. reflexivity.
  - (* FLOAT *)
    rewrite (Hty ltac:(discriminate)) in *. unfold memcpy_float. simpl.
    rewrite !memcpy_src_in_range by lia. reflexivity.
Qed.

Lemma sound_filter_all_defined (this : HeapFileScan) (todo : list (RID * RecordT)) :
  sound_filter this ->
  Forall (fun rr => well_formed_record rr.2) todo ->
  all_defined this todo.
Proof.
  intros Hf Hall. unfold all_defined. eapply Forall_impl; [exact Hall|].
  intros [rid rec] Hrec. simpl in *. by apply matchRec_defined.
Qed.

(** A filter accepted by [startScan] is sound when [offset + length] fits an
    [int] and the filter value has [length] bytes. *)
Lemma startScan_sound (offset_ length_ : Z) (type_ : Datatype) (flt : list byte)
    (op_ : Operator) (this this' : HeapFileScan) :
  HeapFileScan_startScan offset_ length_ type_ (Some flt) op_ this = (OK, this') ->
  offset_ + length_ <= INT_MAX ->
  length_ <= Z.of_nat (length flt) ->
  sound_filter this'.
Proof.
  unfold HeapFileScan_startScan, sizeof_int, sizeof_float. intros H Hsum Hflt.
  destruct (offset_ <? 0) eqn:Hoff; [discriminate|].
  destruct (length_ <? 1) eqn:Hlen; [discriminate|].
  apply Z.ltb_ge in Hoff, Hlen.
  destruct type_; simpl in H.
  - destruct op_; simpl in H; injection H as <-;
      (unfold sound_filter; simpl; split_and!; [lia | lia | lia | lia | done]).
  - destruct (Z.eqb_spec length_ 4) as [->|]; simpl in H; [|discriminate].
    destruct op_; simpl in H; injection H as <-;
      (unfold sound_filter; simpl; split_and!; [lia | lia | lia | lia | done]).
  - destruct (Z.eqb_spec length_ 4) as [->|]; simpl in H; [|discriminate].
    destruct op_; simpl in H; injection H as <-;
      (unfold sound_filter; simpl; split_and!; [lia | lia | lia | lia | done]).
Qed.

(** C8: for every record and active filter with
    [offset + length > record.length], [matchRec] returns false and reads
    nothing out of bounds. The bounds check is computed in [int]: for the
    filter [offset = INT_MAX], [length = 2], accepted by [startScan], the sum
    wraps around, the check passes for a record of five bytes, and the
    comparison reads far past the end of the record. *)
Theorem matchRec_bounds_check_wraps :
  let rec := bytesRecord 5 "a" in
  let started := HeapFileScan_startScan INT_MAX 2 STRING (Some ["a"%byte]) EQ rawScan in
  started.1 = OK
  /\ s_offset started.2 + s_length started.2 > rec_length rec
  /\ HeapFileScan_matchRec rec started.2 = Undefined.
Proof. vm_compute. repeat split; reflexivity. Qed.

(** C9: for INTEGER filters [matchRec] compares through
    [diff = attr - filter]. The subtraction is done in [int]: with the
    attribute [INT_MIN] and the filter value [1] the difference wraps to
    [INT_MAX], so [LT] answers false although [attr - filter < 0]. *)
Theorem matchRec_int_difference_wraps :
  let rec := intRecord INT_MIN in
  let flt := int_bytes 1 in
  let scan := (HeapFileScan_startScan 0 4 INTEGER (Some flt) LT rawScan).2 in
  memcpy_int (rec_data rec) 4 = Done INT_MIN
  /\ memcpy_int flt 4 = Done 1
  /\ INT_MIN - 1 < 0
  /\ HeapFileScan_matchRec rec scan = Done false.
Proof. vm_compute. repeat split; reflexivity. Qed.

(** ** deleteRecord *)

Lemma Page_deleteRecord_status (rid : RID) (pg : Page) :
  (Page_deleteRecord rid pg).1 =
  match slot_at pg (slotNo rid) with Some _ => OK | None => INVALIDSLOT end.
Proof. unfold Page_deleteRecord. by destruct (slot_at pg (slotNo rid)). Qed.

Lemma Page_deleteRecord_failed (rid : RID) (pg : Page) :
  (Page_deleteRecord rid pg).1 ≠ OK -> (Page_deleteRecord rid pg).2 = pg.
Proof. unfold Page_deleteRecord. by destruct (slot_at pg (slotNo rid)). Qed.

(** C10: [HeapFileScan::deleteRecord] returns the status of the page's
    [deleteRecord] verbatim and, whatever that status is, decrements
    [headerPage->recCnt] and sets [curDirtyFlag] and [hdrDirtyFlag]; when the
    page reports a failure ([INVALIDSLOT] for a slot that is not occupied)
    the page is left as it was, and the count is decremented all the same. *)
Theorem deleteRecord_decrements_regardless
    (w : World) (this : HeapFileScan) (pg : Page) (hdr : FileHdrPage) :
  curPage (base this) ≠ headerPage (base this) ->
  deref_page w (filePtr (base this)) (curPage (base this)) = Done pg ->
  deref_hdr w (filePtr (base this)) (headerPage (base this)) = Done hdr ->
  exists w' this',
    HeapFileScan_deleteRecord w this
      = Done ((Page_deleteRecord (curRec (base this)) pg).1, w', this')
    /\ curDirtyFlag (base this') = true
    /\ hdrDirtyFlag (base this') = true
    /\ deref_hdr w' (filePtr (base this)) (headerPage (base this))
       = Done (set_recCnt (int_sub (recCnt hdr) 1) hdr)
    /\ (slot_at pg (slotNo (curRec (base this))) = None ->
        (Page_deleteRecord (curRec (base this)) pg).1 = INVALIDSLOT
        /\ deref_page w' (filePtr (base this)) (curPage (base this)) = Done pg).
Proof.
  intros Hne Hpg Hhdr.
  destruct (deref_page_inv _ _ _ _ Hpg) as (p & dp & Hp & Hdp & _).
  destruct (deref_hdr_inv _ _ _ _ Hhdr) as (q & dq & Hq & Hdq & _).
  assert (Hpq : p ≠ q) by congruence.
  pose proof (pageAt_file _ _ _ _ Hdq) as Hfile.
  unfold HeapFileScan_deleteRecord. rewrite Hpg. simpl.
  rewrite (surjective_pairing (Page_deleteRecord (curRec (base this)) pg)).
  rewrite Page_deleteRecord_status.
  destruct (slot_at pg (slotNo (curRec (base this)))) as [r|] eqn:Hslot.
  - (* the page deleted the record *)
    rewrite decide_True by done. rewrite Hp, Hq in *. simpl.
    unfold update_hdr. rewrite deref_hdr_store_other, Hhdr by done. simpl.
    eexists _, _. split; [reflexivity|]. simpl.
    repeat split; try done.
    apply deref_hdr_store_same. by apply store_file.
  - (* the page refused *)
    rewrite decide_False by done. rewrite Hp, Hq in *. simpl.
    unfold update_hdr. rewrite Hhdr. simpl.
    eexists _, _. split; [reflexivity|]. simpl.
    repeat split; try done.
    + by apply deref_hdr_store_same.
    + rewrite deref_page_store_other by done. exact Hpg.
Qed.

(** ** scanNext at the two ends *)

Lemma live_after_nil_nextRecord (rid nextRid : RID) (pg : Page) :
  live_after (slotNo rid) pg = [] ->
  Page_nextRecord rid nextRid pg = (ENDOFPAGE, nextRid).
Proof.
  unfold live_after, Page_nextRecord, live_from.
  generalize (Z.to_nat (slotNo rid + 1)) as k.
  intros k. generalize (drop k (pg_slots pg)) as l. clear.
  intros l. revert k. induction l as [|[r|] l IH]; intros k H; simpl in *.
  - reflexivity.
  - discriminate.
  - apply (IH (S k)) in H.
    destruct (first_live (S k) l); [discriminate | reflexivity].
Qed.

(** C7: [scanNext] on a heap file without data pages ([firstPage == -1], no
    current page) returns [NORECORDS]; [scanNext] on the terminal page (next
    link [-1]) with no occupied slot left after [curRec] returns [FILEEOF]. *)
Theorem scanNext_edges (fuel : nat) (outRid : RID) (w : World) (this : HeapFileScan) :
  (forall hdr,
     curPage (base this) = None ->
     deref_hdr w (filePtr (base this)) (headerPage (base this)) = Done hdr ->
     firstPage hdr = -1 ->
     HeapFileScan_scanNext (S fuel) outRid w this = Done (NORECORDS, outRid, w, this))
  /\ (forall p pg,
     curPage (base this) = Some p ->
     deref_page w (filePtr (base this)) (Some p) = Done pg ->
     live_after (slotNo (curRec (base this))) pg = [] ->
     pg_nextPage pg = -1 ->
     HeapFileScan_scanNext (S fuel) outRid w this = Done (FILEEOF, outRid, w, this)).
Proof.
  split.
  - intros hdr Hcur Hhdr Hfirst. simpl. rewrite Hcur, Hhdr. simpl.
    by rewrite decide_True.
  - intros p pg Hcur Hpg Hlast Hnext. simpl. rewrite Hcur.
    unfold scanNext_advance. rewrite Hcur, Hpg. simpl.
    rewrite (live_after_nil_nextRecord _ _ _ Hlast). simpl.
    by rewrite Hnext.
Qed.

(** ** Insertion on a file of several pages *)

(** C1: [insertRecord] is to insert into the tail page only. A new insert
    scan on the two-page file has page 2, the first page, as its current
    page (the constructor pins [firstPage]) while [lastPage] is 3. A record
    of 8 bytes is then stored on page 2; a record of 30 bytes, which does
    not fit there, makes the scan link page 2 to the new page 4. *)
Theorem insertRecord_uses_first_page :
  ('(w, scan, hdr, status, rid, w', hdr') ← insert_on_two_pages 8;
   Done (curPage scan, firstPage hdr, lastPage hdr, status, rid, lastPage hdr'))
  = Done (Some 2, 2, 3, OK, mkRID 2 2, 3)
  /\
  ('(w, scan, hdr, status, rid, w', hdr') ← insert_on_two_pages 30;
   before ← deref_page w "t" (Some 2);
   after ← deref_page w' "t" (Some 2);
   Done (curPage scan, lastPage hdr, status, rid,
         pg_nextPage before, pg_nextPage after))
  = Done (Some 2, 3, OK, mkRID 4 0, 3, 4).
Proof. split; vm_compute; reflexivity. Qed.

(** C2: after a successful operation the header is to describe the chain.
    On the two-page file the header is consistent; after the successful
    insertion of a record of 30 bytes by a new insert scan, [pageCnt] is 3
    and [recCnt] is 4, but the pages reachable from [firstPage] are 2 and 4
    and hold 3 records: page 3 is no longer in the chain. *)
Theorem insertRecord_breaks_chain :
  ('(w, scan, hdr, status, rid, w', hdr') ← insert_on_two_pages 30;
   Done (header_consistent w "t" hdr, status,
         pageCnt hdr', recCnt hdr', lastPage hdr',
         reachable w' hdr', reachable_records w' hdr',
         header_consistent w' "t" hdr'))
  = Done (true, OK, 3, 4, 4, Some [2; 4], Some 3%nat, false).
Proof. vm_compute. reflexivity. Qed.

(** ** Dirty flags and pins *)

(** C4: the flag passed to [unPinPage] is to cover every store made through
    the page pointer since the pin. A new insert scan on the one-page file
    pins the tail page 2 clean; the insertion of a record that does not fit
    stores the link to the new page 3 in page 2 ([setNextPage]) and then
    unpins page 2 with the flag false. *)
Theorem insertRecord_unpins_linked_page_clean :
  ('(w, scan, hdr, status, w') ← extend_one_page;
   Done (curPage scan, curDirtyFlag scan, lastPage hdr, status,
         dirty_rule [] (trace w),
         drop (length (trace w)) (trace w'),
         dirty_rule [] (trace w')))
  = Done (Some 2, false, 2, OK, true,
          [EvPin "t" 3; EvWrite "t" 3; EvWrite "t" 2; EvWrite "t" 1;
           EvWrite "t" 1; EvUnpin "t" 2 false; EvWrite "t" 3; EvWrite "t" 1],
          false).
Proof. vm_compute. reflexivity. Qed.

(** C5: every pin is to be released on every path. With a single free frame
    in the pool, [createHeapFile] pins the new header page, fails to
    allocate the data page, and returns with the header page still pinned:
    the trace holds the pin and no unpin. *)
Theorem createHeapFile_leaves_header_pinned :
  ('(status, w) ← createHeapFile "t" (emptyWorld 1);
   Done (status, pins w, trace w))
  = Done (BUFFEREXCEEDED, [("t", 1)], [EvPin "t" 1; EvWrite "t" 1]).
Proof. vm_compute. reflexivity. Qed.

(** ** The slot directory *)

Lemma first_live_None (pno : Z) (l : list (option RecordT)) (k : nat) :
  first_live k l = None -> live_slots pno k l = [].
Proof.
  revert k. induction l as [|[r|] l IH]; intros k H; simpl in *;
    [reflexivity | discriminate | by apply IH].
Qed.

Lemma first_live_Some (pno : Z) (l : list (option RecordT)) (k i : nat) :
  first_live k l = Some i ->
  exists r, (k <= i)%nat
    /\ l !! (i - k)%nat = Some (Some r)
    /\ live_slots pno k l
       = (mkRID pno (Z.of_nat i), r) :: live_slots pno (S i) (drop (S (i - k)) l).
Proof.
  revert k. induction l as [|[r|] l IH]; intros k H; simpl in *.
  - discriminate.
  - injection H as <-. exists r. rewrite Nat.sub_diag. simpl.
    rewrite drop_0. auto.
  - destruct (IH _ H) as (r & Hle & Hl & Hs). exists r.
    replace (i - k)%nat with (S (i - S k)) by lia. simpl. split; [lia | auto].
Qed.

Lemma live_slots_all_vacant (pno : Z) (l : list (option RecordT)) (k : nat) :
  live_slots pno k l = [] -> Forall (fun s => s = None) l.
Proof.
  revert k. induction l as [|[r|] l IH]; intros k H; simpl in *;
    [constructor | discriminate | constructor; eauto].
Qed.

Lemma all_vacant_live_slots (pno : Z) (l : list (option RecordT)) (k : nat) :
  Forall (fun s => s = None) l -> live_slots pno k l = [].
Proof.
  intros H. revert k. induction H as [|s l -> _ IH]; intros k; simpl; auto.
Qed.

Lemma live_after_of_nat (i : nat) (pg : Page) :
  live_after (Z.of_nat i) pg
  = live_slots (pg_curPage pg) (S i) (drop (S i) (pg_slots pg)).
Proof.
  unfold live_after. by replace (Z.to_nat (Z.of_nat i + 1)) with (S i) by lia.
Qed.

Lemma live_from_Some (pg : Page) (k i : nat) :
  live_from k pg = Some i ->
  exists r, slot_at pg (Z.of_nat i) = Some r
    /\ live_slots (pg_curPage pg) k (drop k (pg_slots pg))
       = (mkRID (pg_curPage pg) (Z.of_nat i), r) :: live_after (Z.of_nat i) pg.
Proof.
  unfold live_from. intros H.
  destruct (first_live_Some (pg_curPage pg) _ _ _ H) as (r & Hle & Hl & Hs).
  exists r. split.
  - unfold slot_at. rewrite (proj2 (Z.leb_le 0 (Z.of_nat i))) by lia.
    rewrite Nat2Z.id. rewrite lookup_drop in Hl.
    replace (k + (i - k))%nat with i in Hl by lia. by rewrite Hl.
  - rewrite Hs, live_after_of_nat, drop_drop.
    by replace (k + S (i - k))%nat with (S i) by lia.
Qed.

(** What [nextRecord] returns, in terms of the records after the slot. *)
Lemma Page_nextRecord_cases (rid nextRid : RID) (pg : Page) :
  (exists i r,
     Page_nextRecord rid nextRid pg = (OK, mkRID (pg_curPage pg) (Z.of_nat i))
     /\ slot_at pg (Z.of_nat i) = Some r
     /\ live_after (slotNo rid) pg
        = (mkRID (pg_curPage pg) (Z.of_nat i), r) :: live_after (Z.of_nat i) pg)
  \/ (Page_nextRecord rid nextRid pg = (ENDOFPAGE, nextRid)
      /\ live_after (slotNo rid) pg = []).
Proof.
  unfold Page_nextRecord.
  destruct (live_from (Z.to_nat (slotNo rid + 1)) pg) as [i|] eqn:E.
  - left. destruct (live_from_Some _ _ _ E) as (r & Hslot & Hlive). eauto.
  - right. split; [reflexivity|]. by apply first_live_None.
Qed.

(** What [firstRecord] returns; a page without records has none after any
    slot. *)
Lemma Page_firstRecord_cases (firstRid : RID) (pg : Page) :
  (exists i r,
     Page_firstRecord firstRid pg = (OK, mkRID (pg_curPage pg) (Z.of_nat i))
     /\ slot_at pg (Z.of_nat i) = Some r
     /\ live_records pg
        = (mkRID (pg_curPage pg) (Z.of_nat i), r) :: live_after (Z.of_nat i) pg)
  \/ (Page_firstRecord firstRid pg = (NORECORDS, firstRid)
      /\ live_records pg = []
      /\ forall slot, live_after slot pg = []).
Proof.
  unfold Page_firstRecord.
  destruct (live_from 0 pg) as [i|] eqn:E.
  - left. destruct (live_from_Some _ _ _ E) as (r & Hslot & Hlive).
    rewrite drop_0 in Hlive. eauto.
  - right. unfold live_from in E. rewrite drop_0 in E.
    pose proof (first_live_None (pg_curPage pg) _ _ E) as Hnone.
    repeat split; [exact Hnone|]. intros slot. unfold live_after.
    apply all_vacant_live_slots. apply Forall_drop.
    by apply (live_slots_all_vacant (pg_curPage pg) _ 0%nat).
Qed.

Lemma live_after_start (pg : Page) : live_after (-1) pg = live_records pg.
Proof. reflexivity. Qed.

(** ** The buffer pool *)

Lemma unPinPage_pinned (file : string) (p : Z) (dirty : bool) (w : World) :
  (file, p) ∈ pins w ->
  exists w', bufMgr_unPinPage file p dirty w = (OK, w')
    /\ db w' = db w /\ freeFrames w' = S (freeFrames w).
Proof.
  intros Hin. unfold bufMgr_unPinPage. rewrite decide_True by done.
  eexists. split; [reflexivity|]. by simpl.
Qed.

Lemma readPage_free (file : string) (p : Z) (w : World) (d : PageData) (n : nat) :
  pageAt w file p = Some d -> freeFrames w = S n ->
  exists w', bufMgr_readPage file p w = (OK, w')
    /\ db w' = db w /\ (file, p) ∈ pins w'.
Proof.
  intros Hp Hn. unfold bufMgr_readPage. rewrite Hp, Hn.
  eexists. split; [reflexivity|]. simpl. split; [done | by left].
Qed.

(** Moving the pin from one page to another always succeeds. *)
Lemma unpin_then_read (file : string) (p q : Z) (dirty : bool) (w : World)
    (d : PageData) :
  (file, p) ∈ pins w -> pageAt w file q = Some d ->
  exists w1 w2,
    bufMgr_unPinPage file p dirty w = (OK, w1)
    /\ bufMgr_readPage file q w1 = (OK, w2)
    /\ db w2 = db w /\ (file, q) ∈ pins w2.
Proof.
  intros Hin Hq.
  destruct (unPinPage_pinned file p dirty w Hin) as (w1 & H1 & Hdb1 & Hfree).
  assert (Hq1 : pageAt w1 file q = Some d) by (unfold pageAt; by rewrite Hdb1).
  destruct (readPage_free file q w1 d _ Hq1 Hfree) as (w2 & H2 & Hdb2 & Hpin).
  exists w1, w2. repeat split; [done | done | congruence | done].
Qed.

(** ** Chains *)

Lemma Chain_db (w w' : World) (file : string) (p : Z) (pages : list Page) :
  db w' = db w -> Chain w file p pages -> Chain w' file p pages.
Proof.
  intros Hdb H. induction H as [|p pg rest Hp Hpg _ IH].
  - constructor.
  - apply Chain_next; [done | | done]. by rewrite (deref_page_db w w').
Qed.

Lemma Chain_end_inv (w : World) (file : string) (pages : list Page) :
  Chain w file (-1) pages -> pages = [].
Proof. inversion 1; [reflexivity | congruence]. Qed.

Lemma Chain_next_inv (w : World) (file : string) (p : Z) (pages : list Page) :
  p ≠ -1 -> Chain w file p pages ->
  exists pg rest, pages = pg :: rest
    /\ deref_page w file (Some p) = Done pg
    /\ Chain w file (pg_nextPage pg) rest.
Proof. intros Hp H. inversion H; subst; [congruence | eauto]. Qed.

Lemma walk_Chain (n : nat) (w : World) (file : string) (p : Z)
    (nodes : list (Z * Page)) :
  walk n w file p = Some nodes -> Chain w file p (map snd nodes).
Proof.
  revert p nodes. induction n as [|n IH]; intros p nodes; simpl.
  - destruct (decide (p = -1)) as [->|]; [|discriminate].
    intros [= <-]. constructor.
  - destruct (decide (p = -1)) as [->|Hp]; [intros [= <-]; constructor|].
    destruct (deref_page w file (Some p)) as [pg| |] eqn:Hpg; try discriminate.
    destruct (walk n w file (pg_nextPage pg)) as [rest|] eqn:Hrest;
      simpl; [|discriminate].
    intros [= <-]. simpl. apply Chain_next; auto.
Qed.

(** ** The predicate of a scan does not depend on the cursor *)

Lemma matchRec_set_base (b : HeapFile) (this : HeapFileScan) (rec : RecordT) :
  HeapFileScan_matchRec rec (set_base b this) = HeapFileScan_matchRec rec this.
Proof. reflexivity. Qed.

Lemma first_match_set_base (b : HeapFile) (this : HeapFileScan)
    (todo : list (RID * RecordT)) :
  first_match (set_base b this) todo = first_match this todo.
Proof.
  induction todo as [|[rid rec] todo IH]; simpl; [reflexivity|].
  by rewrite IH.
Qed.

Lemma set_base_set_base (b b' : HeapFile) (this : HeapFileScan) :
  set_base b' (set_base b this) = set_base b' this.
Proof. reflexivity. Qed.

Lemma first_match_filter (this : HeapFileScan) (todo : list (RID * RecordT)) :
  (filter (fun rr => matches this rr.2) todo).*1
  = match first_match this todo with
    | Some (rid, todo') =>
        rid :: (filter (fun rr => matches this rr.2) todo').*1
    | None => []
    end.
Proof.
  induction todo as [|[rid rec] todo IH]; simpl; [reflexivity|].
  rewrite filter_cons. simpl.
  destruct (matches this rec) eqn:E; simpl; [reflexivity | exact IH].
Qed.

Lemma first_match_suffix (this : HeapFileScan) (todo todo' : list (RID * RecordT))
    (rid : RID) :
  first_match this todo = Some (rid, todo') ->
  exists skipped rec, todo = skipped ++ (rid, rec) :: todo'.
Proof.
  induction todo as [|[rid0 rec0] todo IH]; simpl; [discriminate|].
  destruct (matches this rec0).
  - intros [= <- <-]. by exists [], rec0.
  - intros H. destruct (IH H) as (sk & rec & ->). by exists ((rid0, rec0) :: sk), rec.
Qed.

(** ** scanNext from a position on the chain *)

Lemma scanNext_on_page (fuel : nat) (outRid : RID) (w : World) (this : HeapFileScan)
    (p : Z) :
  curPage (base this) = Some p ->
  HeapFileScan_scanNext (S fuel) outRid w this
  = scanNext_advance (HeapFileScan_scanNext fuel) outRid w this.
Proof. intros H. simpl. by rewrite H. Qed.

Lemma same_scan_refl (this : HeapFileScan) : same_scan this this.
Proof. exists (base this). by destruct this. Qed.

Lemma same_scan_set_base (this this' : HeapFileScan) (b : HeapFile) :
  filePtr b = filePtr (base this) ->
  same_scan (set_base b this) this' -> same_scan this this'.
Proof.
  intros Hb (b' & -> & Hf). simpl in Hf. exists b'.
  split; [reflexivity | congruence].
Qed.

Lemma all_defined_set_base (b : HeapFile) (this : HeapFileScan)
    (todo : list (RID * RecordT)) :
  all_defined (set_base b this) todo <-> all_defined this todo.
Proof. reflexivity. Qed.

(** A result for a scan moved to another cursor is a result for the scan. *)
Lemma scanNext_post_moved (this : HeapFileScan) (b : HeapFile)
    (todo : list (RID * RecordT)) (n n' : nat) (outRid : RID) (w w1 : World)
    (res : Outcome (Status * RID * World * HeapFileScan)) :
  filePtr b = filePtr (base this) -> db w1 = db w -> (n' <= n)%nat ->
  scanNext_post (set_base b this) todo n' outRid w1 res ->
  scanNext_post this todo n outRid w res.
Proof.
  intros Hb Hdb Hn (st & rid & w' & this' & p' & pg' & rest' & Hres & Hpos & Hdb' & Hsame & Hlen & Hm).
  exists st, rid, w', this', p', pg', rest'.
  rewrite first_match_set_base in Hm.
  split_and!; [done | done | congruence | by eapply same_scan_set_base | lia | done].
Qed.

(** The end of [scanNext] once the cursor is on an occupied slot. *)
Lemma scanNext_check_selected
    (self : RID -> World -> HeapFileScan -> Outcome (Status * RID * World * HeapFileScan))
    (outRid : RID) (w : World) (this : HeapFileScan) (p : Z) (pg : Page)
    (rest : list Page) (r : RecordT) :
  Positioned w this p pg rest ->
  slot_at pg (slotNo (curRec (base this))) = Some r ->
  defined (HeapFileScan_matchRec r this) = true ->
  scanNext_check self outRid w this
  = if matches this r then Done (OK, curRec (base this), w, this)
    else self outRid w this.
Proof.
  intros Hpos Hslot Hdef. unfold scanNext_check, matches.
  destruct (s_filter this) as [flt|] eqn:Hflt.
  - rewrite bool_decide_eq_false_2 by done.
    rewrite (pos_curPage _ _ _ _ _ Hpos), (pos_page _ _ _ _ _ Hpos). simpl.
    unfold Page_getRecord. rewrite Hslot. simpl.
    destruct (HeapFileScan_matchRec r this) as [[|]| |]; try discriminate; reflexivity.
  - rewrite bool_decide_eq_true_2 by done.
    unfold HeapFileScan_matchRec. by rewrite Hflt.
Qed.

Lemma Positioned_set_curRec (w : World) (this : HeapFileScan) (p : Z) (pg : Page)
    (rest : list Page) (rid : RID) :
  Positioned w this p pg rest ->
  Positioned w (set_base (set_curRec rid (base this)) this) p pg rest.
Proof. intros [H1 H2 H3 H4 H5]. by constructor. Qed.

(** The cursor has just been put on an occupied slot: the call returns that
    record when it matches, and goes on with the recursive call when not. *)
Lemma scanNext_selected (fuel : nat) (outRid : RID) (w : World)
    (this : HeapFileScan) (p : Z) (pg : Page) (rest : list Page) (r : RecordT) :
  scanNext_correct fuel ->
  Positioned w this p pg rest ->
  slot_at pg (slotNo (curRec (base this))) = Some r ->
  all_defined this ((curRec (base this), r) :: remaining this pg rest) ->
  (length (remaining this pg rest) + length rest < fuel)%nat ->
  scanNext_post this ((curRec (base this), r) :: remaining this pg rest)
    (length rest) outRid w
    (scanNext_check (HeapFileScan_scanNext fuel) outRid w this).
Proof.
  intros IH Hpos Hslot Hdef Hfuel.
  apply Forall_cons in Hdef as [Hr Hdef]. simpl in Hr.
  rewrite (scanNext_check_selected _ _ _ _ p pg rest r) by done.
  unfold scanNext_post. simpl first_match.
  destruct (matches this r) eqn:Hm.
  - exists OK, (curRec (base this)), w, this, p, pg, rest.
    split_and!; [done | done | done | apply same_scan_refl | lia | done..].
  - exact (IH outRid w this p pg rest Hpos Hdef Hfuel).
Qed.

Lemma scanNext_spec (fuel : nat) : scanNext_correct fuel.
Proof.
  induction fuel as [|fuel IH]; intros outRid w this p pg rest Hpos Hdef Hfuel; [lia|].
  rewrite (scanNext_on_page _ _ _ _ p) by apply Hpos.
  unfold scanNext_advance.
  rewrite (pos_curPage _ _ _ _ _ Hpos), (pos_page _ _ _ _ _ Hpos). simpl.
  unfold remaining in Hdef, Hfuel |- *.
  destruct (Page_nextRecord_cases (curRec (base this)) NULLRID pg)
    as [(i & r & Hnext & Hslot & Hlive) | [Hnext Hlive]]; rewrite Hnext; simpl.
  - (* a record follows on the current page *)
    rewrite Hlive in Hdef, Hfuel |- *. simpl in Hfuel.
    set (rid := mkRID (pg_curPage pg) (Z.of_nat i)) in *.
    apply (scanNext_post_moved this (set_curRec rid (base this)) _
             (length rest) (length rest) outRid w w); [done | done | lia |].
    refine (scanNext_selected fuel outRid w
              (set_base (set_curRec rid (base this)) this) p pg rest r IH
              (Positioned_set_curRec _ _ _ _ _ rid Hpos) Hslot Hdef _).
    unfold remaining. simpl. lia.
  - (* end of page *)
    rewrite Hlive in Hdef, Hfuel |- *. simpl in Hdef, Hfuel |- *.
    pose proof (pos_chain _ _ _ _ _ Hpos) as Hch.
    destruct (decide (pg_nextPage pg = -1)) as [Hend | Hmore].
    + (* the terminal page *)
      rewrite Hend in Hch. apply Chain_end_inv in Hch. subst rest.
      exists FILEEOF, outRid, w, this, p, pg, [].
      split_and!; [done | done | done | apply same_scan_refl | done |].
      simpl. unfold remaining. by rewrite Hlive.
    + (* move to the next page *)
      destruct (Chain_next_inv _ _ _ _ Hmore Hch) as (pg2 & rest2 & -> & Hpg2 & Hch2).
      destruct (deref_page_inv _ _ _ _ Hpg2) as (q & d & [= <-] & Hd & _).
      pose proof (pos_pinned _ _ _ _ _ Hpos) as Hpin.
      rewrite <- (pos_curPageNo _ _ _ _ _ Hpos) in Hpin.
      destruct (unpin_then_read _ _ _ (curDirtyFlag (base this)) _ _ Hpin Hd)
        as (w1 & w2 & Hun & Hrd & Hdb & Hpin2).
      rewrite Hun. simpl. rewrite Hrd. simpl.
      rewrite (deref_page_db w w2) by done. rewrite Hpg2. simpl.
      set (b2 := set_cur (Some (pg_nextPage pg)) (pg_nextPage pg) false (base this)).
      assert (Hpos2 : Positioned w2 (set_base b2 this) (pg_nextPage pg) pg2 rest2).
      { constructor; simpl; [done | done | done | |].
        - by rewrite (deref_page_db w w2).
        - by apply (Chain_db w w2). }
      unfold chain_records in Hdef, Hfuel |- *. simpl in Hdef, Hfuel |- *.
      fold (chain_records rest2) in Hdef, Hfuel |- *.
      destruct (Page_firstRecord_cases NULLRID pg2)
        as [(i & r & Hfirst & Hslot & Hlive2) | (Hfirst & Hlive2 & Hnone)];
        rewrite Hfirst; simpl.
      * (* the first record of the new page *)
        rewrite Hlive2 in Hdef, Hfuel |- *. simpl in Hfuel.
        set (rid := mkRID (pg_curPage pg2) (Z.of_nat i)) in *.
        apply (scanNext_post_moved this (set_curRec rid b2) _
                 (length (pg2 :: rest2)) (length rest2) outRid w w2);
          [done | done | simpl; lia |].
        refine (scanNext_selected fuel outRid w2
                  (set_base (set_curRec rid b2) this) (pg_nextPage pg) pg2 rest2 r IH
                  (Positioned_set_curRec _ _ _ _ _ rid Hpos2) Hslot Hdef _).
        unfold remaining. simpl. rewrite length_app in *. simpl in Hfuel. lia.
      * (* the new page holds no record *)
        rewrite Hlive2 in Hdef, Hfuel |- *. simpl in Hdef, Hfuel |- *.
        apply (scanNext_post_moved this b2 _
                 (length (pg2 :: rest2)) (length rest2) outRid w w2);
          [done | done | simpl; lia |].
        assert (Hrem : remaining (set_base b2 this) pg2 rest2 = chain_records rest2).
        { unfold remaining. by rewrite Hnone. }
        rewrite <- Hrem.
        apply (IH outRid w2 (set_base b2 this) (pg_nextPage pg) pg2 rest2 Hpos2).
        -- by rewrite Hrem.
        -- rewrite Hrem. lia.
Qed.

(** ** Complete scans *)

Lemma all_defined_suffix (this : HeapFileScan) (skipped todo : list (RID * RecordT))
    (x : RID * RecordT) :
  all_defined this (skipped ++ x :: todo) -> all_defined this todo.
Proof.
  unfold all_defined. rewrite Forall_app, Forall_cons. tauto.
Qed.

Lemma same_scan_matches (this this' : HeapFileScan) (todo : list (RID * RecordT)) :
  same_scan this this' ->
  (filter (fun rr => matches this' rr.2) todo).*1
  = (filter (fun rr => matches this rr.2) todo).*1.
Proof. intros (b' & -> & _). reflexivity. Qed.

Lemma same_scan_all_defined (this this' : HeapFileScan) (todo : list (RID * RecordT)) :
  same_scan this this' -> all_defined this todo -> all_defined this' todo.
Proof. intros (b' & -> & _) H. exact H. Qed.

(** From a position on the chain, the scan returns the matching records
    among those left to visit, in order, and ends with [FILEEOF]. *)
Lemma scan_all_positioned (n : nat) :
  forall (fuel : nat) (w : World) (this : HeapFileScan) (p : Z) (pg : Page)
         (rest : list Page),
  Positioned w this p pg rest ->
  all_defined this (remaining this pg rest) ->
  (length (remaining this pg rest) + length rest < fuel)%nat ->
  (length (remaining this pg rest) < n)%nat ->
  exists w' this',
    scan_all n fuel w this
    = Done ((filter (fun rr => matches this rr.2) (remaining this pg rest)).*1,
            FILEEOF, w', this').
Proof.
  induction n as [|n IH]; intros fuel w this p pg rest Hpos Hdef Hfuel Hn; [lia|].
  destruct (scanNext_spec fuel NULLRID w this p pg rest Hpos Hdef Hfuel)
    as (st & rid & w' & this' & p' & pg' & rest' & Hres & Hpos' & Hdb & Hsame & Hlen & Hm).
  simpl. rewrite Hres. simpl. rewrite first_match_filter.
  destruct (first_match this (remaining this pg rest)) as [[rid' todo']|] eqn:Hfm.
  - destruct Hm as (-> & -> & Hrem). rewrite decide_True by done.
    destruct (first_match_suffix _ _ _ _ Hfm) as (sk & rec & Htodo).
    rewrite Htodo in Hdef, Hfuel, Hn.
    rewrite length_app in Hfuel, Hn. simpl in Hfuel, Hn.
    destruct (IH fuel w' this' p' pg' rest' Hpos') as (w'' & this'' & Hall).
    + rewrite Hrem. eapply same_scan_all_defined; [done|].
      by eapply all_defined_suffix.
    + rewrite Hrem. lia.
    + rewrite Hrem. lia.
    + rewrite Hall. simpl. rewrite Hrem.
      rewrite (same_scan_matches this this') by done. eauto.
  - destruct Hm as (-> & -> & _). rewrite decide_False by done. eauto.
Qed.

(** ** Construction *)

Lemma readPage_OK_inv (file : string) (p : Z) (w w' : World) :
  bufMgr_readPage file p w = (OK, w') -> db w' = db w /\ (file, p) ∈ pins w'.
Proof.
  unfold bufMgr_readPage. destruct (pageAt w file p); [|discriminate].
  destruct (freeFrames w); [discriminate|].
  intros [= <-]. simpl. split; [done | by left].
Qed.

Lemma openFile_OK_inv (name : string) (w w' : World) :
  db_openFile name w = (OK, w') -> pins w' = pins w.
Proof.
  unfold db_openFile. destruct (db w !! name); [|discriminate].
  by intros [= <-].
Qed.

(** A constructed handle: the header is pinned and readable, and the first
    data page, when there is one, is pinned as the current page. *)
Lemma HeapFile_ctor_OK (name : string) (w : World) (this : HeapFile)
    (w1 : World) (b : HeapFile) :
  HeapFile_ctor name w this = Done (OK, w1, b) ->
  filePtr b = name /\ curRec b = NULLRID
  /\ exists hdr,
       deref_hdr w1 name (headerPage b) = Done hdr
       /\ ((firstPage hdr = -1 /\ curPage b = None)
           \/ (firstPage hdr ≠ -1 /\ curPage b = Some (firstPage hdr)
               /\ curPageNo b = firstPage hdr
               /\ (name, firstPage hdr) ∈ pins w1)).
Proof.
  unfold HeapFile_ctor.
  destruct (db_openFile name w) as [st wa] eqn:E1.
  destruct (decide (st = OK)) as [->|]; [|intros [= -> ]; done].
  simpl. destruct (File_getFirstPage name wa) as [st2 no] eqn:E2.
  destruct (decide (st2 ≠ OK)) as [|Hst2]; [intros [= -> ]; done|].
  simpl. destruct (bufMgr_readPage name no wa) as [st3 wb] eqn:E3.
  destruct (decide (st3 ≠ OK)) as [|Hst3]; [intros [= -> ]; done|].
  simpl.
  destruct (deref_hdr wb name (Some no)) as [hdr| |] eqn:Hhdr; simpl; try discriminate.
  destruct (decide (firstPage hdr ≠ -1)) as [Hfp|Hfp].
  - destruct (bufMgr_readPage name (firstPage hdr) wb) as [st4 wc] eqn:E4.
    destruct (decide (st4 ≠ OK)) as [|Hst4].
    + destruct (bufMgr_unPinPage name no false wc). intros [= -> ]; done.
    + intros [= <- <-]. simpl.
      assert (st4 = OK) as -> by (by destruct (decide (st4 = OK))).
      apply readPage_OK_inv in E4 as [Hdb Hpin].
      split_and!; [done | done |]. exists hdr. split.
      * by rewrite (deref_hdr_db wb wc).
      * right. done.
  - intros [= <- <-]. simpl. split_and!; [done | done |].
    exists hdr. split; [done|]. left. split; [|done].
    by destruct (decide (firstPage hdr = -1)).
Qed.

Lemma startScan_base (offset_ length_ : Z) (type_ : Datatype)
    (filter_ : option (list byte)) (op_ : Operator) (this : HeapFileScan) :
  base (HeapFileScan_startScan offset_ length_ type_ filter_ op_ this).2 = base this.
Proof.
  unfold HeapFileScan_startScan. destruct filter_; [|reflexivity].
  match goal with |- context [if ?c then _ else _] => destruct c end; reflexivity.
Qed.

Lemma HeapFileScan_ctor_base (name : string) (w : World) (this : HeapFileScan)
    (st : Status) (w1 : World) (s1 : HeapFileScan) :
  HeapFileScan_ctor name w this = Done (st, w1, s1) ->
  HeapFile_ctor name w (base this) = Done (st, w1, base s1).
Proof.
  unfold HeapFileScan_ctor.
  destruct (HeapFile_ctor name w (base this)) as [[[st' w'] b]| |]; simpl;
    try discriminate.
  by intros [= <- <- <-].
Qed.

(** C3: a scan started on a newly opened [HeapFileScan] after [startScan]
    returns, by repeated [scanNext], exactly the live records of the chain
    that satisfy [matchRec], each once and in page-chain order (the first
    record of the first page included), and then [FILEEOF] ([NORECORDS] on a
    file without data pages). *)
Theorem filtered_scan_enumerates_matches
    (name : string) (w0 : World) (mem : HeapFileScan)
    (w1 : World) (s1 : HeapFileScan)
    (offset_ length_ : Z) (type_ : Datatype) (filter_ : option (list byte))
    (op_ : Operator) (s2 : HeapFileScan)
    (hdr : FileHdrPage) (pages : list Page) (n fuel : nat) :
  HeapFileScan_ctor name w0 mem = Done (OK, w1, s1) ->
  HeapFileScan_startScan offset_ length_ type_ filter_ op_ s1 = (OK, s2) ->
  deref_hdr w1 name (headerPage (base s1)) = Done hdr ->
  Chain w1 name (firstPage hdr) pages ->
  all_defined s2 (chain_records pages) ->
  (length (chain_records pages) + length pages < n)%nat ->
  (length (chain_records pages) + length pages < fuel)%nat ->
  exists w' s',
    scan_all n fuel w1 s2
    = Done ((filter (fun rr => matches s2 rr.2) (chain_records pages)).*1,
            (if decide (firstPage hdr = -1) then NORECORDS else FILEEOF),
            w', s').
Proof.
  intros Hctor Hstart Hhdr Hchain Hdef Hn Hfuel.
  apply HeapFileScan_ctor_base in Hctor.
  destruct (HeapFile_ctor_OK _ _ _ _ _ Hctor) as (Hfile & Hrec & hdr' & Hhdr' & Hcur).
  rewrite Hhdr in Hhdr'. injection Hhdr' as <-.
  assert (Hbase : base s2 = base s1).
  { rewrite <- (startScan_base offset_ length_ type_ filter_ op_ s1).
    by rewrite Hstart. }
  destruct Hcur as [[Hfirst Hnone] | (Hfirst & Hcur & Hno & Hpin)].
  - (* no data page *)
    rewrite Hfirst in Hchain. apply Chain_end_inv in Hchain. subst pages.
    destruct n as [|n]; [simpl in Hn; lia|].
    destruct fuel as [|fuel]; [simpl in Hfuel; lia|].
    simpl. rewrite Hbase, Hnone, Hfile, Hhdr. simpl.
    rewrite !decide_True by done. simpl. eauto.
  - (* the first page is the current page *)
    destruct (Chain_next_inv _ _ _ _ Hfirst Hchain) as (pg & rest & -> & Hpg & Hrest).
    assert (Hpos : Positioned w1 s2 (firstPage hdr) pg rest).
    { constructor; rewrite Hbase, ?Hfile; done. }
    assert (Hrem : remaining s2 pg rest = chain_records (pg :: rest)).
    { unfold remaining. by rewrite Hbase, Hrec. }
    rewrite decide_False by done. rewrite <- Hrem.
    apply (scan_all_positioned n fuel w1 s2 (firstPage hdr) pg rest Hpos).
    + by rewrite Hrem.
    + rewrite Hrem. simpl in Hfuel. lia.
    + rewrite Hrem. lia.
Qed.

(** ** Mark and reset *)


Lemma same_scan_filePtr (s1 s2 : HeapFileScan) :
  same_scan s1 s2 -> filePtr (base s2) = filePtr (base s1).
Proof. by intros (b2 & -> & H2). Qed.


Lemma first_match_defined (this : HeapFileScan) (todo todo' : list (RID * RecordT))
    (rid : RID) :
  first_match this todo = Some (rid, todo') ->
  all_defined this todo ->
  all_defined this todo' /\ (length todo' < length todo)%nat.
Proof.
  intros Hfm Hdef. destruct (first_match_suffix _ _ _ _ Hfm) as (sk & rec & ->).
  split; [by eapply all_defined_suffix|]. rewrite length_app. simpl. lia.
Qed.




(** In a file without data pages [scanNext] changes nothing. *)
Lemma scanNext_no_page (fuel : nat) (outRid : RID) (w : World) (this : HeapFileScan)
    (hdr : FileHdrPage) :
  curPage (base this) = None ->
  deref_hdr w (filePtr (base this)) (headerPage (base this)) = Done hdr ->
  firstPage hdr = -1 ->
  HeapFileScan_scanNext (S fuel) outRid w this = Done (NORECORDS, outRid, w, this).
Proof.
  intros Hcur Hhdr Hfirst. simpl. rewrite Hcur, Hhdr. simpl.
  by rewrite decide_True.
Qed.

Lemma scan_steps_no_page (k fuel : nat) (w : World) (this : HeapFileScan)
    (hdr : FileHdrPage) :
  curPage (base this) = None ->
  deref_hdr w (filePtr (base this)) (headerPage (base this)) = Done hdr ->
  firstPage hdr = -1 ->
  scan_steps k (S fuel) w this = Done (w, this).
Proof.
  intros Hcur Hhdr Hfirst. induction k as [|k IH]; [reflexivity|].
  cbn [scan_steps]. rewrite (scanNext_no_page _ _ _ _ hdr) by done. exact IH.
Qed.


(** ** The theorems at concrete inputs *)


Lemma intScan42_defined :
  all_defined intScan42 (chain_records [intPage 2; intPage 3]).
Proof. apply (bool_decide_unpack _). vm_compute. exact I. Defined.

Lemma filtered_scan_witness :
  exists w' s',
    scan_all 20 20 intScan.1 intScan42
    = Done ([mkRID 2 1; mkRID 2 4; mkRID 3 1], FILEEOF, w', s').
Proof.
  destruct (filtered_scan_enumerates_matches "t" intFile rawScan
              intScan.1 intScan.2 0 4 INTEGER (Some (int_bytes 42)) EQ intScan42
              intHdr [intPage 2; intPage 3] 20 20) as (w' & s' & H).
  - vm_compute. reflexivity.
  - vm_compute. reflexivity.
  - vm_compute. reflexivity.
  - apply (walk_Chain 3 _ _ _ [(2, intPage 2); (3, intPage 3)]).
    vm_compute. reflexivity.
  - exact intScan42_defined.
  - vm_compute. lia.
  - vm_compute. lia.
  - exists w', s'. rewrite H. reflexivity.
Defined.


Lemma scanNext_edges_witness :
  HeapFileScan_scanNext 1 NULLRID noDataScan.1 noDataScan.2
  = Done (NORECORDS, NULLRID, noDataScan.1, noDataScan.2)
  /\ HeapFileScan_scanNext 1 NULLRID intScanEnd.1 intScanEnd.2
     = Done (FILEEOF, NULLRID, intScanEnd.1, intScanEnd.2).
Proof.
  split.
  - apply (proj1 (scanNext_edges 0 NULLRID noDataScan.1 noDataScan.2)
             (mkHdr "e" (-1) (-1) 0 0)); vm_compute; reflexivity.
  - apply (proj2 (scanNext_edges 0 NULLRID intScanEnd.1 intScanEnd.2)
             3 (intPage 3)); vm_compute; reflexivity.
Defined.

Lemma deleteRecord_decrements_regardless_witness :
  exists w' this',
    HeapFileScan_deleteRecord intScan.1 intScan42 = Done (INVALIDSLOT, w', this')
    /\ curDirtyFlag (base this') = true
    /\ hdrDirtyFlag (base this') = true
    /\ deref_hdr w' "t" (Some 1) = Done (set_recCnt 9 intHdr)
    /\ deref_page w' "t" (Some 2) = Done (intPage 2).
Proof.
  destruct (deleteRecord_decrements_regardless intScan.1 intScan42 (intPage 2) intHdr)
    as (w' & this' & Hdel & Hcur & Hhdr & Hcnt & Hfail).
  - vm_compute. congruence.
  - vm_compute. reflexivity.
  - vm_compute. reflexivity.
  - exists w', this'. destruct Hfail as [Hst Hpg]; [reflexivity|].
    rewrite Hst in Hdel. split_and!; [exact Hdel | exact Hcur | exact Hhdr | exact Hcnt | exact Hpg].
Defined.

(** ** End-to-end scenarios *)

Example round_trip : 
  scenario_round_trip = Done (OK, mkRecord ["h"; "e"; "l"; "l"; "o"]%byte 5, 1).
Proof. vm_compute. reflexivity. Qed.

(** After the reset the scan returns the fifth record. *)
Example mark_reset_fifth :
  scenario_mark_reset = Done (mkRID 2 3, mkRID 2 7, OK, OK, mkRID 2 4).
Proof. vm_compute. reflexivity. Qed.

Example delete_bookkeeping :
  scenario_delete = Done (OK, 2, [mkRID 2 0; mkRID 2 2], FILEEOF).
Proof. vm_compute. reflexivity. Qed.

(** ** A scan without a current page

    [endScan] leaves the scan without a current page and with [curPageNo]
    equal to [0]. A scan that goes on from there is not at a position of the
    chain: [scanNext] pins the first page again and steps over its first
    record, and [resetScan] to a mark taken there asks for page [0]. *)

Remark scanNext_after_endScan_skips_first :
  scenario_restart
  = Done ([mkRID 2 1; mkRID 2 2; mkRID 2 3; mkRID 2 4; mkRID 2 5; mkRID 2 6;
           mkRID 2 7; mkRID 3 0; mkRID 3 1], FILEEOF).
Proof. vm_compute. reflexivity. Qed.

Remark resetScan_after_endScan_fails :
  scenario_reset_ended = Done (BADPAGENO, Some 2, 0).
Proof. vm_compute. reflexivity. Qed.


(** * Further properties *)

(** ** The file device and the pool, step by step *)

Lemma db_openFile_None (name : string) (w : World) :
  db w !! name = None -> db_openFile name w = (BADFILE, w).
Proof. intros H. unfold db_openFile. by rewrite H. Qed.

Lemma db_openFile_Some (name : string) (w : World) (f : File) :
  db w !! name = Some f ->
  db_openFile name w
  = (OK, with_db (<[name := mkFile (f_firstPage f) (f_nextNo f) (f_pages f)
                                   (S (f_openCnt f))]> (db w)) w).
Proof. intros H. unfold db_openFile. by rewrite H. Qed.

Lemma db_closeFile_open (name : string) (w : World) (f : File) (n : nat) :
  db w !! name = Some f -> f_openCnt f = S n ->
  db_closeFile name w
  = (OK, with_db (<[name := mkFile (f_firstPage f) (f_nextNo f) (f_pages f) n]>
                    (db w)) w).
Proof. intros H Hn. unfold db_closeFile. by rewrite H, Hn. Qed.

Lemma bufMgr_allocPage_free (file : string) (w : World) (f : File) (n : nat) :
  db w !! file = Some f -> freeFrames w = S n ->
  bufMgr_allocPage file w
  = (OK, f_nextNo f,
     mkWorld (<[file := mkFile (if f_firstPage f =? -1 then f_nextNo f
                                else f_firstPage f)
                               (f_nextNo f + 1)
                               (<[f_nextNo f := RawPage]> (f_pages f))
                               (f_openCnt f)]> (db w))
             n ((file, f_nextNo f) :: pins w)
             (trace w ++ [EvPin file (f_nextNo f)])).
Proof. intros H Hn. unfold bufMgr_allocPage. by rewrite H, Hn. Qed.

Lemma store_Some (file : string) (p : Z) (d : PageData) (w : World) (f : File) :
  db w !! file = Some f ->
  store file p d w
  = mkWorld (<[file := mkFile (f_firstPage f) (f_nextNo f)
                              (<[p := d]> (f_pages f)) (f_openCnt f)]> (db w))
            (freeFrames w) (pins w) (trace w ++ [EvWrite file p]).
Proof.
  intros H. unfold store. f_equal. apply map_eq. intros j.
  rewrite lookup_alter, lookup_insert. case_decide; [subst; by rewrite H | done].
Qed.

Lemma deref_hdr_Some (w : World) (file : string) (p : Z) (f : File) (d : PageData) :
  db w !! file = Some f -> f_pages f !! p = Some d ->
  deref_hdr w file (Some p) = of_option (asHdr d).
Proof. intros Hf Hp. unfold deref_hdr, pageAt. simpl. rewrite Hf. simpl. by rewrite Hp. Qed.

Lemma deref_page_Some (w : World) (file : string) (p : Z) (f : File) (d : PageData) :
  db w !! file = Some f -> f_pages f !! p = Some d ->
  deref_page w file (Some p) = of_option (asPage d).
Proof. intros Hf Hp. unfold deref_page, pageAt. simpl. rewrite Hf. simpl. by rewrite Hp. Qed.

(** [hdr->field = v] on a header page that is there. *)
Lemma update_hdr_Some (file : string) (p : Z) (g : FileHdrPage -> FileHdrPage)
    (w : World) (f : File) (d : PageData) (h : FileHdrPage) :
  db w !! file = Some f -> f_pages f !! p = Some d -> asHdr d = Some h ->
  update_hdr file (Some p) g w
  = Done (mkWorld (<[file := mkFile (f_firstPage f) (f_nextNo f)
                                    (<[p := HdrPage (g h)]> (f_pages f))
                                    (f_openCnt f)]> (db w))
                  (freeFrames w) (pins w) (trace w ++ [EvWrite file p])).
Proof.
  intros Hf Hp Hh. unfold update_hdr.
  rewrite (deref_hdr_Some _ _ _ _ _ Hf Hp), Hh. simpl.
  unfold store_hdr. simpl. by rewrite (store_Some _ _ _ _ _ Hf).
Qed.

Lemma bufMgr_unPinPage_head (file : string) (p : Z) (dirty : bool) (w : World)
    (tl : list (string * Z)) :
  pins w = (file, p) :: tl ->
  bufMgr_unPinPage file p dirty w
  = (OK, mkWorld (db w) (S (freeFrames w)) tl (trace w ++ [EvUnpin file p dirty])).
Proof.
  intros H. unfold bufMgr_unPinPage. rewrite H.
  rewrite decide_True by (by left). simpl. by rewrite decide_True.
Qed.

Lemma bufMgr_unPinPage_second (file : string) (p q : Z) (dirty : bool) (w : World)
    (tl : list (string * Z)) :
  p ≠ q -> pins w = (file, q) :: (file, p) :: tl ->
  bufMgr_unPinPage file p dirty w
  = (OK, mkWorld (db w) (S (freeFrames w)) ((file, q) :: tl)
                 (trace w ++ [EvUnpin file p dirty])).
Proof.
  intros Hne H. unfold bufMgr_unPinPage. rewrite H.
  rewrite decide_True by (right; by left). simpl.
  rewrite decide_False by congruence. by rewrite decide_True.
Qed.

(** ** Creation of a heap file *)

(** On a name that is free, with two free frames, [createHeapFile] returns
    [OK]; the new file is closed and every pin has been released. *)
Lemma createHeapFile_new_db (name : string) (w : World) (n : nat) :
  db w !! name = None -> freeFrames w = S (S n) ->
  exists w',
    createHeapFile name w = Done (OK, w')
    /\ db w' = <[name := newHeapFile name]> (db w)
    /\ pins w' = pins w
    /\ freeFrames w' = freeFrames w.
Proof.
  intros Hnone Hfree. unfold createHeapFile.
  rewrite (db_openFile_None _ _ Hnone). rewrite decide_True by done.
  unfold db_createFile. rewrite Hnone. rewrite decide_False by auto.
  erewrite db_openFile_Some by (simpl; apply lookup_insert_eq).
  rewrite decide_False by auto. simpl.
  erewrite bufMgr_allocPage_free; [| simpl; apply lookup_insert_eq | simpl; exact Hfree].
  rewrite decide_False by auto. simpl.
  rewrite !insert_insert_eq.
  erewrite update_hdr_Some;
    [| simpl; apply lookup_insert_eq | simpl; apply lookup_insert_eq | reflexivity].
  simpl. rewrite !insert_insert_eq.
  erewrite bufMgr_allocPage_free; [| simpl; apply lookup_insert_eq | reflexivity].
  rewrite decide_False by auto. simpl. rewrite !insert_insert_eq.
  erewrite deref_page_Some;
    [| simpl; apply lookup_insert_eq | simpl; apply lookup_insert_eq].
  simpl. erewrite store_Some by (simpl; apply lookup_insert_eq).
  simpl. rewrite !insert_insert_eq.
  do 4 (erewrite update_hdr_Some;
         [| simpl; apply lookup_insert_eq
          | simpl; by simplify_map_eq
          | reflexivity];
        simpl; rewrite !insert_insert_eq).
  erewrite (bufMgr_unPinPage_second name 1 2); [| done | reflexivity].
  rewrite decide_False by auto.
  erewrite bufMgr_unPinPage_head by reflexivity.
  rewrite decide_False by auto.
  erewrite db_closeFile_open; [| simpl; apply lookup_insert_eq | reflexivity].
  rewrite decide_False by auto. simpl. rewrite !insert_insert_eq.
  eexists. split; [reflexivity|]. simpl. split_and!; try done.
Qed.




(** X2: createHeapFile on a name that exists: the call returns [FILEEXISTS]
    without touching a page, a pin or a frame, but it leaves the file open:
    the [openFile] that probes for the file has succeeded and no
    [closeFile] follows it. *)
Theorem createHeapFile_existing (name : string) (w : World) (f : File) :
  db w !! name = Some f ->
  exists w',
    createHeapFile name w = Done (FILEEXISTS, w')
    /\ pins w' = pins w /\ freeFrames w' = freeFrames w /\ trace w' = trace w
    /\ db w' = <[name := mkFile (f_firstPage f) (f_nextNo f) (f_pages f)
                                (S (f_openCnt f))]> (db w).
Proof.
  intros Hf. unfold createHeapFile. rewrite (db_openFile_Some _ _ _ Hf).
  rewrite decide_False by auto.
  eexists. split; [reflexivity|]. simpl. by split_and!.
Qed.

Lemma createHeapFile_existing_witness :
  exists w',
    createHeapFile "e" noDataFile = Done (FILEEXISTS, w')
    /\ pins w' = pins noDataFile /\ freeFrames w' = freeFrames noDataFile
    /\ trace w' = trace noDataFile
    /\ db w' = <["e" := mkFile 1 2 {[1 := HdrPage (mkHdr "e" (-1) (-1) 0 0)]} 1]>
                  (db noDataFile).
Proof.
  exact (createHeapFile_existing "e" noDataFile
           (mkFile 1 2 {[1 := HdrPage (mkHdr "e" (-1) (-1) 0 0)]} 0) eq_refl).
Defined.

(** X3: createHeapFile then destroyHeapFile: the file is removed, the database
    is as before the creation, and the name can be created again. *)
Theorem create_destroy_round_trip (name : string) (w : World) (n : nat) :
  db w !! name = None -> freeFrames w = S (S n) ->
  exists w1 w2 w3,
    createHeapFile name w = Done (OK, w1)
    /\ destroyHeapFile name w1 = (OK, w2)
    /\ db w2 = db w /\ pins w2 = pins w /\ freeFrames w2 = freeFrames w
    /\ createHeapFile name w2 = Done (OK, w3).
Proof.
  intros Hnone Hfree.
  destruct (createHeapFile_new_db name w n Hnone Hfree) as (w1 & Hc & Hdb & Hp & Hf).
  assert (Hd : destroyHeapFile name w1 = (OK, with_db (delete name (db w1)) w1)).
  { unfold destroyHeapFile, db_destroyFile. rewrite Hdb, lookup_insert_eq. reflexivity. }
  assert (Hdb2 : delete name (db w1) = db w).
  { rewrite Hdb, delete_insert_eq. by apply delete_id. }
  destruct (createHeapFile_new_db name (with_db (delete name (db w1)) w1) n)
    as (w3 & Hc3 & _); [simpl; by rewrite Hdb2 | simpl; congruence |].
  exists w1, (with_db (delete name (db w1)) w1), w3.
  split_and!; try done; simpl; congruence.
Qed.

Lemma create_destroy_round_trip_witness :
  exists w1 w2 w3,
    createHeapFile "t" (emptyWorld 2) = Done (OK, w1)
    /\ destroyHeapFile "t" w1 = (OK, w2)
    /\ db w2 = db (emptyWorld 2) /\ pins w2 = pins (emptyWorld 2)
    /\ freeFrames w2 = freeFrames (emptyWorld 2)
    /\ createHeapFile "t" w2 = Done (OK, w3).
Proof. apply (create_destroy_round_trip "t" (emptyWorld 2) 0); reflexivity. Defined.


(** ** Opening and closing a heap file *)

Lemma bufMgr_readPage_inv (file : string) (p : Z) (w : World) (st : Status)
    (w' : World) :
  bufMgr_readPage file p w = (st, w') ->
  (st = OK /\ is_Some (pageAt w file p)
   /\ exists n, freeFrames w = S n
        /\ w' = mkWorld (db w) n ((file, p) :: pins w) (trace w ++ [EvPin file p]))
  \/ (st ≠ OK /\ w' = w).
Proof.
  unfold bufMgr_readPage. destruct (pageAt w file p) as [d|].
  - destruct (freeFrames w) as [|n] eqn:Hn; intros [= <- <-].
    + right. split; [discriminate | reflexivity].
    + left. split_and!; [done | by eexists | by exists n].
  - intros [= <- <-]. right. split; [discriminate | reflexivity].
Qed.

Lemma db_openFile_inv (name : string) (w : World) (st : Status) (w' : World) :
  db_openFile name w = (st, w') ->
  (st = OK /\ exists f, db w !! name = Some f
     /\ w' = with_db (<[name := mkFile (f_firstPage f) (f_nextNo f) (f_pages f)
                                      (S (f_openCnt f))]> (db w)) w)
  \/ (st ≠ OK /\ w' = w).
Proof.
  unfold db_openFile. destruct (db w !! name) as [f|] eqn:Hf; intros [= <- <-].
  - left. split; [done|]. by exists f.
  - right. split; [discriminate | reflexivity].
Qed.

(** What the constructor leaves behind: on failure no pin and no frame is
    held; on success the header page and, when there is one, the first data
    page are pinned on top of the pins of before. *)
Lemma HeapFile_ctor_inv (name : string) (w : World) (this : HeapFile)
    (st : Status) (w1 : World) (b : HeapFile) :
  HeapFile_ctor name w this = Done (st, w1, b) ->
  (st ≠ OK /\ pins w1 = pins w /\ freeFrames w1 = freeFrames w)
  \/ (st = OK
      /\ exists f hdr,
           db w !! name = Some f
           /\ db w1 = <[name := mkFile (f_firstPage f) (f_nextNo f) (f_pages f)
                                      (S (f_openCnt f))]> (db w)
           /\ filePtr b = name
           /\ headerPageNo b = f_firstPage f
           /\ headerPage b = Some (f_firstPage f)
           /\ hdrDirtyFlag b = false
           /\ deref_hdr w1 name (Some (f_firstPage f)) = Done hdr
           /\ ((firstPage hdr = -1 /\ curPage b = None
                /\ pins w1 = (name, f_firstPage f) :: pins w
                /\ S (freeFrames w1) = freeFrames w
                /\ trace w1 = trace w ++ [EvPin name (f_firstPage f)])
               \/ (firstPage hdr ≠ -1 /\ curPage b = Some (firstPage hdr)
                   /\ curPageNo b = firstPage hdr /\ curDirtyFlag b = false
                   /\ pins w1 = (name, firstPage hdr) :: (name, f_firstPage f) :: pins w
                   /\ S (S (freeFrames w1)) = freeFrames w
                   /\ trace w1 = trace w ++ [EvPin name (f_firstPage f);
                                              EvPin name (firstPage hdr)]))).
Proof.
  unfold HeapFile_ctor.
  destruct (db_openFile name w) as [st1 wa] eqn:E1.
  destruct (db_openFile_inv _ _ _ _ E1) as [(-> & f & Hf & ->) | (Hst & ->)].
  2:{ rewrite ?decide_False by done. intros [= <- <- <-]. left. done. }
  rewrite ?decide_True by done. simpl.
  unfold File_getFirstPage. simpl. rewrite lookup_insert_eq. simpl.
  rewrite ?decide_False by auto.
  destruct (bufMgr_readPage name (f_firstPage f) _) as [st3 wb] eqn:E3.
  destruct (bufMgr_readPage_inv _ _ _ _ _ E3)
    as [(-> & _ & n & Hn & ->) | (Hst & ->)]; simpl in *.
  2:{ rewrite ?decide_True by done. intros [= <- <- <-]. left. done. }
  rewrite ?decide_False by auto. simpl.
  match goal with |- context [deref_hdr ?w0 name _] =>
    destruct (deref_hdr w0 name (Some (f_firstPage f))) as [hdr| |] eqn:Hhdr end;
    simpl; try discriminate.
  destruct (decide (firstPage hdr ≠ -1)) as [Hfp|Hfp].
  - destruct (bufMgr_readPage name (firstPage hdr) _) as [st4 wc] eqn:E4.
    destruct (bufMgr_readPage_inv _ _ _ _ _ E4)
      as [(-> & _ & m & Hm & ->) | (Hst & ->)]; simpl in *.
    + rewrite ?decide_False by auto. intros [= <- <- <-]. right.
      split; [done|]. exists f, hdr. simpl.
      split_and!; try done. right.
      split_and!; first [done | lia | by rewrite <- app_assoc].
    + rewrite ?decide_True by done.
      erewrite bufMgr_unPinPage_head by reflexivity.
      intros [= <- <- <-]. left. simpl. split_and!; [done | done | lia].
  - intros [= <- <- <-]. right. split; [done|]. exists f, hdr. simpl.
    split_and!; try done. left.
    split_and!; first [done | lia | by destruct (decide (firstPage hdr = -1))].
Qed.

(** X4: HeapFile::HeapFile: when the constructor reports a failure, the handle
    holds no pin: pins and free frames of the pool are as before the call. *)
Theorem HeapFile_ctor_failure_holds_no_pin (name : string) (w : World)
    (this : HeapFile) (st : Status) (w1 : World) (b : HeapFile) :
  HeapFile_ctor name w this = Done (st, w1, b) ->
  st ≠ OK ->
  pins w1 = pins w /\ freeFrames w1 = freeFrames w.
Proof.
  intros H Hst.
  destruct (HeapFile_ctor_inv _ _ _ _ _ _ H) as [(_ & Hp & Hf) | (-> & _)]; done.
Qed.

Lemma HeapFile_ctor_failure_witness :
  crowdedOpen.1.1 = BUFFEREXCEEDED
  /\ pins crowdedOpen.1.2 = pins crowdedWorld
  /\ freeFrames crowdedOpen.1.2 = freeFrames crowdedWorld.
Proof.
  split; [reflexivity|].
  apply (HeapFile_ctor_failure_holds_no_pin "t" crowdedWorld rawHeapFile
           crowdedOpen.1.1 crowdedOpen.1.2 crowdedOpen.2).
  - vm_compute. reflexivity.
  - vm_compute. discriminate.
Defined.

Lemma File_eta (f : File) :
  mkFile (f_firstPage f) (f_nextNo f) (f_pages f) (f_openCnt f) = f.
Proof. by destruct f. Qed.

(** X5: Opening a heap file and closing it at once: the constructor followed by
    the destructor leaves the files, the pins and the free frames as they
    were; the pages it pinned are unpinned clean and nothing is written. *)
Theorem HeapFile_open_close (name : string) (w : World) (this : HeapFile)
    (w1 : World) (b : HeapFile) :
  HeapFile_ctor name w this = Done (OK, w1, b) ->
  exists w2 b2,
    HeapFile_dtor w1 b = Done (w2, b2)
    /\ db w2 = db w /\ pins w2 = pins w /\ freeFrames w2 = freeFrames w
    /\ curPage b2 = None
    /\ Forall (fun e => forall f p, e ≠ EvUnpin f p true /\ e ≠ EvWrite f p)
              (drop (length (trace w)) (trace w2)).
Proof.
  intros H.
  destruct (HeapFile_ctor_inv _ _ _ _ _ _ H) as [(Hst & _) | (_ & f & hdr & Hrest)];
    [done|].
  destruct Hrest as (Hf & Hdb & Hfile & Hno & Hptr & Hdirty & Hhdr & Hcases).
  assert (Hclose : forall w',
            db w' = db w1 ->
            exists w2, db_closeFile name w' = (OK, w2) /\ db w2 = db w
                       /\ pins w2 = pins w' /\ freeFrames w2 = freeFrames w'
                       /\ trace w2 = trace w').
  { intros w' Hw'. eexists. split.
    - eapply db_closeFile_open; [rewrite Hw', Hdb; apply lookup_insert_eq | reflexivity].
    - simpl. split_and!; try done.
      rewrite Hw', Hdb, insert_insert_eq, File_eta. by apply insert_id. }
  assert (Hev : forall l,
            Forall (fun e => forall f p, e ≠ EvUnpin f p true /\ e ≠ EvWrite f p) l ->
            Forall (fun e => forall f p, e ≠ EvUnpin f p true /\ e ≠ EvWrite f p)
                   (drop (length (trace w)) (trace w ++ l))).
  { intros l Hl. by rewrite drop_app_length. }
  destruct b as [fp hp hno hd cp cno cd cr]. simpl in *. subst fp hno hp hd.
  unfold HeapFile_dtor. simpl. rewrite Hhdr. simpl.
  destruct Hcases as [(Hfirst & Hcur & Hpins & Hfree & Htr)
                     | (Hfirst & Hcur & Hcno & Hcd & Hpins & Hfree & Htr)].
  - subst cp. erewrite bufMgr_unPinPage_head by exact Hpins.
    simpl.
    match goal with |- context [db_closeFile name ?w'] =>
      destruct (Hclose w' eq_refl) as (w2 & Hc & Hdb2 & Hp2 & Hf2 & Ht2) end.
    rewrite Hc. eexists w2, _. simpl in *.
    split_and!; try done; [lia|].
    rewrite Ht2, Htr, <- app_assoc. apply Hev.
    repeat constructor; intros; discriminate.
  - subst cp cno cd. erewrite bufMgr_unPinPage_head by exact Hpins. simpl.
    erewrite bufMgr_unPinPage_head by reflexivity. simpl.
    match goal with |- context [db_closeFile name ?w'] =>
      destruct (Hclose w' eq_refl) as (w2 & Hc & Hdb2 & Hp2 & Hf2 & Ht2) end.
    rewrite Hc. eexists w2, _. simpl in *.
    split_and!; try done; [lia|].
    rewrite Ht2, Htr, <- !app_assoc. apply Hev.
    repeat constructor; intros; discriminate.
Qed.

Lemma HeapFile_open_close_witness :
  exists w2 b2,
    HeapFile_dtor intScan.1 (base intScan.2) = Done (w2, b2)
    /\ db w2 = db intFile /\ pins w2 = pins intFile
    /\ freeFrames w2 = freeFrames intFile
    /\ curPage b2 = None
    /\ Forall (fun e => forall f p, e ≠ EvUnpin f p true /\ e ≠ EvWrite f p)
              (drop (length (trace intFile)) (trace w2)).
Proof.
  apply (HeapFile_open_close "t" intFile rawHeapFile intScan.1 (base intScan.2)).
  vm_compute. reflexivity.
Defined.

(** ** HeapFile::getRecord *)

(** X6: HeapFile::getRecord, success: the record returned is the content of slot
    [slotNo rid] of page [pageNo rid]; that page is the current page
    afterwards and [rid] the current record; no page is written; and when
    the page was the current page already, the buffer pool is not called. *)
Theorem HeapFile_getRecord_returns_slot (rid : RID) (rec : RecordT) (w : World)
    (this : HeapFile) (rec' : RecordT) (w' : World) (this' : HeapFile) :
  (curPage this = None \/ curPage this = Some (curPageNo this)) ->
  HeapFile_getRecord rid rec w this = Done (OK, rec', w', this') ->
  exists pg,
    deref_page w (filePtr this) (Some (pageNo rid)) = Done pg
    /\ slot_at pg (slotNo rid) = Some rec'
    /\ curPage this' = Some (pageNo rid)
    /\ curPageNo this' = pageNo rid
    /\ curRec this' = rid
    /\ filePtr this' = filePtr this /\ headerPage this' = headerPage this
    /\ db w' = db w
    /\ (curPage this = Some (pageNo rid) -> w' = w).
Proof.
  intros Hinv. unfold HeapFile_getRecord.
  destruct (pageNo rid <? 0); [discriminate|].
  assert (Hfin : forall w1 (b : HeapFile),
            db w1 = db w -> filePtr b = filePtr this ->
            headerPage b = headerPage this ->
            curPage b = Some (pageNo rid) -> curPageNo b = pageNo rid ->
            (curPage this = Some (pageNo rid) -> w1 = w) ->
            (pg ← deref_page w1 (filePtr b) (curPage b);
             let '(status, rec0) := Page_getRecord rid rec pg in
             if decide (status ≠ OK) then Done (status, rec0, w1, b)
             else Done (OK, rec0, w1, set_curRec rid b))
            = Done (OK, rec', w', this') ->
            exists pg,
              deref_page w (filePtr this) (Some (pageNo rid)) = Done pg
              /\ slot_at pg (slotNo rid) = Some rec'
              /\ curPage this' = Some (pageNo rid)
              /\ curPageNo this' = pageNo rid
              /\ curRec this' = rid
              /\ filePtr this' = filePtr this /\ headerPage this' = headerPage this
              /\ db w' = db w
              /\ (curPage this = Some (pageNo rid) -> w' = w)).
  { intros w1 b Hdb Hfile Hhdr Hcur Hno Hsame.
    rewrite Hcur, Hfile, (deref_page_db w w1 _ _ Hdb).
    destruct (deref_page w (filePtr this) (Some (pageNo rid))) as [pg| |] eqn:Hpg;
      simpl; try discriminate.
    unfold Page_getRecord. destruct (slot_at pg (slotNo rid)) as [r|] eqn:Hslot;
      simpl; [|discriminate].
    intros [= <- <- <-]. exists pg. by split_and!. }
  destruct (curPage this) as [p|] eqn:Hcur.
  - destruct Hinv as [|[= ->]]; [done|].
    destruct (decide (pageNo rid = curPageNo this)) as [Heq|Hne].
    + rewrite bool_decide_eq_false_2 by done.
      rewrite (bool_decide_eq_false_2 (pageNo rid ≠ curPageNo this)) by tauto.
      simpl. apply Hfin; try done; congruence.
    + rewrite bool_decide_eq_false_2 by done.
      rewrite (bool_decide_eq_true_2 (pageNo rid ≠ curPageNo this)) by done.
      simpl.
      unfold bufMgr_unPinPage. case_decide as Hpin; simpl; [|discriminate].
      unfold bufMgr_readPage at 1. simpl.
      destruct (pageAt _ (filePtr this) (pageNo rid)) eqn:Hat; simpl;
        [|discriminate].
      apply Hfin; try done. congruence.
  - rewrite bool_decide_eq_true_2 by done. simpl.
    unfold bufMgr_readPage at 1.
    destruct (pageAt w (filePtr this) (pageNo rid)) eqn:Hat; simpl; [|discriminate].
    destruct (freeFrames w); simpl; [discriminate|].
    apply Hfin; done.
Qed.

Lemma HeapFile_getRecord_returns_slot_witness :
  exists pg,
    deref_page intScan.1 "t" (Some 3) = Done pg
    /\ slot_at pg 1 = Some intGet.1.1.2
    /\ curPage intGet.2 = Some 3
    /\ curPageNo intGet.2 = 3
    /\ curRec intGet.2 = mkRID 3 1
    /\ filePtr intGet.2 = "t" /\ headerPage intGet.2 = Some 1
    /\ db intGet.1.2 = db intScan.1
    /\ (curPage (base intScan.2) = Some 3 -> intGet.1.2 = intScan.1).
Proof.
  apply (HeapFile_getRecord_returns_slot (mkRID 3 1) junkRecord intScan.1
           (base intScan.2) intGet.1.1.2 intGet.1.2 intGet.2).
  - right. vm_compute. reflexivity.
  - vm_compute. reflexivity.
Defined.

(** X7: HeapFile::getRecord for a page that the file does not have, while
    another page is current: the current page is unpinned, the read fails,
    and the handle is left without a current page (with the old page number
    still in [curPageNo]); no page is written. *)
Theorem HeapFile_getRecord_missing_page (rid : RID) (rec : RecordT) (w : World)
    (this : HeapFile) (p : Z) :
  curPage this = Some p ->
  (filePtr this, curPageNo this) ∈ pins w ->
  0 <= pageNo rid -> pageNo rid ≠ curPageNo this ->
  pageAt w (filePtr this) (pageNo rid) = None ->
  exists w',
    HeapFile_getRecord rid rec w this
    = Done (BADPAGENO, rec, w', set_curPage None this)
    /\ db w' = db w
    /\ pins w' = remove_pin (filePtr this, curPageNo this) (pins w)
    /\ freeFrames w' = S (freeFrames w)
    /\ trace w' = trace w ++ [EvUnpin (filePtr this) (curPageNo this)
                                      (curDirtyFlag this)].
Proof.
  intros Hcur Hpin Hpos Hne Hat. unfold HeapFile_getRecord.
  destruct (pageNo rid <? 0) eqn:Hneg; [lia|].
  rewrite Hcur, bool_decide_eq_false_2 by done.
  rewrite (bool_decide_eq_true_2 (pageNo rid ≠ curPageNo this)) by done.
  simpl. unfold bufMgr_unPinPage. rewrite decide_True by done. simpl.
  unfold bufMgr_readPage, pageAt in *. simpl. rewrite Hat. simpl.
  eexists. split; [reflexivity|]. done.
Qed.

Lemma HeapFile_getRecord_missing_page_witness :
  exists w',
    HeapFile_getRecord (mkRID 9 0) junkRecord intGet.1.2 intGet.2
    = Done (BADPAGENO, junkRecord, w', set_curPage None intGet.2)
    /\ db w' = db intGet.1.2
    /\ pins w' = remove_pin ("t", 3) (pins intGet.1.2)
    /\ freeFrames w' = S (freeFrames intGet.1.2)
    /\ trace w' = trace intGet.1.2 ++ [EvUnpin "t" 3 false].
Proof.
  apply (HeapFile_getRecord_missing_page (mkRID 9 0) junkRecord intGet.1.2
           intGet.2 3).
  - vm_compute. reflexivity.
  - apply (bool_decide_unpack _). vm_compute. exact I.
  - vm_compute. discriminate.
  - vm_compute. discriminate.
  - vm_compute. reflexivity.
Defined.

(** ** scanNext from any state *)

Lemma scanNext_effect_here (w : World) (this : HeapFileScan) (st : Status) (rid : RID) :
  st ≠ OK -> scanNext_effect rid w this (st, rid, w, this).
Proof.
  intros Hst. unfold scanNext_effect. split_and!; try done.
  apply same_scan_refl.
Qed.

Lemma scanNext_effect_moved (outRid : RID) (w w1 : World) (this : HeapFileScan) (b : HeapFile)
    (res : Status * RID * World * HeapFileScan) :
  db w1 = db w -> filePtr b = filePtr (base this) ->
  (headerPage b = headerPage (base this)
   /\ headerPageNo b = headerPageNo (base this)
   /\ hdrDirtyFlag b = hdrDirtyFlag (base this)) ->
  (freeFrames w1 + held b = freeFrames w + held (base this))%nat ->
  (forall tl, pins w = held_pins (base this) ++ tl -> pins w1 = held_pins b ++ tl) ->
  scanNext_effect outRid w1 (set_base b this) res ->
  scanNext_effect outRid w this res.
Proof.
  intros Hdb Hfile (Hh1 & Hh2 & Hh3) Hheld Hpins.
  destruct res as [[[st rid] w'] this'].
  unfold scanNext_effect.
  intros (Hdb' & Hsame & (Hh1' & Hh2' & Hh3') & Hbal & Hpin & Hok & Hout).
  simpl in Hh1', Hh2', Hh3', Hbal, Hpin.
  split_and!; try done; try congruence.
  - by apply (same_scan_set_base this this' b).
  - intros Hst. specialize (Hbal Hst). lia.
  - intros Hst tl Htl. apply (Hpin Hst). by apply Hpins.
Qed.

Lemma scanNext_check_effect
    (self : RID -> World -> HeapFileScan -> Outcome (Status * RID * World * HeapFileScan))
    (outRid : RID) (w : World) (this : HeapFileScan) (pg : Page) (r : RecordT)
    (res : Status * RID * World * HeapFileScan) :
  (forall w0 s res0, self outRid w0 s = Done res0 -> scanNext_effect outRid w0 s res0) ->
  deref_page w (filePtr (base this)) (curPage (base this)) = Done pg ->
  slot_at pg (slotNo (curRec (base this))) = Some r ->
  scanNext_check self outRid w this = Done res ->
  scanNext_effect outRid w this res.
Proof.
  intros Hself Hpg Hslot. unfold scanNext_check.
  assert (Hget : HeapFileScan_getRecord junkRecord w this = Done (OK, r)).
  { unfold HeapFileScan_getRecord, Page_getRecord. rewrite Hpg. simpl.
    by rewrite Hslot. }
  case_bool_decide as Hflt.
  - intros [= <-]. unfold scanNext_effect. split_and!; try done.
    + apply same_scan_refl.
    + intros _. split; [done|]. exists r. split; [done|].
      unfold HeapFileScan_matchRec. by rewrite Hflt.
  - rewrite Hpg. simpl. unfold Page_getRecord. rewrite Hslot. simpl.
    destruct (HeapFileScan_matchRec r this) as [m| |] eqn:Hm; simpl; try discriminate.
    destruct m.
    + intros [= <-]. unfold scanNext_effect. split_and!; try done.
      * apply same_scan_refl.
      * intros _. split; [done|]. by exists r.
    + apply Hself.
Qed.

Lemma scanNext_advance_effect
    (self : RID -> World -> HeapFileScan -> Outcome (Status * RID * World * HeapFileScan))
    (outRid : RID) (w : World) (this : HeapFileScan)
    (res : Status * RID * World * HeapFileScan) :
  (forall w0 s res0, self outRid w0 s = Done res0 -> scanNext_effect outRid w0 s res0) ->
  scanNext_advance self outRid w this = Done res ->
  scanNext_effect outRid w this res.
Proof.
  intros Hself. unfold scanNext_advance.
  destruct (deref_page w (filePtr (base this)) (curPage (base this)))
    as [pg| |] eqn:Hpg; simpl; try discriminate.
  destruct (deref_page_inv _ _ _ _ Hpg) as (p & d & Hcur & Hat & Has).
  destruct (Page_nextRecord_cases (curRec (base this)) NULLRID pg)
    as [(i & r & -> & Hslot & _) | (-> & _)].
  - rewrite ?decide_True by done. intros H. rewrite ?set_base_set_base in H.
    match type of H with scanNext_check _ _ _ ?s = _ =>
      assert (E := scanNext_check_effect self outRid w s pg r res Hself Hpg Hslot H) end.
    by refine (scanNext_effect_moved outRid w w this _ res _ _ _ _ _ E).
  - rewrite ?decide_False by done. rewrite ?decide_True by done.
    unfold Page_getNextPage. simpl.
    case_decide as Hnext.
    { intros [= <-]. by apply scanNext_effect_here. }
    unfold bufMgr_unPinPage. case_decide as Hpin; simpl.
    2: { rewrite ?decide_True by done. intros [= <-].
         by apply scanNext_effect_here. }
    unfold bufMgr_readPage at 1. unfold pageAt at 1. simpl.
    fold (pageAt w (filePtr (base this)) (pg_nextPage pg)).
    destruct (pageAt w (filePtr (base this)) (pg_nextPage pg)) as [d2|] eqn:Hat2;
      simpl.
    2: { intros [= <-]. unfold scanNext_effect. split_and!; try done.
         apply same_scan_refl. }
    match goal with |- context [deref_page ?w2 _ (Some (pg_nextPage pg))] =>
      set (w2' := w2) end.
    destruct (deref_page w2' (filePtr (base this)) (Some (pg_nextPage pg)))
      as [pg2| |] eqn:Hpg2; simpl; try discriminate.
    assert (Hheld : (freeFrames w2' + 1 = freeFrames w + held (base this))%nat).
    { unfold held. rewrite Hcur. simpl. lia. }
    assert (Hpins2 : forall tl, pins w = held_pins (base this) ++ tl ->
              pins w2' = held_pins (set_cur (Some (pg_nextPage pg)) (pg_nextPage pg)
                                     false (base this)) ++ tl).
    { intros tl. unfold held_pins. rewrite Hcur. simpl. intros ->. simpl.
      by rewrite decide_True. }
    destruct (Page_firstRecord_cases NULLRID pg2)
      as [(i & r & -> & Hslot & _) | (-> & _)].
    + rewrite ?decide_False by auto. intros H. rewrite ?set_base_set_base in H.
      match type of H with scanNext_check _ _ _ ?s = _ =>
      assert (E := scanNext_check_effect self outRid w2' s pg2 r res Hself Hpg2 Hslot H) end.
      by refine (scanNext_effect_moved outRid w w2' this _ res _ _ _ _ _ E).
    + rewrite ?decide_True by done. rewrite ?decide_True by done. intros H. rewrite ?set_base_set_base in H.
      assert (E := Hself _ _ _ H).
      by refine (scanNext_effect_moved outRid w w2' this _ res _ _ _ _ _ E).
Qed.

Lemma scanNext_has_effect (fuel : nat) :
  forall (outRid : RID) (w : World) (this : HeapFileScan)
         (res : Status * RID * World * HeapFileScan),
    HeapFileScan_scanNext fuel outRid w this = Done res ->
    scanNext_effect outRid w this res.
Proof.
  induction fuel as [|fuel IH]; intros outRid w this res; [discriminate|].
  simpl. destruct (curPage (base this)) as [p|] eqn:Hcur.
  - apply scanNext_advance_effect. intros w0 s res0. apply IH.
  - destruct (deref_hdr w (filePtr (base this)) (headerPage (base this)))
      as [hdr| |] eqn:Hhdr; simpl; try discriminate.
    case_decide as Hfirst.
    { intros [= <-]. by apply scanNext_effect_here. }
    unfold bufMgr_readPage. 
    destruct (pageAt w (filePtr (base this)) (firstPage hdr)) as [d|] eqn:Hat; simpl.
    2: { intros [= <-]. by apply scanNext_effect_here. }
    destruct (freeFrames w) as [|n] eqn:Hfree; simpl.
    { intros [= <-]. by apply scanNext_effect_here. }
    match goal with |- context [deref_page ?w2 _ (Some (firstPage hdr))] =>
      set (w1 := w2) end.
    destruct (deref_page w1 (filePtr (base this)) (Some (firstPage hdr)))
      as [pg| |] eqn:Hpg; simpl; try discriminate.
    assert (Hheld : (freeFrames w1 + 1 = freeFrames w + held (base this))%nat).
    { unfold held. rewrite Hcur, Hfree. simpl. lia. }
    assert (Hpins1 : forall tl, pins w = held_pins (base this) ++ tl ->
              pins w1 = held_pins (set_cur (Some (firstPage hdr)) (firstPage hdr)
                                    false (base this)) ++ tl).
    { intros tl. unfold held_pins. rewrite Hcur. simpl. by intros ->. }
    destruct (Page_firstRecord_cases NULLRID pg)
      as [(i & r & -> & Hslot & _) | (-> & _)].
    + rewrite ?decide_False by auto. intros H. rewrite ?set_base_set_base in H.
      match type of H with scanNext_advance _ _ _ ?s = _ =>
      assert (E := scanNext_advance_effect _ outRid w1 s res (IH outRid) H) end.
      by refine (scanNext_effect_moved outRid w w1 this _ res _ _ _ _ _ E).
    + rewrite ?decide_True by done. rewrite ?decide_True by done. intros H. rewrite ?set_base_set_base in H.
      assert (E := IH _ _ _ _ H).
      by refine (scanNext_effect_moved outRid w w1 this _ res _ _ _ _ _ E).
Qed.

(** X8: scanNext, status [OK]: the identifier returned is the current record of
    the scan; [HeapFileScan::getRecord] then yields a record, and that
    record satisfies the predicate of the scan. *)
Theorem scanNext_returns_current_match (fuel : nat) (outRid : RID) (w : World)
    (this : HeapFileScan) (rid : RID) (w' : World) (this' : HeapFileScan)
    (rec0 : RecordT) :
  HeapFileScan_scanNext fuel outRid w this = Done (OK, rid, w', this') ->
  curRec (base this') = rid
  /\ exists rec,
       HeapFileScan_getRecord rec0 w' this' = Done (OK, rec)
       /\ HeapFileScan_matchRec rec this = Done true.
Proof.
  intros H. destruct (scanNext_has_effect _ _ _ _ _ H)
    as (_ & (b' & -> & _) & _ & _ & _ & Hok & _).
  destruct (Hok eq_refl) as (Hcur & rec & Hget & Hm).
  split; [done|]. exists rec. split.
  - revert Hget. unfold HeapFileScan_getRecord, Page_getRecord.
    destruct (deref_page w' _ _) as [pg| |]; simpl; try discriminate.
    by destruct (slot_at pg _).
  - by rewrite matchRec_set_base in Hm.
Qed.

Lemma scanNext_returns_current_match_witness :
  curRec (base intNext.2) = mkRID 2 1
  /\ exists rec,
       HeapFileScan_getRecord junkRecord intNext.1.2 intNext.2 = Done (OK, rec)
       /\ HeapFileScan_matchRec rec intScan42 = Done true.
Proof.
  apply (scanNext_returns_current_match 20 NULLRID intScan.1 intScan42
           (mkRID 2 1) intNext.1.2 intNext.2 junkRecord).
  vm_compute. reflexivity.
Defined.

(** X9: scanNext, any status: no page of the file is changed, the parameters of
    the scan, its mark and its header pointer are kept, and an identifier is
    returned with [OK] only ([outRid] is handed back otherwise). Unless a
    page read failed with [BADPAGENO], the scan holds one data page when it
    held one before, no frame is lost or gained, and the pin of the scan is
    the pin of its current page, on top of the same other pins. *)
Theorem scanNext_reads_only (fuel : nat) (outRid : RID) (w : World)
    (this : HeapFileScan) (st : Status) (rid : RID) (w' : World)
    (this' : HeapFileScan) :
  HeapFileScan_scanNext fuel outRid w this = Done (st, rid, w', this') ->
  db w' = db w
  /\ set_base (base this) this' = this
  /\ filePtr (base this') = filePtr (base this)
  /\ headerPage (base this') = headerPage (base this)
  /\ headerPageNo (base this') = headerPageNo (base this)
  /\ hdrDirtyFlag (base this') = hdrDirtyFlag (base this)
  /\ (st ≠ OK -> rid = outRid)
  /\ (st ≠ BADPAGENO ->
      (freeFrames w' + held (base this') = freeFrames w + held (base this))%nat
      /\ forall tl, pins w = held_pins (base this) ++ tl ->
                    pins w' = held_pins (base this') ++ tl).
Proof.
  intros H. destruct (scanNext_has_effect _ _ _ _ _ H)
    as (Hdb & (b' & -> & Hfile) & (Hhdr & Hhno & Hhd) & Hbal & Hpins & _ & Hout).
  split_and!; try done; [by destruct this|]. intros Hst. split; auto.
Qed.

Lemma scanNext_reads_only_witness :
  db intNext.1.2 = db intScan.1
  /\ set_base (base intScan42) intNext.2 = intScan42
  /\ filePtr (base intNext.2) = filePtr (base intScan42)
  /\ headerPage (base intNext.2) = headerPage (base intScan42)
  /\ headerPageNo (base intNext.2) = headerPageNo (base intScan42)
  /\ hdrDirtyFlag (base intNext.2) = hdrDirtyFlag (base intScan42)
  /\ (OK ≠ OK -> mkRID 2 1 = NULLRID)
  /\ (OK ≠ BADPAGENO ->
      (freeFrames intNext.1.2 + held (base intNext.2)
       = freeFrames intScan.1 + held (base intScan42))%nat
      /\ forall tl, pins intScan.1 = held_pins (base intScan42) ++ tl ->
                    pins intNext.1.2 = held_pins (base intNext.2) ++ tl).
Proof.
  apply (scanNext_reads_only 20 NULLRID intScan.1 intScan42 OK (mkRID 2 1)
           intNext.1.2 intNext.2).
  vm_compute. reflexivity.
Defined.

(** ** Deleting the current record of a scan *)

Lemma Chain_functional (w : World) (file : string) (p : Z) (l1 l2 : list Page) :
  Chain w file p l1 -> Chain w file p l2 -> l1 = l2.
Proof.
  intros H. revert l2. induction H as [|p pg rest Hp Hd Hc IH]; intros l2 H2.
  - by rewrite (Chain_end_inv _ _ _ H2).
  - destruct (Chain_next_inv _ _ _ _ Hp H2) as (pg' & rest' & -> & Hd' & Hc').
    rewrite Hd in Hd'. injection Hd' as <-. f_equal. by apply IH.
Qed.

(** A store to a page that cannot be read as a data page leaves every chain
    as it is. *)
Lemma Chain_store_off (w : World) (file : string) (x : Z) (d : PageData) (q : Z)
    (rest : list Page) :
  (forall pg0, deref_page w file (Some x) ≠ Done pg0) ->
  Chain w file q rest -> Chain (store file x d w) file q rest.
Proof.
  intros Hx H. induction H as [|q pgq restq Hq Hd Hc IH]; [constructor|].
  econstructor; [done| |exact IH].
  rewrite deref_page_store_other; [done|]. intros ->. by eapply Hx.
Qed.

(** A store to page [p] leaves a chain as it is when the chain from [p] is
    longer: a chain is finite, so it does not come back to [p]. *)
Lemma Chain_store_before (w : World) (file : string) (p : Z) (d : PageData) (q : Z)
    (rest : list Page) :
  (forall rest0, p ≠ -1 -> Chain w file p rest0 -> (length rest < length rest0)%nat) ->
  Chain w file q rest -> Chain (store file p d w) file q rest.
Proof.
  intros Hlen H. revert Hlen.
  induction H as [|q pgq restq Hq Hd Hc IH]; intros Hlen; [constructor|].
  destruct (decide (q = p)) as [->|Hne].
  - exfalso.
    specialize (Hlen (pgq :: restq) Hq (Chain_next _ _ _ _ _ Hq Hd Hc)).
    simpl in Hlen. lia.
  - econstructor; [done| by rewrite deref_page_store_other |].
    apply IH. intros rest0 Hp Hc0. specialize (Hlen rest0 Hp Hc0).
    simpl in Hlen. lia.
Qed.

Lemma live_slots_from (pno : Z) (l : list (option RecordT)) (k : nat) :
  Forall (fun rr : RID * RecordT => Z.of_nat k <= slotNo rr.1) (live_slots pno k l).
Proof.
  revert k. induction l as [|[r|] l IH]; intros k; simpl.
  - constructor.
  - constructor; [simpl; lia|].
    eapply Forall_impl; [apply (IH (S k))|]. simpl. intros; lia.
  - eapply Forall_impl; [apply (IH (S k))|]. simpl. intros; lia.
Qed.

(** Vacating slot [k + i] removes the entry of that slot, and no other. *)
Lemma live_slots_vacate (pno : Z) (l : list (option RecordT)) (k i : nat) :
  live_slots pno k (<[i := None]> l)
  = filter (fun rr : RID * RecordT => slotNo rr.1 ≠ Z.of_nat (k + i))
           (live_slots pno k l).
Proof.
  revert k i. induction l as [|s l IH]; intros k i; [done|].
  destruct i as [|i].
  - simpl. assert (Hrest : filter (fun rr : RID * RecordT =>
                                     slotNo rr.1 ≠ Z.of_nat (k + 0))
                             (live_slots pno (S k) l) = live_slots pno (S k) l).
    { induction (live_slots_from pno l (S k)) as [|rr t Hrr _ IHt]; [done|].
      rewrite filter_cons_True by lia. by rewrite IHt. }
    destruct s as [r|]; simpl; [|by rewrite Hrest].
    rewrite filter_cons_False by (simpl; lia). by rewrite Hrest.
  - simpl. replace (k + S i)%nat with (S k + i)%nat by lia.
    destruct s as [r|]; simpl; [|apply IH].
    rewrite filter_cons_True by (simpl; lia). by rewrite IH.
Qed.

(** The page after [Page::deleteRecord] of an occupied slot. *)
Lemma Page_deleteRecord_live (rid : RID) (pg : Page) (r : RecordT) :
  slot_at pg (slotNo rid) = Some r ->
  exists pg',
    Page_deleteRecord rid pg = (OK, pg')
    /\ pg_curPage pg' = pg_curPage pg /\ pg_nextPage pg' = pg_nextPage pg
    /\ slot_at pg' (slotNo rid) = None
    /\ (forall s, s ≠ slotNo rid -> slot_at pg' s = slot_at pg s)
    /\ live_after (slotNo rid) pg' = live_after (slotNo rid) pg
    /\ live_records pg'
       = filter (fun rr : RID * RecordT => slotNo rr.1 ≠ slotNo rid) (live_records pg).
Proof.
  intros Hslot. unfold Page_deleteRecord. rewrite Hslot. eexists. split; [done|].
  unfold slot_at in Hslot. destruct (0 <=? slotNo rid) eqn:Hpos; [|done].
  apply Z.leb_le in Hpos.
  destruct (pg_slots pg !! Z.to_nat (slotNo rid)) as [s|] eqn:Hl; [|done].
  assert (Hlt : (Z.to_nat (slotNo rid) < length (pg_slots pg))%nat)
    by (by eapply lookup_lt_Some).
  simpl. split_and!; try done.
  - unfold slot_at. simpl. destruct (0 <=? slotNo rid); [|done].
    by rewrite list_lookup_insert_eq.
  - intros s' Hne. unfold slot_at. simpl. destruct (0 <=? s') eqn:Hs'; [|done].
    apply Z.leb_le in Hs'. rewrite list_lookup_insert_ne; [done|lia].
  - unfold live_after. simpl. by rewrite drop_insert_lt by lia.
  - unfold live_records. simpl.
    rewrite (live_slots_vacate _ _ 0 (Z.to_nat (slotNo rid))).
    apply list_filter_iff. intros rr. simpl. lia.
Qed.

(** [deleteRecord] on a scan that stands on a page of the chain, with an
    occupied current slot and a proper header page. *)
Lemma deleteRecord_positioned (w : World) (this : HeapFileScan) (p : Z) (pg : Page)
    (rest : list Page) (h : Z) (hdr : FileHdrPage) (r : RecordT) :
  Positioned w this p pg rest ->
  headerPage (base this) = Some h ->
  pageAt w (filePtr (base this)) h = Some (HdrPage hdr) ->
  slot_at pg (slotNo (curRec (base this))) = Some r ->
  exists w' this' pg',
    HeapFileScan_deleteRecord w this = Done (OK, w', this')
    /\ Page_deleteRecord (curRec (base this)) pg = (OK, pg')
    /\ Positioned w' this' p pg' rest
    /\ this' = set_base (set_hdrDirtyFlag true (set_curDirtyFlag true (base this))) this
    /\ deref_hdr w' (filePtr (base this)) (Some h)
       = Done (set_recCnt (int_sub (recCnt hdr) 1) hdr)
    /\ pins w' = pins w /\ freeFrames w' = freeFrames w
    /\ trace w' = trace w ++ [EvWrite (filePtr (base this)) p;
                              EvWrite (filePtr (base this)) h].
Proof.
  intros [Hcur Hno Hpin Hpg Hch] Hh Hat Hslot.
  destruct (Page_deleteRecord_live _ _ _ Hslot)
    as (pg' & Hdel & Hcp & Hnp & _).
  destruct (deref_page_inv _ _ _ _ Hpg) as (p0 & d & [= <-] & Hatp & Has).
  assert (Hne : h ≠ p).
  { intros ->. rewrite Hat in Hatp. injection Hatp as <-. done. }
  assert (Hfile : is_Some (db w !! filePtr (base this))) by (by eapply pageAt_file).
  assert (Hhdr : deref_hdr w (filePtr (base this)) (Some h) = Done hdr).
  { unfold deref_hdr. simpl. by rewrite Hat. }
  unfold HeapFileScan_deleteRecord. rewrite Hcur, Hpg. simpl. rewrite Hdel. simpl.
  unfold update_hdr. rewrite Hh.
  rewrite deref_hdr_store_other by done. rewrite Hhdr. simpl.
  eexists _, _, pg'. split; [reflexivity|]. split; [done|].
  assert (Hoff : forall pg0,
            deref_page (store (filePtr (base this)) p (DataPage pg') w)
              (filePtr (base this)) (Some h) ≠ Done pg0).
  { intros pg0. rewrite deref_page_store_other by done.
    unfold deref_page. simpl. by rewrite Hat. }
  split_and!; try done.
  - split; simpl; try done.
    + rewrite deref_page_store_other by done.
      unfold deref_page. simpl. by rewrite pageAt_store_same.
    + rewrite Hnp. apply Chain_store_off; [done|].
      apply Chain_store_before; [|done].
      intros rest0 Hp Hc0.
      destruct (Chain_next_inv _ _ _ _ Hp Hc0) as (pg1 & rest1 & -> & Hd1 & Hc1).
      rewrite Hpg in Hd1. injection Hd1 as <-.
      rewrite (Chain_functional _ _ _ _ _ Hch Hc1). simpl. lia.
  - apply deref_hdr_store_same. by apply store_file.
  - simpl. by rewrite <- app_assoc.
Qed.

(** X10: deleteRecord on an occupied current record, during a scan that stands
    on a page of the chain: the call returns [OK]; the page loses exactly
    the record of the current slot and keeps its place in the chain; the
    records the scan has still to visit are the same; [recCnt] is
    decremented and both dirty flags are set; no pin changes. *)
Theorem deleteRecord_removes_current (w : World) (this : HeapFileScan) (p : Z)
    (pg : Page) (rest : list Page) (h : Z) (hdr : FileHdrPage) (r : RecordT) :
  Positioned w this p pg rest ->
  headerPage (base this) = Some h ->
  pageAt w (filePtr (base this)) h = Some (HdrPage hdr) ->
  slot_at pg (slotNo (curRec (base this))) = Some r ->
  exists w' this' pg',
    HeapFileScan_deleteRecord w this = Done (OK, w', this')
    /\ Positioned w' this' p pg' rest
    /\ live_records pg'
       = filter (fun rr : RID * RecordT => slotNo rr.1 ≠ slotNo (curRec (base this)))
                (live_records pg)
    /\ slot_at pg' (slotNo (curRec (base this))) = None
    /\ remaining this' pg' rest = remaining this pg rest
    /\ curRec (base this') = curRec (base this)
    /\ curDirtyFlag (base this') = true /\ hdrDirtyFlag (base this') = true
    /\ deref_hdr w' (filePtr (base this)) (Some h)
       = Done (set_recCnt (int_sub (recCnt hdr) 1) hdr)
    /\ pins w' = pins w /\ freeFrames w' = freeFrames w.
Proof.
  intros Hpos Hh Hat Hslot.
  destruct (deleteRecord_positioned _ _ _ _ _ _ _ _ Hpos Hh Hat Hslot)
    as (w' & this' & pg' & Hdel & Hpd & Hpos' & -> & Hhdr & Hpins & Hfree & _).
  destruct (Page_deleteRecord_live _ _ _ Hslot)
    as (pg2 & Hpd2 & _ & _ & Hvac & _ & Hafter & Hlive).
  rewrite Hpd in Hpd2. injection Hpd2 as <-.
  eexists w', _, pg'. split_and!; try done.
  unfold remaining. simpl. by rewrite Hafter.
Qed.

Lemma deleteRecord_removes_current_witness :
  exists w' this' pg',
    HeapFileScan_deleteRecord intNext.1.2 intNext.2 = Done (OK, w', this')
    /\ Positioned w' this' 2 pg' [intPage 3]
    /\ live_records pg'
       = filter (fun rr : RID * RecordT => slotNo rr.1 ≠ slotNo (curRec (base intNext.2)))
                (live_records (intPage 2))
    /\ slot_at pg' (slotNo (curRec (base intNext.2))) = None
    /\ remaining this' pg' [intPage 3] = remaining intNext.2 (intPage 2) [intPage 3]
    /\ curRec (base this') = curRec (base intNext.2)
    /\ curDirtyFlag (base this') = true /\ hdrDirtyFlag (base this') = true
    /\ deref_hdr w' (filePtr (base intNext.2)) (Some 1)
       = Done (set_recCnt (int_sub (recCnt intHdr) 1) intHdr)
    /\ pins w' = pins intNext.1.2 /\ freeFrames w' = freeFrames intNext.1.2.
Proof.
  apply (deleteRecord_removes_current intNext.1.2 intNext.2 2 (intPage 2)
           [intPage 3] 1 intHdr (intRecord 42)).
  - constructor.
    + reflexivity.
    + reflexivity.
    + apply (bool_decide_unpack _). vm_compute. exact I.
    + vm_compute. reflexivity.
    + apply (walk_Chain 3 _ _ _ [(3, intPage 3)]). vm_compute. reflexivity.
  - reflexivity.
  - vm_compute. reflexivity.
  - vm_compute. reflexivity.
Defined.

(** X11: Deleting while scanning: after deleteRecord on the current record, the
    next scanNext returns the status and the identifier that it would have
    returned without the deletion. *)
Theorem deleteRecord_keeps_scan_order (fuel : nat) (outRid : RID) (w : World)
    (this : HeapFileScan) (p : Z) (pg : Page) (rest : list Page) (h : Z)
    (hdr : FileHdrPage) (r : RecordT) :
  Positioned w this p pg rest ->
  headerPage (base this) = Some h ->
  pageAt w (filePtr (base this)) h = Some (HdrPage hdr) ->
  slot_at pg (slotNo (curRec (base this))) = Some r ->
  all_defined this (remaining this pg rest) ->
  (length (remaining this pg rest) + length rest < fuel)%nat ->
  exists w' this' st rid wa sa wb sb,
    HeapFileScan_deleteRecord w this = Done (OK, w', this')
    /\ HeapFileScan_scanNext fuel outRid w' this' = Done (st, rid, wa, sa)
    /\ HeapFileScan_scanNext fuel outRid w this = Done (st, rid, wb, sb).
Proof.
  intros Hpos Hh Hat Hslot Hdef Hfuel.
  destruct (deleteRecord_positioned _ _ _ _ _ _ _ _ Hpos Hh Hat Hslot)
    as (w' & this' & pg' & Hdel & Hpd & Hpos' & -> & _).
  destruct (Page_deleteRecord_live _ _ _ Hslot)
    as (pg2 & Hpd2 & _ & _ & _ & _ & Hafter & _).
  rewrite Hpd in Hpd2. injection Hpd2 as <-.
  set (b' := set_hdrDirtyFlag true (set_curDirtyFlag true (base this))) in *.
  assert (Hrem : remaining (set_base b' this) pg' rest = remaining this pg rest).
  { unfold remaining. simpl. by rewrite Hafter. }
  destruct (scanNext_spec fuel outRid w this p pg rest Hpos Hdef Hfuel)
    as (st & rid & wb & sb & ? & ? & ? & Hres & _ & _ & _ & _ & Hfm).
  destruct (scanNext_spec fuel outRid w' (set_base b' this) p pg' rest Hpos')
    as (st' & rid' & wa & sa & ? & ? & ? & Hres' & _ & _ & _ & _ & Hfm').
  { rewrite Hrem. by apply all_defined_set_base. }
  { by rewrite Hrem. }
  rewrite Hrem, first_match_set_base in Hfm'.
  exists w', (set_base b' this), st, rid, wa, sa, wb, sb.
  split_and!; try done. rewrite Hres'.
  destruct (first_match this (remaining this pg rest)) as [[rid0 todo0]|].
  - destruct Hfm as (-> & -> & _), Hfm' as (-> & -> & _). done.
  - destruct Hfm as (-> & -> & _), Hfm' as (-> & -> & _). done.
Qed.

Lemma deleteRecord_keeps_scan_order_witness :
  exists w' this' st rid wa sa wb sb,
    HeapFileScan_deleteRecord intNext.1.2 intNext.2 = Done (OK, w', this')
    /\ HeapFileScan_scanNext 20 NULLRID w' this' = Done (st, rid, wa, sa)
    /\ HeapFileScan_scanNext 20 NULLRID intNext.1.2 intNext.2
       = Done (st, rid, wb, sb).
Proof.
  apply (deleteRecord_keeps_scan_order 20 NULLRID intNext.1.2 intNext.2 2
           (intPage 2) [intPage 3] 1 intHdr (intRecord 42)).
  - constructor.
    + reflexivity.
    + reflexivity.
    + apply (bool_decide_unpack _). vm_compute. exact I.
    + vm_compute. reflexivity.
    + apply (walk_Chain 3 _ _ _ [(3, intPage 3)]). vm_compute. reflexivity.
  - reflexivity.
  - vm_compute. reflexivity.
  - vm_compute. reflexivity.
  - apply (bool_decide_unpack _). vm_compute. exact I.
  - vm_compute. lia.
Defined.

(** ** Inserting a record *)

Lemma first_vacant_Some (l : list (option RecordT)) (k i : nat) :
  first_vacant k l = Some i -> (k <= i)%nat /\ l !! (i - k)%nat = Some None.
Proof.
  revert k. induction l as [|[r|] l IH]; intros k; simpl; [done| |].
  - intros H. destruct (IH _ H) as [Hle Hl]. split; [lia|].
    replace (i - k)%nat with (S (i - S k)) by lia. done.
  - intros [= <-]. split; [lia|]. by rewrite Nat.sub_diag.
Qed.

Lemma first_vacant_None (l : list (option RecordT)) (k : nat) :
  first_vacant k l = None -> Forall (fun s => s ≠ None) l.
Proof.
  revert k. induction l as [|[r|] l IH]; intros k; simpl; [constructor| |done].
  intros H. constructor; [done|]. by eapply IH.
Qed.

(** The page after a successful [Page::insertRecord]: the record is in the
    slot that [rid] names, which was vacant; the other slots are as before. *)
Lemma Page_insertRecord_OK (space : Z) (rec : RecordT) (rid0 rid : RID)
    (pg pg' : Page) :
  Page_insertRecord space rec rid0 pg = (OK, rid, pg') ->
  pageNo rid = pg_curPage pg
  /\ pg_curPage pg' = pg_curPage pg /\ pg_nextPage pg' = pg_nextPage pg
  /\ slot_at pg' (slotNo rid) = Some (stored rec)
  /\ slot_at pg (slotNo rid) = None
  /\ (forall s, s ≠ slotNo rid -> slot_at pg' s = slot_at pg s).
Proof.
  unfold Page_insertRecord.
  destruct (first_vacant 0 (pg_slots pg)) as [i|] eqn:Hv.
  - destruct (_ <=? space); [|discriminate]. intros [= <- <-]. simpl.
    destruct (first_vacant_Some _ _ _ Hv) as [_ Hl]. rewrite Nat.sub_0_r in Hl.
    assert (Hlt : (i < length (pg_slots pg))%nat) by (by eapply lookup_lt_Some).
    split_and!; try done.
    + unfold slot_at. simpl. rewrite (proj2 (Z.leb_le 0 _)) by lia.
      by rewrite Nat2Z.id, list_lookup_insert_eq.
    + unfold slot_at. destruct (0 <=? Z.of_nat i); [|done].
      by rewrite Nat2Z.id, Hl.
    + intros s Hs. unfold slot_at. simpl. destruct (0 <=? s) eqn:E; [|done].
      apply Z.leb_le in E. rewrite list_lookup_insert_ne; [done|lia].
  - destruct (_ <=? space); [|discriminate]. intros [= <- <-]. simpl.
    split_and!; try done.
    + unfold slot_at. simpl. rewrite (proj2 (Z.leb_le 0 _)) by lia.
      rewrite Nat2Z.id, lookup_app_r by lia. by rewrite Nat.sub_diag.
    + unfold slot_at. destruct (0 <=? _); [|done].
      rewrite Nat2Z.id. by rewrite lookup_ge_None_2.
    + intros s Hs. unfold slot_at. simpl. destruct (0 <=? s) eqn:E; [|done].
      apply Z.leb_le in E.
      destruct (decide (Z.to_nat s < length (pg_slots pg))%nat).
      * by rewrite lookup_app_l.
      * rewrite lookup_app_r by lia.
        rewrite (lookup_ge_None_2 (pg_slots pg)) by lia.
        destruct (Z.to_nat s - length (pg_slots pg))%nat eqn:E'; [lia|done].
Qed.

(** A header that can be read after a store of a data page is on another
    page, and was the same before the store. *)
Lemma deref_hdr_after_store_page (w : World) (file : string) (p h : Z) (pg : Page)
    (x : FileHdrPage) :
  deref_hdr (store file p (DataPage pg) w) file (Some h) = Done x ->
  h ≠ p /\ deref_hdr w file (Some h) = Done x.
Proof.
  intros H. destruct (decide (h = p)) as [->|Hne].
  - exfalso. destruct (deref_hdr_inv _ _ _ _ H) as (p0 & d & [= <-] & Hat & Has).
    destruct (db w !! file) as [f|] eqn:Hf.
    + rewrite pageAt_store_same in Hat by done. by injection Hat as <-.
    + unfold pageAt, store in Hat. simpl in Hat.
      by rewrite lookup_alter_eq, Hf in Hat.
  - split; [done|]. by rewrite deref_hdr_store_other in H.
Qed.

(** A data page that can be read after a store of a header is on another
    page, and was the same before the store. *)
Lemma deref_page_after_store_hdr (w : World) (file : string) (p h : Z)
    (x : FileHdrPage) (pg : Page) :
  deref_page (store file h (HdrPage x) w) file (Some p) = Done pg ->
  h ≠ p /\ deref_page w file (Some p) = Done pg.
Proof.
  intros H. destruct (decide (h = p)) as [->|Hne].
  - exfalso. destruct (deref_page_inv _ _ _ _ H) as (p0 & d & [= <-] & Hat & Has).
    destruct (db w !! file) as [f|] eqn:Hf.
    + rewrite pageAt_store_same in Hat by done. by injection Hat as <-.
    + unfold pageAt, store in Hat. simpl in Hat.
      by rewrite lookup_alter_eq, Hf in Hat.
  - split; [done|]. by rewrite deref_page_store_other in H.
Qed.

Lemma update_hdr_inv (file : string) (ptr : option Z) (g : FileHdrPage -> FileHdrPage)
    (w w' : World) :
  update_hdr file ptr g w = Done w' ->
  exists h x,
    ptr = Some h /\ deref_hdr w file (Some h) = Done x
    /\ w' = store file h (HdrPage (g x)) w
    /\ deref_hdr w' file (Some h) = Done (g x).
Proof.
  unfold update_hdr. destruct (deref_hdr w file ptr) as [x| |] eqn:Hx;
    simpl; try discriminate.
  destruct (deref_hdr_inv _ _ _ _ Hx) as (h & d & -> & Hat & Has).
  unfold store_hdr. simpl. intros [= <-]. exists h, x. split_and!; try done.
  apply deref_hdr_store_same. by eapply pageAt_file.
Qed.

Lemma deref_page_store_same (w : World) (file : string) (p : Z) (pg : Page) :
  is_Some (db w !! file) ->
  deref_page (store file p (DataPage pg) w) file (Some p) = Done pg.
Proof.
  intros H. unfold deref_page. simpl. by rewrite pageAt_store_same.
Qed.

Lemma deref_hdr_file (w : World) (file : string) (ptr : option Z) (x : FileHdrPage) :
  deref_hdr w file ptr = Done x -> is_Some (db w !! file).
Proof.
  intros H. destruct (deref_hdr_inv _ _ _ _ H) as (p & d & _ & Hat & _).
  by eapply pageAt_file.
Qed.

Lemma deref_page_file (w : World) (file : string) (ptr : option Z) (pg : Page) :
  deref_page w file ptr = Done pg -> is_Some (db w !! file).
Proof.
  intros H. destruct (deref_page_inv _ _ _ _ H) as (p & d & _ & Hat & _).
  by eapply pageAt_file.
Qed.

Lemma pageAt_db (w w' : World) (file : string) (p : Z) :
  db w' = db w -> pageAt w' file p = pageAt w file p.
Proof. intros H. unfold pageAt. by rewrite H. Qed.

Lemma store_nextNo (file : string) (x : Z) (d : PageData) (w : World) (f : File) :
  db w !! file = Some f ->
  exists f', db (store file x d w) !! file = Some f' /\ f_nextNo f' = f_nextNo f.
Proof.
  intros Hf. unfold store. simpl. rewrite lookup_alter_eq, Hf. simpl. by eexists.
Qed.

Lemma file_nextNo_store (file : string) (x : Z) (d : PageData) (w : World) :
  file_nextNo (store file x d w) file = file_nextNo w file.
Proof.
  unfold file_nextNo, store. simpl. rewrite lookup_alter_eq.
  by destruct (db w !! file).
Qed.

Lemma file_nextNo_db (w w' : World) (file : string) :
  db w' = db w -> file_nextNo w' file = file_nextNo w file.
Proof. intros H. unfold file_nextNo. by rewrite H. Qed.

(** The last two steps of an insertion: the page with the new record is
    stored and the record count of the header is incremented. *)
Lemma insert_commit (file : string) (p : Z) (hp : option Z) (pg' : Page)
    (w w' : World) :
  (w1 ← store_page file (Some p) pg' w;
   update_hdr file hp (fun h => set_recCnt (int_add (recCnt h) 1) h) w1) = Done w' ->
  exists h x,
    hp = Some h /\ h ≠ p
    /\ deref_hdr w file (Some h) = Done x
    /\ deref_hdr w' file (Some h) = Done (set_recCnt (int_add (recCnt x) 1) x)
    /\ deref_page w' file (Some p) = Done pg'
    /\ pins w' = pins w /\ freeFrames w' = freeFrames w
    /\ file_nextNo w' file = file_nextNo w file
    /\ (forall y, y ≠ p -> y ≠ h -> pageAt w' file y = pageAt w file y)
    /\ pageAt w' file h = Some (HdrPage (set_recCnt (int_add (recCnt x) 1) x)).
Proof.
  unfold store_page. simpl. intros H.
  destruct (update_hdr_inv _ _ _ _ _ H) as (h & x & -> & Hx & -> & Hx').
  destruct (deref_hdr_after_store_page _ _ _ _ _ _ Hx) as [Hne Hx0].
  exists h, x. split_and!; try done.
  4: { apply pageAt_store_same. by eapply deref_hdr_file. }
  2: by rewrite !file_nextNo_store.
  2: { intros y Hy1 Hy2. by rewrite !pageAt_store_other. }
  rewrite deref_page_store_other by done.
  apply deref_page_store_same. by eapply deref_hdr_file.
Qed.

Lemma bufMgr_allocPage_inv (file : string) (w : World) (n : Z) (wa : World) :
  bufMgr_allocPage file w = (OK, n, wa) ->
  exists f,
    db w !! file = Some f /\ n = f_nextNo f
    /\ S (freeFrames wa) = freeFrames w
    /\ pins wa = (file, n) :: pins w
    /\ pageAt wa file n = Some RawPage
    /\ (forall h, h ≠ n -> pageAt wa file h = pageAt w file h)
    /\ (exists fa, db wa !! file = Some fa /\ f_nextNo fa = f_nextNo f + 1)
    /\ file_nextNo wa file = Some (f_nextNo f + 1).
Proof.
  unfold bufMgr_allocPage. destruct (db w !! file) as [f|] eqn:Hf; [|discriminate].
  destruct (freeFrames w) as [|k] eqn:Hk; [discriminate|].
  intros [= <- <-]. exists f. split_and!; try done.
  - unfold pageAt. simpl. rewrite lookup_insert_eq. simpl. by rewrite lookup_insert_eq.
  - intros h Hne. unfold pageAt. simpl. rewrite lookup_insert_eq, Hf. simpl.
    by rewrite lookup_insert_ne.
  - eexists. simpl. rewrite lookup_insert_eq. done.
  - unfold file_nextNo. simpl. by rewrite lookup_insert_eq.
Qed.

Lemma deref_hdr_pageAt (w w' : World) (file : string) (h : Z) :
  pageAt w' file h = pageAt w file h ->
  deref_hdr w' file (Some h) = deref_hdr w file (Some h).
Proof. intros H. unfold deref_hdr. simpl. by rewrite H. Qed.

Lemma deref_page_pageAt (w w' : World) (file : string) (p : Z) :
  pageAt w' file p = pageAt w file p ->
  deref_page w' file (Some p) = deref_page w file (Some p).
Proof. intros H. unfold deref_page. simpl. by rewrite H. Qed.

(** [insertRecord] with a current page, status [OK]: either the record went
    to the current page, or to a page allocated behind it. *)
Lemma insertRecord_on_current (space : Z) (rec : RecordT) (outRid : RID)
    (w : World) (this : HeapFile) (p : Z) (rid : RID) (w' : World)
    (this' : HeapFile) :
  curPage this = Some p ->
  InsertFileScan_insertRecord space rec outRid w this = Done (OK, rid, w', this') ->
  exists h hdr hdr' q pg',
    headerPage this = Some h /\ headerPage this' = Some h
    /\ filePtr this' = filePtr this
    /\ deref_hdr w (filePtr this) (Some h) = Done hdr
    /\ deref_hdr w' (filePtr this) (Some h) = Done hdr'
    /\ pageAt w' (filePtr this) h = Some (HdrPage hdr')
    /\ recCnt hdr' = int_add (recCnt hdr) 1
    /\ firstPage hdr' = firstPage hdr
    /\ curPage this' = Some q
    /\ deref_page w' (filePtr this) (Some q) = Done pg'
    /\ slot_at pg' (slotNo rid) = Some (stored rec)
    /\ pageNo rid = pg_curPage pg'
    /\ curDirtyFlag this' = true /\ hdrDirtyFlag this' = true
    /\ ((q = p /\ curPageNo this' = curPageNo this
         /\ lastPage hdr' = lastPage hdr /\ pageCnt hdr' = pageCnt hdr
         /\ pins w' = pins w /\ freeFrames w' = freeFrames w
         /\ file_nextNo w' (filePtr this) = file_nextNo w (filePtr this)
         /\ (forall x, x ≠ p -> x ≠ h ->
               pageAt w' (filePtr this) x = pageAt w (filePtr this) x)
         /\ exists pg0, deref_page w (filePtr this) (Some p) = Done pg0
                        /\ pg_curPage pg' = pg_curPage pg0
                        /\ slot_at pg0 (slotNo rid) = None
                        /\ (forall s, s ≠ slotNo rid -> slot_at pg' s = slot_at pg0 s)
                        /\ Page_insertRecord space rec NULLRID pg0 = (OK, rid, pg'))
        \/ (curPageNo this' = q /\ pg_curPage pg' = q
            /\ lastPage hdr' = q /\ pageCnt hdr' = int_add (pageCnt hdr) 1
            /\ freeFrames w' = freeFrames w
            /\ file_nextNo w (filePtr this) = Some q
            /\ file_nextNo w' (filePtr this) = Some (q + 1)
            /\ (forall x, x ≠ q -> x ≠ p -> x ≠ h ->
                  pageAt w' (filePtr this) x = pageAt w (filePtr this) x)
            /\ (p ≠ q ->
                exists pg0 pgp,
                  deref_page w (filePtr this) (Some p) = Done pg0
                  /\ deref_page w' (filePtr this) (Some p) = Done pgp
                  /\ pg_curPage pgp = pg_curPage pg0
                  /\ pg_slots pgp = pg_slots pg0
                  /\ pg_nextPage pgp = q
                  /\ pg' = mkPage q (-1) [Some (stored rec)]
                  /\ rid = mkRID q 0))).
Proof.
  intros Hcur. unfold InsertFileScan_insertRecord. rewrite Hcur. simpl.
  rewrite !Hcur.
  destruct (deref_page w (filePtr this) (Some p)) as [pg0| |] eqn:Hpg0;
    simpl; try discriminate.
  destruct (Page_insertRecord space rec NULLRID pg0) as [[st rid1] pg1] eqn:Hins.
  case_decide as Hst.
  - (* the record fits on the current page *)
    subst st.
    destruct (store_page (filePtr this) (Some p) pg1 w
              ≫= update_hdr (filePtr this) (headerPage this)
                   (fun h => set_recCnt (int_add (recCnt h) 1) h))
      as [w2| |] eqn:Hc.
    2,3: unfold store_page in *; simpl in *; by rewrite Hc.
    destruct (insert_commit _ _ _ _ _ _ Hc)
      as (h & x & Hh & Hne & Hx & Hx' & Hp' & Hpins & Hfree & Hnx' & Hfr' & Hath').
    unfold store_page in *; simpl in *. rewrite Hc. simpl.
    intros [= <- <- <-].
    destruct (Page_insertRecord_OK _ _ _ _ _ _ Hins)
      as (Hno & Hcp & Hnp & Hslot & Hvac & Hother).
    exists h, x, (set_recCnt (int_add (recCnt x) 1) x), p, pg1.
    split_and!; try done; [congruence|].
    left. split_and!; try done. by exists pg0.
  - case_decide as Hns.
    { intros [= -> _ _ _]. done. }
    assert (st = NOSPACE) as -> by (by destruct (decide (st = NOSPACE))).
    destruct (bufMgr_allocPage (filePtr this) w) as [[sa n] wa] eqn:Ha.
    case_decide as Hsa.
    { intros [= -> _ _ _]. done. }
    assert (sa = OK) as -> by (by destruct (decide (sa = OK))).
    destruct (bufMgr_allocPage_inv _ _ _ _ Ha)
      as (f & Hf & Hn & Hfa & Hpa & Hraw & Hkeep & _ & Hnx).
    destruct (deref_page wa (filePtr this) (Some n)) as [npg| |] eqn:Hnpg;
      simpl; try discriminate.
    set (w2 := store (filePtr this) n (DataPage (Page_init n npg)) wa).
    destruct (deref_page w2 (filePtr this) (Some p)) as [pgc| |] eqn:Hpgc;
      simpl; try discriminate.
    set (w3 := store (filePtr this) p
                 (DataPage (mkPage (pg_curPage pgc) n (pg_slots pgc))) w2).
    destruct (update_hdr (filePtr this) (headerPage this) (set_lastPage n) w3)
      as [w4| |] eqn:Hu4; simpl; try discriminate.
    destruct (update_hdr (filePtr this) (headerPage this)
                (fun h => set_pageCnt (int_add (pageCnt h) 1) h) w4)
      as [w5| |] eqn:Hu5; simpl; try discriminate.
    destruct (bufMgr_unPinPage (filePtr this) (curPageNo this) (curDirtyFlag this) w5)
      as [su w6] eqn:Hun.
    case_decide as Hsu.
    { intros [= -> _ _ _]. done. }
    assert (Hdb6 : db w6 = db w5 /\ freeFrames w6 = S (freeFrames w5)).
    { revert Hun. unfold bufMgr_unPinPage. case_decide; intros [= <- <-]; done. }
    destruct Hdb6 as [Hdb6 Hfree6].
    destruct (deref_page w6 (filePtr this) (Some n)) as [pgn| |] eqn:Hpgn;
      simpl; try discriminate.
    destruct (Page_insertRecord space rec NULLRID pgn) as [[st2 rid2] pgn'] eqn:Hins2.
    case_decide as Hst2.
    { intros [= -> _ _ _]. done. }
    assert (st2 = OK) as -> by (by destruct (decide (st2 = OK))).
    destruct (store_page (filePtr this) (Some n) pgn' w6
              ≫= update_hdr (filePtr this) (headerPage this)
                   (fun h => set_recCnt (int_add (recCnt h) 1) h))
      as [w7| |] eqn:Hc.
    2,3: unfold store_page in *; simpl in *; by rewrite Hc.
    destruct (insert_commit _ _ _ _ _ _ Hc)
      as (h & x6 & Hh & Hne & Hx6 & Hx' & Hp' & Hpins & Hfree & Hnx' & Hfr' & Hath').
    unfold store_page in Hc |- *; simpl in Hc |- *. rewrite Hc. simpl.
    intros [= <- <- <-].
    destruct (Page_insertRecord_OK _ _ _ _ _ _ Hins2)
      as (Hno & Hcp & Hnp & Hslot & Hvac & Hother).
    (* the header, backwards *)
    rewrite Hh in Hu4, Hu5.
    destruct (update_hdr_inv _ _ _ _ _ Hu5) as (? & x4 & [= <-] & Hx4 & Hw5 & Hx5).
    destruct (update_hdr_inv _ _ _ _ _ Hu4) as (? & x3 & [= <-] & Hx3 & Hw4 & Hx4').
    rewrite Hx4' in Hx4. injection Hx4 as <-.
    rewrite (deref_hdr_db w5 w6 _ _ Hdb6), Hx5 in Hx6. injection Hx6 as <-.
    destruct (deref_hdr_after_store_page _ _ _ _ _ _ Hx3) as [Hhp Hx2].
    destruct (deref_hdr_after_store_page _ _ _ _ _ _ Hx2) as [Hhn Hxa].
    rewrite (deref_hdr_pageAt w wa) in Hxa by (by apply Hkeep).
    (* the new page *)
    assert (Hcur_n : pg_curPage pgn = n).
    { rewrite (deref_page_db w5 w6 _ _ Hdb6), Hw5 in Hpgn.
      apply deref_page_after_store_hdr in Hpgn as [_ Hpgn]. rewrite Hw4 in Hpgn.
      apply deref_page_after_store_hdr in Hpgn as [_ Hpgn].
      assert (Hfa2 : is_Some (db wa !! filePtr this)) by (by eapply deref_page_file).
      destruct (decide (p = n)) as [->|Hpn].
      - subst w3. rewrite deref_page_store_same in Hpgn by (by apply store_file).
        injection Hpgn as <-. simpl.
        subst w2. rewrite deref_page_store_same in Hpgc by done.
        by injection Hpgc as <-.
      - subst w3. rewrite deref_page_store_other in Hpgn by done.
        subst w2. rewrite deref_page_store_same in Hpgn by done.
        by injection Hpgn as <-. }
    assert (Hfresh : p ≠ n -> pgn' = mkPage n (-1) [Some (stored rec)]
                               /\ rid2 = mkRID n 0).
    { intros Hpn. rewrite (deref_page_db w5 w6 _ _ Hdb6), Hw5 in Hpgn.
      apply deref_page_after_store_hdr in Hpgn as [_ Hpgn]. rewrite Hw4 in Hpgn.
      apply deref_page_after_store_hdr in Hpgn as [_ Hpgn].
      assert (Hfa2 : is_Some (db wa !! filePtr this)) by (by eapply deref_page_file).
      subst w3. rewrite deref_page_store_other in Hpgn by done.
      subst w2. rewrite deref_page_store_same in Hpgn by done.
      injection Hpgn as <-. revert Hins2. unfold Page_insertRecord, Page_init. simpl.
      destruct (_ <=? space); [|discriminate]. by intros [= <- <-]. }
    eexists h, x3, _, n, pgn'. split_and!; try done; [congruence|].
    assert (Hnx6 : file_nextNo w6 (filePtr this) = Some (n + 1)).
    { rewrite (file_nextNo_db w5 w6 _ Hdb6), Hw5, Hw4. subst w3 w2.
      rewrite !file_nextNo_store. congruence. }
    right. split_and!; try done.
    + congruence.
    + rewrite Hfree, Hfree6, Hw5, Hw4. simpl. lia.
    + unfold file_nextNo. rewrite Hf. simpl. congruence.
    + congruence.
    + intros y Hy1 Hy2 Hy3. rewrite Hfr' by done.
      rewrite (pageAt_db w5 w6 _ _ Hdb6), Hw5, Hw4. subst w3 w2.
      rewrite !pageAt_store_other by done. by apply Hkeep.
    + intros Hpn.
      assert (Hpgc0 : pgc = pg0).
      { subst w2. rewrite deref_page_store_other in Hpgc by done.
        rewrite (deref_page_pageAt w wa) in Hpgc by (by apply Hkeep). congruence. }
      subst pgc. exists pg0, (mkPage (pg_curPage pg0) n (pg_slots pg0)).
      destruct (Hfresh Hpn) as [Hf1 Hf2].
      split_and!; try done.
      unfold deref_page. simpl. rewrite Hfr' by done.
      rewrite (pageAt_db w5 w6 _ _ Hdb6), Hw5, Hw4.
      rewrite !pageAt_store_other by done. subst w3.
      rewrite pageAt_store_same; [done|]. apply store_file. by eapply deref_page_file.
Qed.

(** [insertRecord] without a current page, status [OK]: the call goes on as
    a call with a current page, which is the last page of the header, or,
    in a file without pages, a page allocated for it. *)
Lemma insertRecord_start (space : Z) (rec : RecordT) (outRid : RID)
    (w : World) (this : HeapFile) (rid : RID) (w' : World) (this' : HeapFile) :
  curPage this = None ->
  InsertFileScan_insertRecord space rec outRid w this = Done (OK, rid, w', this') ->
  exists w0 this0 p h hdr hdr0,
    InsertFileScan_insertRecord space rec outRid w0 this0 = Done (OK, rid, w', this')
    /\ curPage this0 = Some p /\ curPageNo this0 = p
    /\ filePtr this0 = filePtr this
    /\ headerPage this = Some h /\ headerPage this0 = Some h
    /\ deref_hdr w (filePtr this) (Some h) = Done hdr
    /\ deref_hdr w0 (filePtr this) (Some h) = Done hdr0
    /\ recCnt hdr0 = recCnt hdr
    /\ ((db w0 = db w /\ p = lastPage hdr /\ S (freeFrames w0) = freeFrames w
         /\ hdr0 = hdr /\ lastPage hdr ≠ -1)
        \/ (exists f f0,
              db w !! filePtr this = Some f /\ p = f_nextNo f
              /\ lastPage hdr = -1
              /\ hdr0 = set_pageCnt 1 (set_lastPage p (set_firstPage p hdr))
              /\ deref_page w0 (filePtr this) (Some p) = Done (mkPage p (-1) [])
              /\ pageAt w0 (filePtr this) h = Some (HdrPage hdr0)
              /\ (forall x, x ≠ p -> x ≠ h ->
                    pageAt w0 (filePtr this) x = pageAt w (filePtr this) x)
              /\ db w0 !! filePtr this = Some f0
              /\ f_nextNo f0 = f_nextNo f + 1
              /\ S (freeFrames w0) = freeFrames w)).
Proof.
  intros Hcur H. revert H. unfold InsertFileScan_insertRecord at 1. rewrite Hcur.
  destruct (deref_hdr w (filePtr this) (headerPage this)) as [hdr| |] eqn:Hhdr;
    simpl; try discriminate.
  destruct (deref_hdr_inv _ _ _ _ Hhdr) as (h & dh & Hh & Hath & Hash).
  rewrite Hh in Hhdr.
  case_decide as Hlast.
  - (* File is empty, allocate first page *)
    destruct (bufMgr_allocPage (filePtr this) w) as [[sa n] wa] eqn:Ha.
    case_decide as Hsa; simpl.
    { rewrite decide_True by done. intros [= -> _ _ _]. done. }
    assert (sa = OK) as -> by (by destruct (decide (sa = OK))).
    destruct (bufMgr_allocPage_inv _ _ _ _ Ha)
      as (f & Hf & Hn & Hfa & Hpa & Hraw & Hkeep & (fa & Hfa' & Hnext) & Hnx).
    destruct (deref_page wa (filePtr this) (Some n)) as [npg| |] eqn:Hnpg;
      simpl; try discriminate.
    set (w2 := store (filePtr this) n (DataPage (Page_init n npg)) wa).
    destruct (update_hdr (filePtr this) (headerPage this) (set_firstPage n) w2)
      as [w3| |] eqn:Hu3; simpl; try discriminate.
    destruct (update_hdr (filePtr this) (headerPage this) (set_lastPage n) w3)
      as [w4| |] eqn:Hu4; simpl; try discriminate.
    destruct (update_hdr (filePtr this) (headerPage this) (set_pageCnt 1) w4)
      as [w5| |] eqn:Hu5; simpl; try discriminate.
    intros H.
    rewrite Hh in Hu3, Hu4, Hu5.
    destruct (update_hdr_inv _ _ _ _ _ Hu5) as (? & x4 & [= <-] & Hx4 & Hw5 & Hx5).
    destruct (update_hdr_inv _ _ _ _ _ Hu4) as (? & x3 & [= <-] & Hx3 & Hw4 & Hx4').
    destruct (update_hdr_inv _ _ _ _ _ Hu3) as (? & x2 & [= <-] & Hx2 & Hw3 & Hx3').
    rewrite Hx4' in Hx4. injection Hx4 as <-.
    rewrite Hx3' in Hx3. injection Hx3 as <-.
    destruct (deref_hdr_after_store_page _ _ _ _ _ _ Hx2) as [Hhn Hxa].
    rewrite (deref_hdr_pageAt w wa) in Hxa by (by apply Hkeep).
    rewrite Hhdr in Hxa. injection Hxa as <-.
    assert (Hfa2 : is_Some (db wa !! filePtr this)) by done.
    destruct (store_nextNo (filePtr this) n (DataPage (Page_init n npg)) wa fa Hfa')
      as (f2 & Hf2 & Hn2). fold w2 in Hf2.
    destruct (store_nextNo (filePtr this) h (HdrPage (set_firstPage n hdr)) w2 f2 Hf2)
      as (f3 & Hf3 & Hn3). rewrite <- Hw3 in Hf3.
    destruct (store_nextNo (filePtr this) h
                (HdrPage (set_lastPage n (set_firstPage n hdr))) w3 f3 Hf3)
      as (f4 & Hf4 & Hn4). rewrite <- Hw4 in Hf4.
    destruct (store_nextNo (filePtr this) h
                (HdrPage (set_pageCnt 1 (set_lastPage n (set_firstPage n hdr))))
                w4 f4 Hf4)
      as (f5 & Hf5 & Hn5). rewrite <- Hw5 in Hf5.
    eexists w5, (set_hdrDirtyFlag true (set_cur (Some n) n true this)), n, h, hdr, _.
    split; [exact H|]. split_and!; try done.
    right. exists f, f5. split_and!; try done.
    + rewrite Hw5, Hw4, Hw3. rewrite !deref_page_store_other by done.
      by apply deref_page_store_same.
    + rewrite Hw5. apply pageAt_store_same. by exists f4.
    + intros x Hxn Hxh. rewrite Hw5, Hw4, Hw3.
      rewrite !pageAt_store_other by done. subst w2.
      rewrite pageAt_store_other by done. by apply Hkeep.
    + congruence.
    + rewrite Hw5, Hw4, Hw3. simpl. done.
  - (* Read the last page *)
    destruct (bufMgr_readPage (filePtr this) (lastPage hdr) w) as [sr w0] eqn:Hr.
    case_decide as Hsr; simpl.
    { rewrite decide_True by done. intros [= -> _ _ _]. done. }
    assert (sr = OK) as -> by (by destruct (decide (sr = OK))).
    intros H.
    assert (Hdb : db w0 = db w /\ S (freeFrames w0) = freeFrames w).
    { destruct (bufMgr_readPage_inv _ _ _ _ _ Hr)
        as [(_ & _ & k & Hk & ->) | (? & _)]; [|done]. by rewrite Hk. }
    destruct Hdb as [Hdb Hfr].
    eexists w0, (set_cur (Some (lastPage hdr)) (lastPage hdr) false this),
      (lastPage hdr), h, hdr, hdr.
    split; [exact H|]. split_and!; try done.
    + by rewrite (deref_hdr_db w w0).
    + by left.
Qed.

Lemma numbered_alt (w : World) (file : string) :
  numbered w file
  <-> (forall n, file_nextNo w file = Some n -> 0 <= n)
      /\ (forall x d, pageAt w file x = Some d ->
            page_numbered x d /\ forall n, file_nextNo w file = Some n -> x < n).
Proof.
  unfold numbered, file_nextNo, pageAt. destruct (db w !! file) as [f|]; simpl.
  - split.
    + intros [Hn Hp]. split; [by intros n [= <-]|]. intros x d Hx.
      destruct (Hp _ _ Hx). split; [done|]. by intros n [= <-].
    + intros [Hn Hp]. split; [by apply Hn|]. intros x d Hx.
      destruct (Hp _ _ Hx) as [H1 H2]. split; [by apply H2|done].
  - split; [|done]. intros _. split; intros; discriminate.
Qed.

Lemma deref_page_numbered (w : World) (file : string) (x : Z) (pg : Page) :
  numbered w file -> deref_page w file (Some x) = Done pg ->
  pg_curPage pg = x /\ 0 <= x.
Proof.
  intros Hn H. destruct (deref_page_inv _ _ _ _ H) as (p & d & [= <-] & Hat & Has).
  apply numbered_alt in Hn as [_ Hp]. destruct (Hp _ _ Hat) as [Hp' _].
  unfold page_numbered in Hp'. by rewrite Has in Hp'.
Qed.

Lemma page_numbered_deref (w : World) (file : string) (x : Z) (d : PageData)
    (pg : Page) :
  deref_page w file (Some x) = Done pg -> pageAt w file x = Some d ->
  pg_curPage pg = x -> 0 <= x -> page_numbered x d.
Proof.
  intros H Hat Hc Hx. unfold deref_page in H. simpl in H. rewrite Hat in H.
  simpl in H. unfold page_numbered. destruct (asPage d); [|done].
  simpl in H. injection H as ->. done.
Qed.

Lemma numbered_below (w : World) (file : string) (x n : Z) :
  numbered w file -> is_Some (pageAt w file x) -> file_nextNo w file = Some n ->
  x < n.
Proof.
  intros Hnum [d Hd] Hn. apply numbered_alt in Hnum as [_ Hp].
  destruct (Hp _ _ Hd) as [_ Hb]. by apply Hb.
Qed.

(** The numbering is kept by a step that does not lower the number of the
    next page and leaves every page as it is, or numbered. *)
Lemma numbered_step (w w' : World) (file : string) (n n' : Z) :
  numbered w file ->
  file_nextNo w file = Some n -> file_nextNo w' file = Some n' -> n <= n' ->
  (forall x d, pageAt w' file x = Some d ->
     pageAt w file x = Some d \/ (page_numbered x d /\ x < n')) ->
  numbered w' file.
Proof.
  intros Hnum Hn Hn' Hle Hpages. apply numbered_alt.
  apply numbered_alt in Hnum as [Hpos Hp]. split.
  - intros m. rewrite Hn'. intros [= <-]. specialize (Hpos _ Hn). lia.
  - intros x d Hx. destruct (Hpages _ _ Hx) as [Hold | [Hnew Hlt]].
    + destruct (Hp _ _ Hold) as [H1 H2]. split; [done|].
      intros m. rewrite Hn'. intros [= <-]. specialize (H2 _ Hn). lia.
    + split; [done|]. intros m. rewrite Hn'. by intros [= <-].
Qed.

Lemma deref_page_is_page (w : World) (file : string) (x : Z) (pg : Page) :
  deref_page w file (Some x) = Done pg -> is_Some (pageAt w file x).
Proof.
  intros H. destruct (deref_page_inv _ _ _ _ H) as (p & d & [= <-] & Hat & _).
  by exists d.
Qed.

Lemma deref_hdr_is_page (w : World) (file : string) (x : Z) (h : FileHdrPage) :
  deref_hdr w file (Some x) = Done h -> is_Some (pageAt w file x).
Proof.
  intros H. destruct (deref_hdr_inv _ _ _ _ H) as (p & d & [= <-] & Hat & _).
  by exists d.
Qed.

Lemma file_nextNo_is_Some (w : World) (file : string) :
  is_Some (db w !! file) -> is_Some (file_nextNo w file).
Proof. intros [f Hf]. unfold file_nextNo. rewrite Hf. by eexists. Qed.

(** [insertRecord] keeps the numbering of the pages. *)
Lemma insertRecord_on_current_numbered (space : Z) (rec : RecordT) (outRid : RID)
    (w : World) (this : HeapFile) (p : Z) (rid : RID) (w' : World)
    (this' : HeapFile) :
  curPage this = Some p -> curPageNo this = p ->
  numbered w (filePtr this) ->
  InsertFileScan_insertRecord space rec outRid w this = Done (OK, rid, w', this') ->
  numbered w' (filePtr this)
  /\ curPage this' = Some (curPageNo this')
  /\ pageNo rid = curPageNo this' /\ 0 <= pageNo rid.
Proof.
  intros Hcur Hno Hnum H.
  destruct (insertRecord_on_current _ _ _ _ _ _ _ _ _ Hcur H)
    as (h & hdr & hdr' & q & pg' & Hh & Hh' & Hfile & Hhdr & Hhdr' & Hath & Hrc
        & Hfp & Hcur' & Hpg' & Hslot & Hrid & Hcd & Hhd & Hcases).
  destruct (file_nextNo_is_Some w (filePtr this)) as [n Hn];
    [by eapply deref_hdr_file|].
  assert (Hhn : h < n).
  { eapply numbered_below; [done| |done]. by eapply deref_hdr_is_page. }
  destruct Hcases as [(-> & Hno' & _ & _ & _ & _ & Hnx & Hfr & pg0 & Hpg0 & Hcp & _)
                     | (Hno' & Hcp & _ & _ & _ & Hnx & Hnx' & Hfr & Hold)].
  - destruct (deref_page_numbered _ _ _ _ Hnum Hpg0) as [Hp0 Hpos].
    assert (Hpn : p < n).
    { eapply numbered_below; [done| |done]. by eapply deref_page_is_page. }
    split_and!; [|congruence|congruence|congruence].
    apply (numbered_step w w' _ n n); [done|done|congruence|lia|].
    intros x d Hx. destruct (decide (x = p)) as [->|Hxp].
    + right. split; [|done].
      eapply page_numbered_deref; [exact Hpg'|exact Hx|congruence|done].
    + destruct (decide (x = h)) as [->|Hxh].
      * right. rewrite Hath in Hx. by injection Hx as <-.
      * left. by rewrite Hfr in Hx.
  - rewrite Hn in Hnx. injection Hnx as ->.
    assert (Hq : 0 <= q).
    { apply numbered_alt in Hnum as [Hpos _]. by apply Hpos. }
    split_and!; [|congruence|congruence|congruence].
    apply (numbered_step w w' _ q (q + 1)); [done|done|done|lia|].
    intros x d Hx. destruct (decide (x = q)) as [->|Hxq].
    + right. split; [|lia].
      eapply page_numbered_deref; [exact Hpg'|exact Hx|done|done].
    + destruct (decide (x = h)) as [->|Hxh].
      * right. rewrite Hath in Hx. injection Hx as <-. split; [done|lia].
      * destruct (decide (x = p)) as [->|Hxp].
        -- destruct (Hold Hxq) as (pg0 & pgp & Hpg0 & Hpgp & Hcp0 & _).
           destruct (deref_page_numbered _ _ _ _ Hnum Hpg0) as [Hp0 Hpos].
           assert (Hpn : p < q).
           { eapply numbered_below; [done| |done]. by eapply deref_page_is_page. }
           right. split; [|lia].
           eapply page_numbered_deref; [exact Hpgp|exact Hx|congruence|done].
        -- left. by rewrite Hfr in Hx.
Qed.

(** The start of [insertRecord] without a current page keeps the numbering
    of the pages and the records. *)
Lemma insertRecord_start_numbered (space : Z) (rec : RecordT) (outRid : RID)
    (w : World) (this : HeapFile) (rid : RID) (w' : World) (this' : HeapFile) :
  curPage this = None ->
  numbered w (filePtr this) ->
  InsertFileScan_insertRecord space rec outRid w this = Done (OK, rid, w', this') ->
  exists w0 this0 p h hdr hdr0,
    InsertFileScan_insertRecord space rec outRid w0 this0 = Done (OK, rid, w', this')
    /\ curPage this0 = Some p /\ curPageNo this0 = p
    /\ filePtr this0 = filePtr this
    /\ numbered w0 (filePtr this)
    /\ records_kept w w0 (filePtr this)
    /\ headerPage this = Some h /\ headerPage this0 = Some h
    /\ deref_hdr w (filePtr this) (Some h) = Done hdr
    /\ deref_hdr w0 (filePtr this) (Some h) = Done hdr0
    /\ ((db w0 = db w /\ p = lastPage hdr /\ hdr0 = hdr /\ lastPage hdr ≠ -1)
        \/ (lastPage hdr = -1
            /\ hdr0 = set_pageCnt 1 (set_lastPage p (set_firstPage p hdr))
            /\ file_nextNo w (filePtr this) = Some p
            /\ deref_page w0 (filePtr this) (Some p) = Done (mkPage p (-1) [])
            /\ pageAt w0 (filePtr this) h = Some (HdrPage hdr0))).
Proof.
  intros Hcur Hnum H.
  destruct (insertRecord_start _ _ _ _ _ _ _ _ Hcur H)
    as (w0 & this0 & p & h & hdr & hdr0 & H0 & Hcur0 & Hno0 & Hfile0 & Hh & Hh0
        & Hhdr & Hhdr0 & Hrc0 & Hstart).
  exists w0, this0, p, h, hdr, hdr0. split_and!; try done.
  - destruct Hstart as [(Hdb & _) | (f & f0 & Hf & Hp & _ & _ & Hpg & Hath & Hfr & Hf0 & Hn0 & _)].
    + unfold numbered in *. by rewrite Hdb.
    + assert (Hnx : file_nextNo w (filePtr this) = Some p).
      { unfold file_nextNo. rewrite Hf. simpl. congruence. }
      assert (Hq : 0 <= p).
      { apply numbered_alt in Hnum as [Hn _]. by apply Hn. }
      assert (Hhn : h < p).
      { eapply numbered_below; [done| |done]. by eapply deref_hdr_is_page. }
      apply (numbered_step w w0 _ p (p + 1)); [done|done| |lia|].
      { unfold file_nextNo. rewrite Hf0. simpl. congruence. }
      intros x d Hx. destruct (decide (x = p)) as [->|Hxp].
      * right. split; [|lia].
        eapply page_numbered_deref; [exact Hpg|exact Hx|done|done].
      * destruct (decide (x = h)) as [->|Hxh].
        -- right. rewrite Hath in Hx. injection Hx as <-. split; [done|lia].
        -- left. by rewrite Hfr in Hx.
  - intros x pg s r Hpg Hs.
    destruct Hstart as [(Hdb & _) | (f & f0 & Hf & Hp & _ & _ & Hpg0 & Hath & Hfr & Hf0 & Hn0 & _)].
    + exists pg. split; [|done]. by rewrite (deref_page_db w w0).
    + assert (Hnx : file_nextNo w (filePtr this) = Some p).
      { unfold file_nextNo. rewrite Hf. simpl. congruence. }
      destruct (decide (x = p)) as [->|Hxp].
      * exfalso. assert (p < p); [|lia].
        eapply numbered_below; [done| |done]. by eapply deref_page_is_page.
      * destruct (decide (x = h)) as [->|Hxh].
        -- destruct (deref_hdr_inv _ _ _ _ Hhdr) as (? & d & [= <-] & Hat & Has).
           destruct (deref_page_inv _ _ _ _ Hpg) as (? & d' & [= <-] & Hat' & Has').
           rewrite Hat in Hat'. injection Hat' as <-.
           destruct d; try discriminate. injection Has' as <-.
           unfold slot_at in Hs. by destruct (0 <=? s).
        -- exists pg. split; [|done].
           rewrite (deref_page_pageAt w w0); [done|]. by apply Hfr.
  - destruct Hstart as [(Hdb & Hp & _ & Hh0' & Hl) | (f & f0 & Hf & Hp & Hl & Hh0' & Hpg & Hath & _)].
    + by left.
    + right. split_and!; try done.
      unfold file_nextNo. rewrite Hf. simpl. congruence.
Qed.

(** The record inserted is on the current page, whichever way it went. *)
Lemma insertRecord_on_page (space : Z) (rec : RecordT) (outRid : RID)
    (w : World) (this : HeapFile) (rid : RID) (w' : World) (this' : HeapFile) :
  InsertFileScan_insertRecord space rec outRid w this = Done (OK, rid, w', this') ->
  exists q pg',
    curPage this' = Some q
    /\ deref_page w' (filePtr this') (Some q) = Done pg'
    /\ slot_at pg' (slotNo rid) = Some (stored rec).
Proof.
  intros H. destruct (curPage this) as [p|] eqn:Hcur.
  - destruct (insertRecord_on_current _ _ _ _ _ _ _ _ _ Hcur H)
      as (h & hdr & hdr' & q & pg' & Hh & Hh' & Hfile & Hhdr & Hhdr' & Hath & Hrc
          & Hfp & Hcur' & Hpg' & Hslot & _).
    exists q, pg'. by rewrite Hfile.
  - destruct (insertRecord_start _ _ _ _ _ _ _ _ Hcur H)
      as (w0 & this0 & p & h & hdr & hdr0 & H0 & Hcur0 & Hno0 & Hfile0 & _).
    destruct (insertRecord_on_current _ _ _ _ _ _ _ _ _ Hcur0 H0)
      as (h1 & hdr1 & hdr' & q & pg' & Hh1 & Hh' & Hfile & Hhdr1 & Hhdr' & Hath & Hrc
          & Hfp & Hcur' & Hpg' & Hslot & _).
    exists q, pg'. by rewrite Hfile.
Qed.

(** X12: insertRecord, status [OK]: the record is on the current page of the
    handle afterwards, in the slot that the returned identifier names;
    [getRecCnt] is one higher than before; both dirty flags are set; and the
    handle holds one data page (a frame is taken only when it held none). *)
Theorem insertRecord_stores_and_counts (space : Z) (rec : RecordT) (outRid : RID)
    (w : World) (this : HeapFile) (rid : RID) (w' : World) (this' : HeapFile) :
  InsertFileScan_insertRecord space rec outRid w this = Done (OK, rid, w', this') ->
  exists n q pg',
    HeapFile_getRecCnt w this = Done n
    /\ HeapFile_getRecCnt w' this' = Done (int_add n 1)
    /\ curPage this' = Some q
    /\ deref_page w' (filePtr this') (Some q) = Done pg'
    /\ slot_at pg' (slotNo rid) = Some (stored rec)
    /\ pageNo rid = pg_curPage pg'
    /\ curDirtyFlag this' = true /\ hdrDirtyFlag this' = true
    /\ (freeFrames w' + 1 = freeFrames w + held this)%nat.
Proof.
  intros H. destruct (curPage this) as [p|] eqn:Hcur.
  - destruct (insertRecord_on_current _ _ _ _ _ _ _ _ _ Hcur H)
      as (h & hdr & hdr' & q & pg' & Hh & Hh' & Hfile & Hhdr & Hhdr' & Hath & Hrc
          & Hfp & Hcur' & Hpg' & Hslot & Hrid & Hcd & Hhd & Hcases).
    exists (recCnt hdr), q, pg'. unfold HeapFile_getRecCnt.
    rewrite Hfile, Hh, Hh', Hhdr, Hhdr'. simpl. split_and!; try done.
    + congruence.
    + unfold held. rewrite Hcur.
      destruct Hcases as [(_ & _ & _ & _ & _ & -> & _) | (_ & _ & _ & _ & -> & _)]; lia.
  - destruct (insertRecord_start _ _ _ _ _ _ _ _ Hcur H)
      as (w0 & this0 & p & h & hdr & hdr0 & H0 & Hcur0 & Hno0 & Hfile0 & Hh & Hh0
          & Hhdr & Hhdr0 & Hrc0 & Hstart).
    destruct (insertRecord_on_current _ _ _ _ _ _ _ _ _ Hcur0 H0)
      as (h1 & hdr1 & hdr' & q & pg' & Hh1 & Hh' & Hfile & Hhdr1 & Hhdr' & Hath & Hrc
          & Hfp & Hcur' & Hpg' & Hslot & Hrid & Hcd & Hhd & Hcases).
    rewrite Hh0 in Hh1. injection Hh1 as <-. rewrite Hfile0 in *.
    rewrite Hhdr0 in Hhdr1. injection Hhdr1 as <-.
    exists (recCnt hdr), q, pg'. unfold HeapFile_getRecCnt.
    rewrite Hfile, Hh, Hh', Hhdr, Hhdr'. simpl. split_and!; try done.
    + congruence.
    + unfold held. rewrite Hcur.
      assert (freeFrames w' = freeFrames w0) as ->.
      { destruct Hcases as [(_ & _ & _ & _ & _ & -> & _) | (_ & _ & _ & _ & -> & _)];
          done. }
      destruct Hstart as [(_ & _ & <- & _) | (f & f0 & _ & _ & _ & _ & _ & _ & _ & _ & _ & <-)]; lia.
Qed.

Lemma insertRecord_stores_and_counts_witness :
  exists n q pg',
    HeapFile_getRecCnt oneOpen.1 oneOpen.2 = Done n
    /\ HeapFile_getRecCnt oneInsert.1.2 oneInsert.2 = Done (int_add n 1)
    /\ curPage oneInsert.2 = Some q
    /\ deref_page oneInsert.1.2 (filePtr oneInsert.2) (Some q) = Done pg'
    /\ slot_at pg' 2 = Some (stored (intRecord 5))
    /\ 2 = pg_curPage pg'
    /\ curDirtyFlag oneInsert.2 = true /\ hdrDirtyFlag oneInsert.2 = true
    /\ (freeFrames oneInsert.1.2 + 1 = freeFrames oneOpen.1 + held oneOpen.2)%nat.
Proof.
  apply (insertRecord_stores_and_counts 64 (intRecord 5) NULLRID oneOpen.1 oneOpen.2
           (mkRID 2 2) oneInsert.1.2 oneInsert.2).
  vm_compute. reflexivity.
Defined.

(** X13: insertRecord then getRecord: in a file whose pages carry their own
    numbers, a record inserted with status [OK] is read back by
    [HeapFile::getRecord] under the identifier returned, without a call of
    the buffer pool; the numbering of the pages is kept. *)
Theorem insertRecord_getRecord_round_trip (space : Z) (rec rec0 : RecordT)
    (outRid : RID) (w : World) (this : HeapFile) (rid : RID) (w' : World)
    (this' : HeapFile) :
  (curPage this = None \/ curPage this = Some (curPageNo this)) ->
  numbered w (filePtr this) ->
  InsertFileScan_insertRecord space rec outRid w this = Done (OK, rid, w', this') ->
  HeapFile_getRecord rid rec0 w' this'
  = Done (OK, stored rec, w', set_curRec rid this')
  /\ numbered w' (filePtr this')
  /\ curPage this' = Some (curPageNo this').
Proof.
  intros Hinv Hnum H.
  assert (Hfacts : numbered w' (filePtr this')
                   /\ curPage this' = Some (curPageNo this')
                   /\ pageNo rid = curPageNo this' /\ 0 <= pageNo rid).
  { destruct (curPage this) as [p|] eqn:Hcur.
    - destruct Hinv as [|[= ->]]; [done|].
      destruct (insertRecord_on_current _ _ _ _ _ _ _ _ _ Hcur H)
        as (_ & _ & _ & _ & _ & _ & _ & -> & _).
      by eapply insertRecord_on_current_numbered.
    - destruct (insertRecord_start_numbered _ _ _ _ _ _ _ _ Hcur Hnum H)
        as (w0 & this0 & p & ? & ? & ? & H0 & Hcur0 & Hno0 & Hfile0 & Hnum0 & _).
      destruct (insertRecord_on_current _ _ _ _ _ _ _ _ _ Hcur0 H0)
        as (_ & _ & _ & _ & _ & _ & _ & Hfile & _).
      rewrite Hfile. rewrite <- Hfile0 in Hnum0.
      by eapply insertRecord_on_current_numbered. }
  destruct Hfacts as (Hnum' & Hcur' & Hrid & Hpos).
  split_and!; try done.
  destruct (insertRecord_on_page space rec outRid w this rid w' this' H)
    as (q & pg' & Hq & Hpg' & Hslot).
  unfold HeapFile_getRecord.
  destruct (pageNo rid <? 0) eqn:Hneg; [lia|].
  rewrite Hcur'. rewrite bool_decide_eq_false_2 by done.
  rewrite (bool_decide_eq_false_2 (pageNo rid ≠ curPageNo this')) by tauto.
  simpl. rewrite Hcur' in Hq. injection Hq as <-. rewrite Hcur', Hpg'. simpl.
  unfold Page_getRecord. by rewrite Hslot.
Qed.

Lemma insertRecord_getRecord_round_trip_witness :
  HeapFile_getRecord (mkRID 2 2) junkRecord oneInsert.1.2 oneInsert.2
  = Done (OK, stored (intRecord 5), oneInsert.1.2, set_curRec (mkRID 2 2) oneInsert.2)
  /\ numbered oneInsert.1.2 "t"
  /\ curPage oneInsert.2 = Some 2.
Proof.
  apply (insertRecord_getRecord_round_trip 64 (intRecord 5) junkRecord NULLRID
           oneOpen.1 oneOpen.2 (mkRID 2 2) oneInsert.1.2 oneInsert.2).
  - right. vm_compute. reflexivity.
  - apply (bool_decide_unpack _). vm_compute. exact I.
  - vm_compute. reflexivity.
Defined.

(** ** The records that an insertion leaves alone *)

Lemma hdr_page_no_records (w : World) (file : string) (h : Z) (hd : FileHdrPage)
    (pg : Page) (s : Z) :
  deref_hdr w file (Some h) = Done hd -> deref_page w file (Some h) = Done pg ->
  slot_at pg s = None.
Proof.
  intros Hh Hp.
  destruct (deref_hdr_inv _ _ _ _ Hh) as (? & d & [= <-] & Hat & Has).
  destruct (deref_page_inv _ _ _ _ Hp) as (? & d' & [= <-] & Hat' & Has').
  rewrite Hat in Hat'. injection Hat' as <-.
  destruct d; try discriminate. injection Has' as <-.
  unfold slot_at. by destruct (0 <=? s).
Qed.

Lemma records_kept_trans (w1 w2 w3 : World) (file : string) :
  records_kept w1 w2 file -> records_kept w2 w3 file -> records_kept w1 w3 file.
Proof.
  intros H12 H23 x pg s r Hpg Hs.
  destruct (H12 _ _ _ _ Hpg Hs) as (pg2 & Hpg2 & Hs2). by eapply H23.
Qed.

Lemma insertRecord_on_current_keeps (space : Z) (rec : RecordT) (outRid : RID)
    (w : World) (this : HeapFile) (p : Z) (rid : RID) (w' : World)
    (this' : HeapFile) :
  curPage this = Some p ->
  numbered w (filePtr this) ->
  InsertFileScan_insertRecord space rec outRid w this = Done (OK, rid, w', this') ->
  records_kept w w' (filePtr this)
  /\ (forall pg, deref_page w (filePtr this) (Some (pageNo rid)) = Done pg ->
        slot_at pg (slotNo rid) = None).
Proof.
  intros Hcur Hnum H.
  destruct (insertRecord_on_current _ _ _ _ _ _ _ _ _ Hcur H)
    as (h & hdr & hdr' & q & pg' & Hh & Hh' & Hfile & Hhdr & Hhdr' & Hath & Hrc
        & Hfp & Hcur' & Hpg' & Hslot & Hrid & Hcd & Hhd & Hcases).
  destruct Hcases as [(-> & Hno' & _ & _ & _ & _ & Hnx & Hfr & pg0 & Hpg0 & Hcp
                       & Hvac & Hother & _)
                     | (Hno' & Hcp & _ & _ & _ & Hnx & Hnx' & Hfr & Hold)].
  - destruct (deref_page_numbered _ _ _ _ Hnum Hpg0) as [Hp0 Hpos].
    split.
    + intros x pg s r Hpg Hs. destruct (decide (x = p)) as [->|Hxp].
      * rewrite Hpg0 in Hpg. injection Hpg as <-. exists pg'. split; [done|].
        rewrite Hother; [done|]. intros ->. congruence.
      * destruct (decide (x = h)) as [->|Hxh].
        -- rewrite (hdr_page_no_records _ _ _ _ _ s Hhdr Hpg) in Hs. done.
        -- exists pg. split; [|done].
           rewrite (deref_page_pageAt w w'); [done|]. by apply Hfr.
    + intros pg. rewrite Hrid, Hcp, Hp0, Hpg0. by intros [= <-].
  - split.
    + intros x pg s r Hpg Hs. destruct (decide (x = q)) as [->|Hxq].
      * exfalso. assert (q < q); [|lia].
        eapply numbered_below; [done| |done]. by eapply deref_page_is_page.
      * destruct (decide (x = h)) as [->|Hxh].
        -- rewrite (hdr_page_no_records _ _ _ _ _ s Hhdr Hpg) in Hs. done.
        -- destruct (decide (x = p)) as [->|Hxp].
           ++ destruct (Hold Hxq) as (pg0 & pgp & Hpg0 & Hpgp & _ & Hsl & _).
              rewrite Hpg0 in Hpg. injection Hpg as <-. exists pgp. split; [done|].
              unfold slot_at in *. by rewrite Hsl.
           ++ exists pg. split; [|done].
              rewrite (deref_page_pageAt w w'); [done|]. by apply Hfr.
    + intros pg Hpg. exfalso. rewrite Hrid, Hcp in Hpg. assert (q < q); [|lia].
      eapply numbered_below; [done| |done]. by eapply deref_page_is_page.
Qed.

(** X14: insertRecord, status [OK], in a file whose pages are numbered as the
    file device numbers them: every record that could be read before can be
    read afterwards, under the same identifier and with the same content;
    and the identifier returned named no record before. *)
Theorem insertRecord_keeps_other_records (space : Z) (rec : RecordT) (outRid : RID)
    (w : World) (this : HeapFile) (rid : RID) (w' : World) (this' : HeapFile) :
  numbered w (filePtr this) ->
  InsertFileScan_insertRecord space rec outRid w this = Done (OK, rid, w', this') ->
  (forall (x : Z) (pg : Page) (s : Z) (r : RecordT),
     deref_page w (filePtr this) (Some x) = Done pg -> slot_at pg s = Some r ->
     exists pg', deref_page w' (filePtr this) (Some x) = Done pg'
                 /\ slot_at pg' s = Some r)
  /\ (forall pg, deref_page w (filePtr this) (Some (pageNo rid)) = Done pg ->
        slot_at pg (slotNo rid) = None).
Proof.
  intros Hnum H. destruct (curPage this) as [p|] eqn:Hcur.
  - by eapply insertRecord_on_current_keeps.
  - destruct (insertRecord_start_numbered _ _ _ _ _ _ _ _ Hcur Hnum H)
      as (w0 & this0 & p & ? & ? & ? & H0 & Hcur0 & Hno0 & Hfile0 & Hnum0 & Hkept0 & _).
    rewrite <- Hfile0 in Hnum0.
    destruct (insertRecord_on_current_keeps _ _ _ _ _ _ _ _ _ Hcur0 Hnum0 H0)
      as [Hkept Hfresh].
    rewrite Hfile0 in Hkept, Hfresh. split.
    + by apply (records_kept_trans w w0 w').
    + intros pg Hpg. destruct (slot_at pg (slotNo rid)) as [r|] eqn:Hs; [|done].
      destruct (Hkept0 _ _ _ _ Hpg Hs) as (pg0 & Hpg0 & Hs0).
      rewrite (Hfresh _ Hpg0) in Hs0. done.
Qed.

Lemma insertRecord_keeps_other_records_witness :
  (forall (x : Z) (pg : Page) (s : Z) (r : RecordT),
     deref_page oneOpen.1 "t" (Some x) = Done pg -> slot_at pg s = Some r ->
     exists pg', deref_page oneInsert.1.2 "t" (Some x) = Done pg'
                 /\ slot_at pg' s = Some r)
  /\ (forall pg, deref_page oneOpen.1 "t" (Some 2) = Done pg ->
        slot_at pg 2 = None).
Proof.
  apply (insertRecord_keeps_other_records 64 (intRecord 5) NULLRID
           oneOpen.1 oneOpen.2 (mkRID 2 2) oneInsert.1.2 oneInsert.2).
  - apply (bool_decide_unpack _). vm_compute. exact I.
  - vm_compute. reflexivity.
Defined.

(** ** A scan that starts without a current page *)

(** X15: scanNext on a scan without a current page (after [endScan], say) and
    without a filter: the first page of the file is pinned again, and the
    record returned is the second record of that page; the first one is
    stepped over. *)
Theorem scanNext_without_current_page_skips_first (fuel : nat) (outRid : RID)
    (w : World) (this : HeapFileScan) (hdr : FileHdrPage) (pg : Page) (n : nat)
    (rid1 rid2 : RID) (r1 r2 : RecordT) (rest : list (RID * RecordT)) :
  curPage (base this) = None ->
  s_filter this = None ->
  deref_hdr w (filePtr (base this)) (headerPage (base this)) = Done hdr ->
  firstPage hdr ≠ -1 ->
  deref_page w (filePtr (base this)) (Some (firstPage hdr)) = Done pg ->
  freeFrames w = S n ->
  live_records pg = (rid1, r1) :: (rid2, r2) :: rest ->
  exists w' this',
    HeapFileScan_scanNext (S fuel) outRid w this = Done (OK, rid2, w', this')
    /\ curRec (base this') = rid2
    /\ curPage (base this') = Some (firstPage hdr)
    /\ pins w' = (filePtr (base this), firstPage hdr) :: pins w.
Proof.
  intros Hcur Hflt Hhdr Hfirst Hpg Hfree Hlive.
  simpl. rewrite Hcur, Hhdr. simpl. rewrite decide_False by done.
  destruct (deref_page_inv _ _ _ _ Hpg) as (? & d & [= <-] & Hat & Has).
  unfold bufMgr_readPage. rewrite Hat, Hfree. simpl.
  match goal with |- context [deref_page ?w2 _ (Some (firstPage hdr))] =>
    set (w1 := w2) end.
  rewrite (deref_page_db w w1) by done. rewrite Hpg. simpl.
  destruct (Page_firstRecord_cases NULLRID pg)
    as [(i & r & -> & Hslot & Hl) | (_ & Hl & _)]; [|by rewrite Hl in Hlive].
  rewrite Hlive in Hl. injection Hl as -> -> Hafter. simpl.
  unfold scanNext_advance. simpl.
  rewrite (deref_page_db w w1) by done. rewrite Hpg. simpl.
  destruct (Page_nextRecord_cases (mkRID (pg_curPage pg) (Z.of_nat i)) NULLRID pg)
    as [(i2 & r2' & -> & Hslot2 & Hl2) | (_ & Hl2)]; simpl in Hl2;
    [|by rewrite Hl2 in Hafter].
  rewrite <- Hafter in Hl2. injection Hl2 as -> -> _. simpl.
  unfold scanNext_check. simpl. rewrite Hflt. simpl.
  eexists _, _. split; [reflexivity|]. done.
Qed.

Lemma scanNext_without_current_page_skips_first_witness :
  exists w' this',
    HeapFileScan_scanNext 1 NULLRID (HeapFileScan_endScan intScan.1 intScan.2).1.2
      (HeapFileScan_endScan intScan.1 intScan.2).2
    = Done (OK, mkRID 2 1, w', this')
    /\ curRec (base this') = mkRID 2 1
    /\ curPage (base this') = Some 2
    /\ pins w' = ("t", 2) :: pins (HeapFileScan_endScan intScan.1 intScan.2).1.2.
Proof.
  apply (scanNext_without_current_page_skips_first 0 NULLRID
           (HeapFileScan_endScan intScan.1 intScan.2).1.2
           (HeapFileScan_endScan intScan.1 intScan.2).2
           intHdr (intPage 2) 6 (mkRID 2 0) (mkRID 2 1) (intRecord 7) (intRecord 42)
           (live_after 1 (intPage 2))).
  - reflexivity.
  - reflexivity.
  - vm_compute. reflexivity.
  - vm_compute. discriminate.
  - vm_compute. reflexivity.
  - vm_compute. reflexivity.
  - vm_compute. reflexivity.
Defined.

(** ** Opening and closing an insert scan *)

(** X16: An insert scan that is opened and closed at once, on a file with a data
    page: the files, the pins and the free frames are as before, but the
    destructor has unpinned the data page with the dirty flag set, although
    nothing was inserted. *)
Theorem InsertFileScan_open_close_unpins_dirty (name : string) (w : World)
    (this : HeapFile) (w1 : World) (b : HeapFile) (p : Z) :
  InsertFileScan_ctor name w this = Done (OK, w1, b) ->
  curPage b = Some p ->
  exists w2 b2,
    InsertFileScan_dtor w1 b = Done (w2, b2)
    /\ db w2 = db w /\ pins w2 = pins w /\ freeFrames w2 = freeFrames w
    /\ curPage b2 = None
    /\ drop (length (trace w)) (trace w2)
       = [EvPin name (headerPageNo b); EvPin name p;
          EvUnpin name p true; EvUnpin name (headerPageNo b) false].
Proof.
  unfold InsertFileScan_ctor. intros H Hcp.
  destruct (HeapFile_ctor_inv _ _ _ _ _ _ H) as [(Hst & _) | (_ & f & hdr & Hrest)];
    [done|].
  destruct Hrest as (Hf & Hdb & Hfile & Hno & Hptr & Hdirty & Hhdr & Hcases).
  destruct Hcases as [(_ & Hcur & _) | (Hfirst & Hcur & Hcno & Hcd & Hpins & Hfree & Htr)];
    [congruence|].
  assert (p = firstPage hdr) as -> by congruence.
  destruct b as [fp hp hno hd cp cno cd cr]. simpl in *. subst fp hno hp hd cp cno cd.
  unfold InsertFileScan_dtor. simpl.
  erewrite bufMgr_unPinPage_head by exact Hpins. simpl.
  unfold HeapFile_dtor. simpl. rewrite (deref_hdr_db w1) by done.
  rewrite Hhdr. simpl.
  erewrite bufMgr_unPinPage_head by reflexivity. simpl.
  erewrite db_closeFile_open; [|simpl; rewrite Hdb; apply lookup_insert_eq|reflexivity].
  eexists _, _. split; [reflexivity|]. simpl.
  split_and!; try done.
  - rewrite Hdb, insert_insert_eq, File_eta. by apply insert_id.
  - rewrite Htr, <- !app_assoc. by rewrite drop_app_length.
Qed.

Lemma InsertFileScan_open_close_unpins_dirty_witness :
  exists w2 b2,
    InsertFileScan_dtor intScan.1 (base intScan.2) = Done (w2, b2)
    /\ db w2 = db intFile /\ pins w2 = pins intFile
    /\ freeFrames w2 = freeFrames intFile
    /\ curPage b2 = None
    /\ drop (length (trace intFile)) (trace w2)
       = [EvPin "t" (headerPageNo (base intScan.2)); EvPin "t" 2;
          EvUnpin "t" 2 true; EvUnpin "t" (headerPageNo (base intScan.2)) false].
Proof.
  apply (InsertFileScan_open_close_unpins_dirty "t" intFile rawHeapFile intScan.1
           (base intScan.2) 2).
  - vm_compute. reflexivity.
  - vm_compute. reflexivity.
Defined.

(** ** A scan from its construction to its destruction *)

(** Any number of calls of [scanNext] from a position on the chain: the scan
    stays on the chain, on the same header, with its one pin on top of the
    same other pins and with the same number of free frames. *)
Lemma scan_steps_session (k : nat) :
  forall (fuel : nat) (w : World) (this : HeapFileScan) (p : Z) (pg : Page)
         (rest : list Page) (tl : list (string * Z)),
  Positioned w this p pg rest ->
  all_defined this (remaining this pg rest) ->
  (length (remaining this pg rest) + length rest < fuel)%nat ->
  pins w = (filePtr (base this), curPageNo (base this)) :: tl ->
  exists w' this' p' pg' rest',
    scan_steps k fuel w this = Done (w', this')
    /\ Positioned w' this' p' pg' rest'
    /\ db w' = db w
    /\ filePtr (base this') = filePtr (base this)
    /\ headerPage (base this') = headerPage (base this)
    /\ headerPageNo (base this') = headerPageNo (base this)
    /\ hdrDirtyFlag (base this') = hdrDirtyFlag (base this)
    /\ freeFrames w' = freeFrames w
    /\ pins w' = (filePtr (base this'), curPageNo (base this')) :: tl.
Proof.
  induction k as [|k IH]; intros fuel w this p pg rest tl Hpos Hdef Hfuel Hpins.
  - exists w, this, p, pg, rest. by split_and!.
  - destruct (scanNext_spec fuel NULLRID w this p pg rest Hpos Hdef Hfuel)
      as (st & rid & w1 & this1 & p1 & pg1 & rest1 & Hres & Hpos1 & Hdb1 & Hsame1
          & Hlen & Hm).
    destruct (scanNext_has_effect _ _ _ _ _ Hres)
      as (_ & _ & (Hh1 & Hh2 & Hh3) & Hbal & Hpin & _).
    assert (Hst : st ≠ BADPAGENO).
    { destruct (first_match this (remaining this pg rest)) as [[rid' todo']|];
        destruct Hm as (-> & _); discriminate. }
    specialize (Hbal Hst). specialize (Hpin Hst tl).
    unfold held, held_pins in Hbal, Hpin.
    rewrite (pos_curPage _ _ _ _ _ Hpos), (pos_curPage _ _ _ _ _ Hpos1) in Hbal, Hpin.
    simpl in Hpin. specialize (Hpin Hpins).
    simpl. rewrite Hres. simpl.
    assert (Hnext : all_defined this1 (remaining this1 pg1 rest1)
                    /\ (length (remaining this1 pg1 rest1) + length rest1 < fuel)%nat).
    { destruct (first_match this (remaining this pg rest)) as [[rid' todo']|] eqn:Hfm.
      - destruct Hm as (_ & _ & ->).
        destruct (first_match_defined _ _ _ _ Hfm Hdef) as [Hd Hl].
        split; [by eapply same_scan_all_defined | lia].
      - destruct Hm as (_ & _ & ->). split; [constructor | simpl; lia]. }
    destruct Hnext as [Hdef1 Hfuel1].
    destruct (IH fuel w1 this1 p1 pg1 rest1 tl Hpos1 Hdef1 Hfuel1 Hpin)
      as (w' & this' & p' & pg' & rest' & Hsteps & Hpos' & Hdb' & Hf' & Hh1' & Hh2'
          & Hh3' & Hfr' & Hpins').
    exists w', this', p', pg', rest'.
    pose proof (same_scan_filePtr _ _ Hsame1).
    split_and!; try done; try congruence. lia.
Qed.

(** X17: A scan session: a scan is constructed, [startScan] sets its filter,
    [scanNext] is called any number of times, and the scan is destroyed.
    Afterwards the files are as before the session, and so are the pins and
    the number of free frames: every page the session pinned has been
    unpinned, and the file is closed. *)
Theorem scan_session_releases_pins
    (name : string) (w0 : World) (mem : HeapFileScan)
    (w1 : World) (s1 : HeapFileScan)
    (offset_ length_ : Z) (type_ : Datatype) (filter_ : option (list byte))
    (op_ : Operator) (s2 : HeapFileScan)
    (hdr : FileHdrPage) (pages : list Page) (k fuel : nat) :
  HeapFileScan_ctor name w0 mem = Done (OK, w1, s1) ->
  HeapFileScan_startScan offset_ length_ type_ filter_ op_ s1 = (OK, s2) ->
  deref_hdr w1 name (headerPage (base s1)) = Done hdr ->
  Chain w1 name (firstPage hdr) pages ->
  all_defined s2 (chain_records pages) ->
  (length (chain_records pages) + length pages < fuel)%nat ->
  exists w2 s3 w3 s4,
    scan_steps k fuel w1 s2 = Done (w2, s3)
    /\ HeapFileScan_dtor w2 s3 = Done (w3, s4)
    /\ db w3 = db w0 /\ pins w3 = pins w0 /\ freeFrames w3 = freeFrames w0.
Proof.
  intros Hctor Hstart Hhdr Hchain Hdef Hfuel.
  apply HeapFileScan_ctor_base in Hctor.
  destruct (HeapFile_ctor_OK _ _ _ _ _ Hctor) as (_ & Hrec & _).
  destruct (HeapFile_ctor_inv _ _ _ _ _ _ Hctor)
    as [(Hst & _) | (_ & f & hdr' & Hf & Hdb & Hfile & Hno & Hptr & Hdirty & Hhdr'
                     & Hcases)]; [done|].
  rewrite Hptr in Hhdr. rewrite Hhdr in Hhdr'. injection Hhdr' as <-.
  assert (Hbase : base s2 = base s1).
  { rewrite <- (startScan_base offset_ length_ type_ filter_ op_ s1).
    by rewrite Hstart. }
  assert (Hclose : forall w',
            db w' = db w1 ->
            exists w2, db_closeFile name w' = (OK, w2) /\ db w2 = db w0
                       /\ pins w2 = pins w' /\ freeFrames w2 = freeFrames w').
  { intros w' Hw'. eexists. split.
    - eapply db_closeFile_open; [rewrite Hw', Hdb; apply lookup_insert_eq | reflexivity].
    - simpl. split_and!; try done.
      rewrite Hw', Hdb, insert_insert_eq, File_eta. by apply insert_id. }
  destruct s1 as [b1 o1 l1 t1 f1 op1 m1 mr1], s2 as [b2 o2 l2 t2 f2 op2 m2 mr2].
  simpl in Hbase, Hrec, Hfile, Hno, Hptr, Hdirty, Hcases. subst b2.
  destruct b1 as [fp hp hno hd cp cno cd cr].
  simpl in Hrec, Hfile, Hno, Hptr, Hdirty, Hcases. subst fp hp hno hd cr.
  destruct Hcases as [(Hfirst & Hcur & Hpins & Hfree & _)
                     | (Hfirst & Hcur & Hcno & Hcd & Hpins & Hfree & _)].
  - (* no data page *)
    subst cp.
    destruct fuel as [|fuel]; [lia|].
    match type of Hdef with all_defined ?s _ => exists w1, s end.
    erewrite (scan_steps_no_page k fuel w1 _ hdr); [|done|done|done].
    unfold HeapFileScan_dtor, HeapFileScan_endScan, HeapFile_dtor. simpl.
    rewrite Hhdr. simpl.
    erewrite bufMgr_unPinPage_head by exact Hpins.
    match goal with |- context [db_closeFile name ?w'] =>
      destruct (Hclose w' eq_refl) as (w3 & Hc & Hdb3 & Hp3 & Hf3) end.
    rewrite Hc. simpl. eexists w3, _. split_and!; try done.
    rewrite Hf3. simpl. lia.
  - (* the first page is the current page *)
    subst cp cno cd.
    destruct (Chain_next_inv _ _ _ _ Hfirst Hchain) as (pg & rest & -> & Hpg & Hrest).
    match type of Hdef with all_defined ?s _ => set (s2 := s) in * end.
    assert (Hpos : Positioned w1 s2 (firstPage hdr) pg rest).
    { constructor; simpl; try done. rewrite Hpins. by left. }
    assert (Hrem : remaining s2 pg rest = chain_records (pg :: rest)) by done.
    destruct (scan_steps_session k fuel w1 s2 (firstPage hdr) pg rest
                ((name, f_firstPage f) :: pins w0) Hpos)
      as (w2 & s3 & p' & pg' & rest' & Hsteps & Hpos' & Hdb2 & Hf2 & Hh1 & Hh2 & Hh3
          & Hfr2 & Hpins2).
    { by rewrite Hrem. }
    { rewrite Hrem. simpl in Hfuel. lia. }
    { done. }
    simpl in Hf2, Hh1, Hh2, Hh3.
    exists w2, s3. rewrite Hsteps.
    destruct Hpos' as [Hcur' Hno' _ _ _].
    destruct s3 as [b3 o3 l3 t3 f3 op3 m3 mr3].
    destruct b3 as [fp hp hno hd cp cno cd cr].
    simpl in Hf2, Hh1, Hh2, Hh3, Hcur', Hno', Hpins2. subst fp hp hno hd cp cno.
    unfold HeapFileScan_dtor, HeapFileScan_endScan. simpl.
    erewrite bufMgr_unPinPage_head by exact Hpins2. simpl.
    unfold HeapFile_dtor. simpl.
    rewrite (deref_hdr_db w1) by done. rewrite Hhdr. simpl.
    erewrite bufMgr_unPinPage_head by reflexivity. simpl.
    match goal with |- context [db_closeFile name ?w'] =>
      destruct (Hclose w' Hdb2) as (w3 & Hc & Hdb3 & Hp3 & Hf3) end.
    rewrite Hc. simpl. eexists w3, _. split_and!; try done.
    rewrite Hf3. simpl. lia.
Qed.

Lemma scan_session_releases_pins_witness :
  exists w2 s3 w3 s4,
    scan_steps 3 20 intScan.1 intScan42 = Done (w2, s3)
    /\ HeapFileScan_dtor w2 s3 = Done (w3, s4)
    /\ db w3 = db intFile /\ pins w3 = pins intFile
    /\ freeFrames w3 = freeFrames intFile.
Proof.
  apply (scan_session_releases_pins "t" intFile rawScan intScan.1 intScan.2
           0 4 INTEGER (Some (int_bytes 42)) EQ intScan42
           intHdr [intPage 2; intPage 3] 3 20).
  - vm_compute. reflexivity.
  - vm_compute. reflexivity.
  - vm_compute. reflexivity.
  - apply (walk_Chain 3 _ _ _ [(2, intPage 2); (3, intPage 3)]). vm_compute. reflexivity.
  - exact intScan42_defined.
  - vm_compute. lia.
Defined.

(** ** Changes reach the disk *)

(** X18: deleteRecord then endScan: the page that lost the record is unpinned
    with the dirty flag set. *)
Theorem deleteRecord_then_endScan_unpins_dirty (w : World) (this : HeapFileScan)
    (p : Z) (pg : Page) (rest : list Page) (h : Z) (hdr : FileHdrPage)
    (r : RecordT) :
  Positioned w this p pg rest ->
  headerPage (base this) = Some h ->
  pageAt w (filePtr (base this)) h = Some (HdrPage hdr) ->
  slot_at pg (slotNo (curRec (base this))) = Some r ->
  exists w1 s1 w2 s2,
    HeapFileScan_deleteRecord w this = Done (OK, w1, s1)
    /\ HeapFileScan_endScan w1 s1 = (OK, w2, s2)
    /\ trace w2
       = trace w ++ [EvWrite (filePtr (base this)) p;
                     EvWrite (filePtr (base this)) h;
                     EvUnpin (filePtr (base this)) p true]
    /\ curPage (base s2) = None
    /\ hdrDirtyFlag (base s2) = true.
Proof.
  intros Hpos Hh Hat Hslot.
  destruct (deleteRecord_positioned _ _ _ _ _ _ _ _ Hpos Hh Hat Hslot)
    as (w1 & s1 & pg' & Hdel & Hpd & Hpos' & -> & Hhdr & Hpins & Hfree & Htr).
  destruct Hpos' as [Hcur' Hno' Hpin' _ _]. simpl in Hcur', Hno', Hpin'.
  eexists w1, _, _, _. split; [exact Hdel|].
  unfold HeapFileScan_endScan. simpl. rewrite Hcur'.
  unfold bufMgr_unPinPage. rewrite Hno', decide_True by done. simpl.
  split_and!; try done. simpl.
  by rewrite Htr, <- app_assoc.
Qed.

Lemma deleteRecord_then_endScan_unpins_dirty_witness :
  exists w1 s1 w2 s2,
    HeapFileScan_deleteRecord intNext.1.2 intNext.2 = Done (OK, w1, s1)
    /\ HeapFileScan_endScan w1 s1 = (OK, w2, s2)
    /\ trace w2
       = trace intNext.1.2 ++ [EvWrite (filePtr (base intNext.2)) 2;
                               EvWrite (filePtr (base intNext.2)) 1;
                               EvUnpin (filePtr (base intNext.2)) 2 true]
    /\ curPage (base s2) = None
    /\ hdrDirtyFlag (base s2) = true.
Proof.
  apply (deleteRecord_then_endScan_unpins_dirty intNext.1.2 intNext.2 2 (intPage 2)
           [intPage 3] 1 intHdr (intRecord 42)).
  - constructor.
    + reflexivity.
    + reflexivity.
    + apply (bool_decide_unpack _). vm_compute. exact I.
    + vm_compute. reflexivity.
    + apply (walk_Chain 3 _ _ _ [(3, intPage 3)]). vm_compute. reflexivity.
  - reflexivity.
  - vm_compute. reflexivity.
  - vm_compute. reflexivity.
Defined.

(** ** What the validation of startScan is worth *)

(** X19: A filter that startScan accepts, whose [offset + length] does not pass
    [INT_MAX] and whose value has [length] bytes: matchRec returns on every
    record that carries as many bytes as its length says, and it returns
    false on a record shorter than [offset + length]. *)
Theorem startScan_guards_matchRec (offset_ length_ : Z) (type_ : Datatype)
    (flt : list byte) (op_ : Operator) (this this' : HeapFileScan) (rec : RecordT) :
  HeapFileScan_startScan offset_ length_ type_ (Some flt) op_ this = (OK, this') ->
  offset_ + length_ <= INT_MAX ->
  length_ <= Z.of_nat (length flt) ->
  well_formed_record rec ->
  (exists m, HeapFileScan_matchRec rec this' = Done m)
  /\ (rec_length rec < offset_ + length_ ->
      HeapFileScan_matchRec rec this' = Done false).
Proof.
  intros Hstart Hmax Hlen Hwf.
  pose proof (startScan_sound _ _ _ _ _ _ _ Hstart Hmax Hlen) as Hsound.
  split.
  - pose proof (matchRec_defined _ _ Hsound Hwf) as Hd.
    destruct (HeapFileScan_matchRec rec this') as [m| |]; [by exists m|done|done].
  - intros Hshort. revert Hstart. unfold HeapFileScan_startScan.
    destruct (_ || _); [discriminate|]. intros [= <-].
    unfold sound_filter in Hsound. simpl in Hsound.
    apply (matchRec_short_record _ _ flt); simpl; try done.
    unfold INT_MIN. lia.
Qed.

Lemma startScan_guards_matchRec_witness :
  (exists m, HeapFileScan_matchRec (intRecord 7) intScan42 = Done m)
  /\ (rec_length (intRecord 7) < 0 + 4 ->
      HeapFileScan_matchRec (intRecord 7) intScan42 = Done false).
Proof.
  apply (startScan_guards_matchRec 0 4 INTEGER (int_bytes 42) EQ intScan.2 intScan42
           (intRecord 7)).
  - vm_compute. reflexivity.
  - vm_compute. discriminate.
  - vm_compute. discriminate.
  - reflexivity.
Defined.

(** ** The comparison of matchRec on integers and strings *)

Lemma shr_1_m (mrs : shr_record) :
  0 <= shr_m mrs -> shr_m (shr_1 mrs) = shr_m mrs / 2.
Proof.
  destruct mrs as [m r s]. cbn [shr_m]. intros Hm.
  destruct m as [|[p|p|]|p]; cbn [shr_1 shr_m]; try lia.
  - done.
  - apply (Z.div_unique _ 2 _ 1); lia.
  - apply (Z.div_unique _ 2 _ 0); lia.
  - done.
Qed.

Lemma iter_shr_1_m (p : positive) :
  forall mrs, 0 <= shr_m mrs ->
  shr_m (SpecFloat.iter_pos shr_1 p mrs) = shr_m mrs / 2 ^ Zpos p.
Proof.
  assert (Hnn : forall m, 0 <= m -> 0 <= m / 2).
  { intros m Hm. apply Z.div_pos; lia. }
  assert (Hpp : forall q m, 0 <= m -> 0 <= m / 2 ^ Zpos q).
  { intros q m Hm. apply Z.div_pos; [done|]. apply Z.pow_pos_nonneg; lia. }
  induction p as [p IH|p IH|]; intros mrs Hm; cbn [SpecFloat.iter_pos].
  - assert (H1 : 0 <= shr_m (shr_1 mrs)) by (rewrite shr_1_m; auto).
    assert (H2 : 0 <= shr_m (SpecFloat.iter_pos shr_1 p (shr_1 mrs)))
      by (rewrite IH; auto).
    rewrite (IH _ H2), (IH _ H1), (shr_1_m _ Hm).
    rewrite !Z.div_div by (try apply Z.pow_pos_nonneg; lia).
    f_equal. change (Z.pos p~1) with (2 * Z.pos p + 1).
    replace (2 * Z.pos p + 1) with (1 + Z.pos p + Z.pos p) by lia.
    rewrite !Z.pow_add_r by lia. lia.
  - assert (H2 : 0 <= shr_m (SpecFloat.iter_pos shr_1 p mrs))
      by (rewrite IH; auto).
    rewrite (IH _ H2), (IH _ Hm).
    rewrite !Z.div_div by (try apply Z.pow_pos_nonneg; lia).
    f_equal. change (Z.pos p~0) with (2 * Z.pos p).
    replace (2 * Z.pos p) with (Z.pos p + Z.pos p) by lia.
    rewrite !Z.pow_add_r by lia. lia.
  - by rewrite shr_1_m.
Qed.

Lemma digits2_pos_lower (m : positive) :
  2 ^ (Zpos (digits2_pos m) - 1) <= Zpos m.
Proof.
  induction m as [m IH|m IH|]; simpl; [| |done].
  - rewrite Pos2Z.inj_succ. change (Z.pos m~1) with (2 * Z.pos m + 1).
    replace (Z.succ (Z.pos (digits2_pos m)) - 1)
      with (1 + (Z.pos (digits2_pos m) - 1)) by lia.
    rewrite Z.pow_add_r by lia. lia.
  - rewrite Pos2Z.inj_succ. change (Z.pos m~0) with (2 * Z.pos m).
    replace (Z.succ (Z.pos (digits2_pos m)) - 1)
      with (1 + (Z.pos (digits2_pos m) - 1)) by lia.
    rewrite Z.pow_add_r by lia. lia.
Qed.

Lemma shr_record_of_loc_m (m : Z) (l : location) : shr_m (shr_record_of_loc m l) = m.
Proof. by destruct l as [|[]]. Qed.

(** Rounding to the precision of [float] keeps a mantissa that is not zero:
    fewer bits are shifted out than the mantissa has. *)
Lemma shr_fexp_pos (m : positive) (e : Z) (l : location) :
  emin float_prec float_emax <= e ->
  exists m',
    shr_m (shr_fexp float_prec float_emax (Zpos m) e l).1 = Zpos m'
    /\ e <= (shr_fexp float_prec float_emax (Zpos m) e l).2.
Proof.
  intros He. unfold shr_fexp, shr. simpl Zdigits2.
  set (d := Zpos (digits2_pos m)).
  assert (Hn : fexp float_prec float_emax (d + e) - e < d).
  { unfold fexp, emin, float_prec, float_emax in *. lia. }
  destruct (fexp float_prec float_emax (d + e) - e) as [|p|p] eqn:En; simpl.
  - exists m. by rewrite shr_record_of_loc_m.
  - rewrite iter_shr_1_m by (rewrite shr_record_of_loc_m; lia).
    rewrite shr_record_of_loc_m.
    assert (Hle : 2 ^ Zpos p <= Zpos m).
    { etrans; [|apply digits2_pos_lower]. apply Z.pow_le_mono_r; lia. }
    assert (Hpos : 0 < Zpos m / 2 ^ Zpos p).
    { apply Z.div_str_pos. split; [apply Z.pow_pos_nonneg; lia | done]. }
    destruct (Zpos m / 2 ^ Zpos p) as [|m'|m'] eqn:Ed; try lia.
    exists m'. split; [done|lia].
  - exists m. by rewrite shr_record_of_loc_m.
Qed.

Lemma round_nearest_even_pos (m : positive) (l : location) :
  exists m', round_nearest_even (Zpos m) l = Zpos m'.
Proof.
  destruct l as [|[]]; simpl; eauto.
  destruct m; simpl; eauto.
Qed.

(** The conversion of an integer that is not zero is not zero, and has the
    sign of the integer. *)
Lemma binary_round_sign (s : bool) (m : positive) :
  (exists m' e', binary_round float_prec float_emax s m 0 = S754_finite s m' e')
  \/ binary_round float_prec float_emax s m 0 = S754_infinity s.
Proof.
  unfold binary_round.
  destruct (shl_align m 0 _) as [mz ez] eqn:Ea.
  assert (Hez : emin float_prec float_emax <= ez).
  { revert Ea. unfold shl_align.
    destruct (fexp float_prec float_emax (Z.pos (digits2_pos m) + 0) - 0) eqn:E;
      intros [= <- <-]; unfold fexp, emin, float_prec, float_emax in *; lia. }
  unfold binary_round_aux.
  destruct (shr_fexp_pos mz ez loc_Exact Hez) as (m1 & Hm1 & He1).
  destruct (shr_fexp float_prec float_emax (Zpos mz) ez loc_Exact) as [mrs1 e1].
  simpl in Hm1, He1. rewrite Hm1.
  destruct (round_nearest_even_pos m1 (loc_of_shr_record mrs1)) as (m2 & ->).
  destruct (shr_fexp_pos m2 e1 loc_Exact) as (m3 & Hm3 & He3); [lia|].
  destruct (shr_fexp float_prec float_emax (Zpos m2) e1 loc_Exact) as [mrs2 e2].
  simpl in Hm3, He3. rewrite Hm3.
  destruct (e2 <=? _); [left; eauto | by right].
Qed.

Lemma float_of_int_compare (z : Z) :
  SFcompare (float_of_int z) float_zero = Some (z ?= 0).
Proof.
  unfold float_of_int, binary_normalize, float_zero. destruct z as [|m|m]; simpl.
  - done.
  - destruct (binary_round_sign false m) as [(m' & e' & ->) | ->]; done.
  - destruct (binary_round_sign true m) as [(m' & e' & ->) | ->]; done.
Qed.

Lemma float_zero_compare (z : Z) :
  SFcompare float_zero (float_of_int z) = Some (0 ?= z).
Proof.
  unfold float_of_int, binary_normalize, float_zero. destruct z as [|m|m]; simpl.
  - done.
  - destruct (binary_round_sign false m) as [(m' & e' & ->) | ->]; done.
  - destruct (binary_round_sign true m) as [(m' & e' & ->) | ->]; done.
Qed.

(** The comparisons of [matchRec] on a difference converted from an integer
    are the comparisons of the integer. *)
Lemma float_of_int_op (op : Operator) (z : Z) :
  match op with
  | LT => SFltb (float_of_int z) float_zero
  | LTE => SFleb (float_of_int z) float_zero
  | EQ => SFeqb (float_of_int z) float_zero
  | GTE => SFleb float_zero (float_of_int z)
  | GT => SFltb float_zero (float_of_int z)
  | NE => negb (SFeqb (float_of_int z) float_zero)
  end = op_holds op z.
Proof.
  unfold SFltb, SFleb, SFeqb, op_holds.
  rewrite float_of_int_compare, float_zero_compare.
  destruct op.
  - destruct (Z.ltb_spec z 0), (Z.compare_spec z 0); done || lia.
  - destruct (Z.leb_spec z 0), (Z.compare_spec z 0); done || lia.
  - destruct (Z.eqb_spec z 0), (Z.compare_spec z 0); done || lia.
  - destruct (Z.leb_spec 0 z), (Z.compare_spec 0 z); done || lia.
  - destruct (Z.ltb_spec 0 z), (Z.compare_spec 0 z); done || lia.
  - destruct (Z.eqb_spec z 0), (Z.compare_spec z 0); done || lia.
Qed.

Lemma wrap_range (z : Z) : INT_MIN <= wrap z <= INT_MAX.
Proof. unfold wrap, INT_MIN, INT_MAX. Z.div_mod_to_equations. lia. Qed.

Lemma memcpy_int_range (src : list byte) (n z : Z) :
  memcpy_int src n = Done z -> INT_MIN <= z <= INT_MAX.
Proof.
  unfold memcpy_int. destruct (n =? 4); [|discriminate].
  destruct (memcpy_src src n); simpl; try discriminate.
  intros [= <-]. apply wrap_range.
Qed.

Lemma wrap_zero (d : Z) :
  INT_MIN - INT_MAX <= d <= INT_MAX - INT_MIN -> (wrap d =? 0) = (d =? 0).
Proof.
  unfold wrap, INT_MIN, INT_MAX. intros Hd.
  destruct (Z.eqb_spec d 0) as [->|Hne]; [done|].
  apply Z.eqb_neq. Z.div_mod_to_equations. lia.
Qed.

(** X20: matchRec with an INTEGER filter, on a record that holds the attribute:
    the result is the comparison of the [int] difference of attribute and
    filter value with zero; the conversion of the difference to [float]
    does not change it. That is the comparison of the two integers when the
    difference does not overflow, and for [EQ] and [NE] in any case. *)
Theorem matchRec_INTEGER_compares (this : HeapFileScan) (rec : RecordT)
    (flt : list byte) (a b : Z) :
  s_filter this = Some flt -> s_type this = INTEGER -> s_length this = 4 ->
  0 <= s_offset this -> s_offset this + 4 <= INT_MAX ->
  s_offset this + 4 <= rec_length rec ->
  memcpy_int (drop (Z.to_nat (s_offset this)) (rec_data rec)) 4 = Done a ->
  memcpy_int flt 4 = Done b ->
  HeapFileScan_matchRec rec this = Done (op_holds (s_op this) (int_sub a b))
  /\ (INT_MIN <= a - b <= INT_MAX ->
      op_holds (s_op this) (int_sub a b) = op_holds (s_op this) (a - b))
  /\ (s_op this = EQ \/ s_op this = NE ->
      op_holds (s_op this) (int_sub a b) = op_holds (s_op this) (a - b)).
Proof.
  intros Hflt Hty Hlen Hoff Hmax Hrec Ha Hb.
  pose proof (memcpy_int_range _ _ _ Ha) as Hra.
  pose proof (memcpy_int_range _ _ _ Hb) as Hrb.
  split_and!.
  - unfold HeapFileScan_matchRec. rewrite Hflt, Hty, Hlen.
    unfold int_add, int_sub at 1.
    rewrite (wrap_small (s_offset this + 4)) by (unfold INT_MIN, INT_MAX in *; lia).
    rewrite (wrap_small (s_offset this + 4 - 1)) by (unfold INT_MIN, INT_MAX in *; lia).
    destruct (rec_length rec <=? s_offset this + 4 - 1) eqn:E;
      [apply Z.leb_le in E; lia|].
    assert (Hlen4 : (4 <= length (drop (Z.to_nat (s_offset this)) (rec_data rec)))%nat).
    { revert Ha. unfold memcpy_int, memcpy_src. simpl.
      destruct (4 <=? _) eqn:E4; [|discriminate]. apply Z.leb_le in E4. lia. }
    rewrite length_drop in Hlen4.
    rewrite ptr_add_in_range by lia. simpl. rewrite Ha. simpl. rewrite Hb. simpl.
    by rewrite float_of_int_op.
  - intros Hd. unfold int_sub. by rewrite wrap_small.
  - intros Hop. unfold int_sub, op_holds.
    destruct Hop as [-> | ->]; rewrite wrap_zero; try done;
      unfold INT_MIN, INT_MAX in *; lia.
Qed.

Lemma matchRec_INTEGER_compares_witness :
  HeapFileScan_matchRec (intRecord 7) intScan42
  = Done (op_holds (s_op intScan42) (int_sub 7 42))
  /\ (INT_MIN <= 7 - 42 <= INT_MAX ->
      op_holds (s_op intScan42) (int_sub 7 42) = op_holds (s_op intScan42) (7 - 42))
  /\ (s_op intScan42 = EQ \/ s_op intScan42 = NE ->
      op_holds (s_op intScan42) (int_sub 7 42) = op_holds (s_op intScan42) (7 - 42)).
Proof.
  apply (matchRec_INTEGER_compares intScan42 (intRecord 7) (int_bytes 42) 7 42).
  - reflexivity.
  - reflexivity.
  - reflexivity.
  - vm_compute. discriminate.
  - vm_compute. discriminate.
  - vm_compute. discriminate.
  - vm_compute. reflexivity.
  - vm_compute. reflexivity.
Defined.

(** X21: matchRec with a STRING filter, on a record that holds the attribute: the
    result is the comparison of the value of [strncmp] with zero. *)
Theorem matchRec_STRING_compares (this : HeapFileScan) (rec : RecordT)
    (flt : list byte) (r : Z) :
  s_filter this = Some flt -> s_type this = STRING ->
  0 <= s_offset this -> 1 <= s_length this ->
  s_offset this + s_length this <= INT_MAX ->
  s_offset this + s_length this <= rec_length rec ->
  s_offset this <= Z.of_nat (length (rec_data rec)) ->
  strncmp (drop (Z.to_nat (s_offset this)) (rec_data rec)) flt
          (size_t_of_int (s_length this)) = Done r ->
  HeapFileScan_matchRec rec this = Done (op_holds (s_op this) r).
Proof.
  intros Hflt Hty Hoff Hlen Hmax Hrec Hdata Hcmp.
  unfold HeapFileScan_matchRec. rewrite Hflt, Hty.
  unfold int_add, int_sub.
  rewrite (wrap_small (s_offset this + s_length this))
    by (unfold INT_MIN, INT_MAX in *; lia).
  rewrite (wrap_small (s_offset this + s_length this - 1))
    by (unfold INT_MIN, INT_MAX in *; lia).
  destruct (rec_length rec <=? s_offset this + s_length this - 1) eqn:E;
    [apply Z.leb_le in E; lia|].
  rewrite ptr_add_in_range by lia. simpl. rewrite Hcmp. simpl.
  by rewrite float_of_int_op.
Qed.

Lemma matchRec_STRING_compares_witness :
  HeapFileScan_matchRec (bytesRecord 5 "a") strScan
  = Done (op_holds (s_op strScan) (-1)).
Proof.
  apply (matchRec_STRING_compares strScan (bytesRecord 5 "a") ["a"; "b"]%byte (-1)).
  - reflexivity.
  - reflexivity.
  - vm_compute. discriminate.
  - vm_compute. discriminate.
  - vm_compute. discriminate.
  - vm_compute. discriminate.
  - vm_compute. discriminate.
  - vm_compute. reflexivity.
Defined.

(** ** The header after an insertion at the tail *)












